(** * DeFi Butler: the intent composition and execution pipeline

    A shallow embedding of the TypeScript services and hooks of the
    repository, and the properties of its specification proved about them.

    - [Js]      the fragment of JavaScript the services rely on: thrown
                values, truthiness, ASCII string helpers, [parseInt], JSON
                values;
    - [Ens]     [src/services/ensService.ts]: text records, preference
                parsing, profiles and strategy following;
    - [Yield]   [src/services/yieldService.ts] (the two-source service):
                adapters, the five-minute cache, queries;
    - [Lifi]    the LI.FI service: token table, route quoting, intent
                composition, execution;
    - [Intent]  [src/hooks/useIntent.ts]: the lifecycle state machine;
    - [Sample]  concrete collaborators and inputs;
    - [EnsFacts], [YieldFacts], [LifiFacts], [IntentFacts]: the properties;
    - [NumberFacts], [ProfileFacts], [RecordFacts], [SourceFacts],
      [RunFacts]: further properties of the same code and of its callers
      (writing the records back, the adapters and their retries, the
      resolver hook, complete runs of the orchestrator, the quick intent).

    Collaborators outside the repository (the naming client, the HTTP
    endpoints of the yield providers, the LI.FI SDK, [JSON.parse], the
    clock) are parameters: every answer they can give, rejections included,
    is covered.  Asynchronous calls are run one after the other.

    Numbers.  A JavaScript [number] is modelled by a rational: every finite
    double denotes one, and the only operations the modelled code performs
    on the numbers it compares are [<=], [>=] and the sign of a difference,
    which agree with the rationals on finite doubles.  The slippage of a
    request is the one number the code computes with (a quotient and a
    product): its exact value stands for the rounded one, and is relied on
    only where both are the same.  [NaN] is outside the model.  Strings are byte strings; case conversion and trimming act on
    the ASCII range. *)

From Stdlib Require Import ZArith QArith Lqa String Ascii List Bool Lia Sorted.
From stdpp Require Import base option list strings pretty gmap.

Set Warnings "-register-all".
Close Scope Q_scope.
Open Scope string_scope.
Open Scope list_scope.
Open Scope Z_scope.

(* ===================================================================== *)
(** * JavaScript preliminaries *)
(* ===================================================================== *)

Module Js.

(** A thrown value: an [Error] instance carrying its message, or any other
    value (for which [e instanceof Error] is false). *)
Inductive exn : Type :=
  | JsError (message : string)
  | JsOther.

(** The outcome of evaluating a call that may throw (or, for an awaited
    promise, reject). *)
Inductive outcome (A : Type) : Type :=
  | Ret (a : A)
  | Throw (e : exn).
Arguments Ret {A} a.
Arguments Throw {A} e.

(** [error instanceof Error ? error.message : fallback] *)
Definition message_or (fallback : string) (e : exn) : string :=
  match e with
  | JsError m => m
  | JsOther => fallback
  end.

(** Truthiness of an optional string: [undefined], [null] and [''] are falsy. *)
Definition truthy_str (o : option string) : option string :=
  match o with
  | Some s => if decide (s = "") then None else Some s
  | None => None
  end.

(** ** Strings *)

Definition upper_ascii (c : ascii) : ascii :=
  let n := N_of_ascii c in
  if ((97 <=? n) && (n <=? 122))%N then ascii_of_N (n - 32) else c.

Definition lower_ascii (c : ascii) : ascii :=
  let n := N_of_ascii c in
  if ((65 <=? n) && (n <=? 90))%N then ascii_of_N (n + 32) else c.

Fixpoint map_string (f : ascii -> ascii) (s : string) : string :=
  match s with
  | EmptyString => EmptyString
  | String c r => String (f c) (map_string f r)
  end.

Definition toUpperCase : string -> string := map_string upper_ascii.
Definition toLowerCase : string -> string := map_string lower_ascii.

(** White space as [String.prototype.trim] and [parseInt] skip it, on ASCII:
    TAB, LF, VT, FF, CR and SPACE. *)
Definition is_space (c : ascii) : bool :=
  let n := N_of_ascii c in
  ((9 <=? n) && (n <=? 13) || (n =? 32))%N.

Fixpoint trimStart (s : string) : string :=
  match s with
  | String c r => if is_space c then trimStart r else s
  | EmptyString => EmptyString
  end.

Fixpoint trimEnd (s : string) : string :=
  match s with
  | EmptyString => EmptyString
  | String c r =>
      match trimEnd r with
      | EmptyString => if is_space c then EmptyString else String c EmptyString
      | r' => String c r'
      end
  end.

Definition trim (s : string) : string := trimEnd (trimStart s).

(** ** [parseInt(s, 10)] *)

Definition digit_of (c : ascii) : option Z :=
  let n := N_of_ascii c in
  if ((48 <=? n) && (n <=? 57))%N then Some (Z.of_N (n - 48)) else None.

(** The longest prefix of decimal digits, read left to right; [None] when
    there is no digit at all. *)
Fixpoint digits (acc : option Z) (s : string) : option Z :=
  match s with
  | String c r =>
      match digit_of c with
      | Some d => digits (Some (10 * default 0 acc + d)) r
      | None => acc
      end
  | EmptyString => acc
  end.

(** [None] stands for [NaN].  Leading white space is skipped, one sign is
    accepted, and anything after the digits is ignored.  The value is the
    exact integer (a double is exact up to 2^53). *)
Definition parseInt10 (s : string) : option Z :=
  match trimStart s with
  | String "-" r => Z.opp <$> digits None r
  | String "+" r => digits None r
  | r => digits None r
  end.

(** ** JSON values *)

Inductive json : Type :=
  | JNull
  | JBool (b : bool)
  | JNum (q : Q)
  | JStr (s : string)
  | JArr (items : list json)
  | JObj (fields : list (string * json)).

(** [Array.isArray(v)] *)
Definition as_array (v : json) : option (list json) :=
  match v with
  | JArr l => Some l
  | _ => None
  end.

(** [typeof v === 'object'], which holds for [null] and arrays too. *)
Definition typeof_object (v : json) : bool :=
  match v with
  | JNull | JArr _ | JObj _ => true
  | _ => false
  end.

(** [v === s] for a string [s]: strict equality never coerces. *)
Definition strict_eq_str (s : string) (v : json) : bool :=
  match v with
  | JStr t => bool_decide (t = s)
  | _ => false
  end.

(** [arr.includes(s)] for a string [s]. *)
Definition includes_str (arr : list json) (s : string) : bool :=
  existsb (strict_eq_str s) arr.

(** [c.toLowerCase()] on an arbitrary parsed value: a [TypeError] unless
    [c] is a string. *)
Definition toLowerCase_any (v : json) : option string :=
  match v with
  | JStr s => Some (toLowerCase s)
  | _ => None
  end.

(** *** A reference reader for flat string arrays

    [JSON.parse] is a built-in of the platform: the services are modelled
    over an arbitrary reader [string -> option json] ([None] for a
    [SyntaxError]).  The reader below is the one the worked examples run
    with.  It accepts the literals [null], [true], [false], [{}] and arrays
    of escape-free string literals, with ASCII white space between tokens,
    and rejects every other text. *)

(** The double quote, and a string literal of a JSON text. *)
Definition dquote : ascii := ascii_of_N 34.
Definition quoted (s : string) : string :=
  String dquote (s +:+ String dquote EmptyString).

Inductive rd_state : Type :=
  | RdOpen                      (* before the opening bracket *)
  | RdFirst                     (* after the bracket: a string or the end *)
  | RdStr (acc : string)        (* inside a string literal, reversed *)
  | RdNext                      (* after an element: comma or the end *)
  | RdElem                      (* after a comma: a string *)
  | RdDone.                     (* after the closing bracket *)

Fixpoint rev_string (s acc : string) : string :=
  match s with
  | EmptyString => acc
  | String c r => rev_string r (String c acc)
  end.

Fixpoint read_array (st : rd_state) (done : list json) (s : string)
  : option json :=
  match s with
  | EmptyString =>
      match st with
      | RdDone => Some (JArr (rev done))
      | _ => None
      end
  | String c r =>
      match st with
      | RdOpen =>
          if is_space c then read_array RdOpen done r
          else if Ascii.eqb c "[" then read_array RdFirst done r
          else None
      | RdFirst =>
          if is_space c then read_array RdFirst done r
          else if Ascii.eqb c "]" then read_array RdDone done r
          else if Ascii.eqb c dquote then read_array (RdStr "") done r
          else None
      | RdStr acc =>
          if Ascii.eqb c dquote then
            read_array RdNext (JStr (rev_string acc "") :: done) r
          else if Ascii.eqb c "\" then None
          else if (N_of_ascii c <? 32)%N then None
          else read_array (RdStr (String c acc)) done r
      | RdNext =>
          if is_space c then read_array RdNext done r
          else if Ascii.eqb c "," then read_array RdElem done r
          else if Ascii.eqb c "]" then read_array RdDone done r
          else None
      | RdElem =>
          if is_space c then read_array RdElem done r
          else if Ascii.eqb c dquote then read_array (RdStr "") done r
          else None
      | RdDone =>
          if is_space c then read_array RdDone done r else None
      end
  end.

Definition read_flat (s : string) : option json :=
  let t := trim s in
  if decide (t = "null") then Some JNull
  else if decide (t = "true") then Some (JBool true)
  else if decide (t = "false") then Some (JBool false)
  else if decide (t = "{}") then Some (JObj [])
  else read_array RdOpen [] t.

(** [s.endsWith(suffix)]: some tail of [s] is [suffix]. *)
Fixpoint endsWith (s suffix : string) : bool :=
  if decide (s = suffix) then true
  else match s with
       | String _ r => endsWith r suffix
       | EmptyString => false
       end.

(** *** A reference writer for the same fragment

    [JSON.stringify] is a parameter of the models as [JSON.parse] is.  The
    writer below serves the worked examples: arrays of escape-free strings,
    the empty object and the literals. *)
Fixpoint join_quoted (items : list json) : string :=
  match items with
  | [] => ""
  | JStr s :: rest =>
      match rest with
      | [] => quoted s
      | _ => quoted s +:+ "," +:+ join_quoted rest
      end
  | _ :: rest => "null"
  end.

Definition write_flat (v : json) : string :=
  match v with
  | JNull => "null"
  | JBool true => "true"
  | JBool false => "false"
  | JArr items => "[" +:+ join_quoted items +:+ "]"
  | JObj [] => "{}"
  | _ => "null"
  end.

(** A value that [JSON.parse] reads back from what [JSON.stringify] wrote. *)
Definition reads_back (parse : string -> option json) (write : json -> string)
    (v : json) : Prop :=
  parse (write v) = Some v.

(** A string that does not start with white space. *)
Definition no_lead (s : string) : Prop :=
  match s with
  | String c _ => is_space c = false
  | EmptyString => True
  end.

End Js.

(* ===================================================================== *)
(** * Preference resolver: [src/services/ensService.ts] *)
(* ===================================================================== *)

Module Ens.
Import Js.

(** ** Data model ([src/types/index.ts]) *)

Inductive RiskTolerance : Type := conservative | moderate | aggressive.
Inductive DefaultAction : Type := deposit | bridge | swap.

(** The two protocol lists are typed [string[]] but receive whatever array
    [JSON.parse] returned, unchecked: they hold parsed values.  The two
    numeric fields hold integers (the schema defaults and [parseInt]
    results). *)
Record UserPreferences : Type := {
  preferredChains : list string;
  riskTolerance : RiskTolerance;
  maxSlippageBps : Z;
  defaultAction : DefaultAction;
  whitelistedProtocols : list json;
  blacklistedProtocols : list json;
  minLiquidityUsd : Z;
  strategyFollow : option string;
  autoRebalance : bool;
  notificationPrefs : json;
}.

Record ENSProfile : Type := {
  name : string;
  address : string;
  avatar : option string;
  preferences : UserPreferences;
  isFollowingStrategy : bool;
  followedStrategyOwner : option string;
}.

Definition K_preferredChains := "com.yieldintent.preferredChains".
Definition K_riskTolerance := "com.yieldintent.riskTolerance".
Definition K_maxSlippageBps := "com.yieldintent.maxSlippageBps".
Definition K_defaultAction := "com.yieldintent.defaultAction".
Definition K_whitelistedProtocols := "com.yieldintent.whitelistedProtocols".
Definition K_blacklistedProtocols := "com.yieldintent.blacklistedProtocols".
Definition K_minLiquidityUsd := "com.yieldintent.minLiquidityUsd".
Definition K_strategyFollow := "com.yieldintent.strategyFollow".
Definition K_autoRebalance := "com.yieldintent.autoRebalance".
Definition K_notificationPrefs := "com.yieldintent.notificationPrefs".

(** [Object.values(ENS_RECORD_KEYS)], in declaration order. *)
Definition ENS_RECORD_KEYS : list string :=
  [ K_preferredChains; K_riskTolerance; K_maxSlippageBps; K_defaultAction;
    K_whitelistedProtocols; K_blacklistedProtocols; K_minLiquidityUsd;
    K_strategyFollow; K_autoRebalance; K_notificationPrefs ].

Definition RISK_TOLERANCE_MAP (r : RiskTolerance) : list string :=
  match r with
  | conservative => ["aave-v3"; "compound-v3"; "morpho"; "spark"]
  | moderate => ["aave-v3"; "compound-v3"; "morpho"; "spark"; "yearn-v3"]
  | aggressive =>
      ["aave-v3"; "compound-v3"; "morpho"; "spark"; "yearn-v3"; "pendle"; "silo"]
  end.

Definition DEFAULT_PREFERENCES : UserPreferences := {|
  preferredChains := ["base"; "arbitrum"; "optimism"];
  riskTolerance := moderate;
  maxSlippageBps := 100;
  defaultAction := deposit;
  whitelistedProtocols := [];
  blacklistedProtocols := [];
  minLiquidityUsd := 100000;
  strategyFollow := None;
  autoRebalance := false;
  notificationPrefs := JObj [];
|}.

(** Field assignments [prefs.f = v]. *)
Definition set_preferredChains v (p : UserPreferences) :=
  {| preferredChains := v; riskTolerance := riskTolerance p;
     maxSlippageBps := maxSlippageBps p; defaultAction := defaultAction p;
     whitelistedProtocols := whitelistedProtocols p;
     blacklistedProtocols := blacklistedProtocols p;
     minLiquidityUsd := minLiquidityUsd p; strategyFollow := strategyFollow p;
     autoRebalance := autoRebalance p; notificationPrefs := notificationPrefs p |}.
Definition set_riskTolerance v (p : UserPreferences) :=
  {| preferredChains := preferredChains p; riskTolerance := v;
     maxSlippageBps := maxSlippageBps p; defaultAction := defaultAction p;
     whitelistedProtocols := whitelistedProtocols p;
     blacklistedProtocols := blacklistedProtocols p;
     minLiquidityUsd := minLiquidityUsd p; strategyFollow := strategyFollow p;
     autoRebalance := autoRebalance p; notificationPrefs := notificationPrefs p |}.
Definition set_maxSlippageBps v (p : UserPreferences) :=
  {| preferredChains := preferredChains p; riskTolerance := riskTolerance p;
     maxSlippageBps := v; defaultAction := defaultAction p;
     whitelistedProtocols := whitelistedProtocols p;
     blacklistedProtocols := blacklistedProtocols p;
     minLiquidityUsd := minLiquidityUsd p; strategyFollow := strategyFollow p;
     autoRebalance := autoRebalance p; notificationPrefs := notificationPrefs p |}.
Definition set_defaultAction v (p : UserPreferences) :=
  {| preferredChains := preferredChains p; riskTolerance := riskTolerance p;
     maxSlippageBps := maxSlippageBps p; defaultAction := v;
     whitelistedProtocols := whitelistedProtocols p;
     blacklistedProtocols := blacklistedProtocols p;
     minLiquidityUsd := minLiquidityUsd p; strategyFollow := strategyFollow p;
     autoRebalance := autoRebalance p; notificationPrefs := notificationPrefs p |}.
Definition set_whitelistedProtocols v (p : UserPreferences) :=
  {| preferredChains := preferredChains p; riskTolerance := riskTolerance p;
     maxSlippageBps := maxSlippageBps p; defaultAction := defaultAction p;
     whitelistedProtocols := v;
     blacklistedProtocols := blacklistedProtocols p;
     minLiquidityUsd := minLiquidityUsd p; strategyFollow := strategyFollow p;
     autoRebalance := autoRebalance p; notificationPrefs := notificationPrefs p |}.
Definition set_blacklistedProtocols v (p : UserPreferences) :=
  {| preferredChains := preferredChains p; riskTolerance := riskTolerance p;
     maxSlippageBps := maxSlippageBps p; defaultAction := defaultAction p;
     whitelistedProtocols := whitelistedProtocols p;
     blacklistedProtocols := v;
     minLiquidityUsd := minLiquidityUsd p; strategyFollow := strategyFollow p;
     autoRebalance := autoRebalance p; notificationPrefs := notificationPrefs p |}.
Definition set_minLiquidityUsd v (p : UserPreferences) :=
  {| preferredChains := preferredChains p; riskTolerance := riskTolerance p;
     maxSlippageBps := maxSlippageBps p; defaultAction := defaultAction p;
     whitelistedProtocols := whitelistedProtocols p;
     blacklistedProtocols := blacklistedProtocols p;
     minLiquidityUsd := v; strategyFollow := strategyFollow p;
     autoRebalance := autoRebalance p; notificationPrefs := notificationPrefs p |}.
Definition set_strategyFollow v (p : UserPreferences) :=
  {| preferredChains := preferredChains p; riskTolerance := riskTolerance p;
     maxSlippageBps := maxSlippageBps p; defaultAction := defaultAction p;
     whitelistedProtocols := whitelistedProtocols p;
     blacklistedProtocols := blacklistedProtocols p;
     minLiquidityUsd := minLiquidityUsd p; strategyFollow := v;
     autoRebalance := autoRebalance p; notificationPrefs := notificationPrefs p |}.
Definition set_autoRebalance v (p : UserPreferences) :=
  {| preferredChains := preferredChains p; riskTolerance := riskTolerance p;
     maxSlippageBps := maxSlippageBps p; defaultAction := defaultAction p;
     whitelistedProtocols := whitelistedProtocols p;
     blacklistedProtocols := blacklistedProtocols p;
     minLiquidityUsd := minLiquidityUsd p; strategyFollow := strategyFollow p;
     autoRebalance := v; notificationPrefs := notificationPrefs p |}.
Definition set_notificationPrefs v (p : UserPreferences) :=
  {| preferredChains := preferredChains p; riskTolerance := riskTolerance p;
     maxSlippageBps := maxSlippageBps p; defaultAction := defaultAction p;
     whitelistedProtocols := whitelistedProtocols p;
     blacklistedProtocols := blacklistedProtocols p;
     minLiquidityUsd := minLiquidityUsd p; strategyFollow := strategyFollow p;
     autoRebalance := autoRebalance p; notificationPrefs := v |}.

(** [['conservative', 'moderate', 'aggressive'].includes(risk)] *)
Definition risk_of_string (s : string) : option RiskTolerance :=
  if decide (s = "conservative") then Some conservative
  else if decide (s = "moderate") then Some moderate
  else if decide (s = "aggressive") then Some aggressive
  else None.

(** [['deposit', 'bridge', 'swap'].includes(action)] *)
Definition action_of_string (s : string) : option DefaultAction :=
  if decide (s = "deposit") then Some deposit
  else if decide (s = "bridge") then Some bridge
  else if decide (s = "swap") then Some swap
  else None.

(** [records[key]] as the guards [if (records[key])] see it: an absent key
    and an empty string are both falsy. *)
Definition field (records : gmap string string) (key : string) : option string :=
  truthy_str (records !! key).

Section Parsing.

(** [JSON.parse]; [None] when it throws. *)
Variable JSON_parse : string -> option json.

(** ** [parsePreferences]

    The source starts from a copy of the defaults and runs ten guarded
    blocks, each assigning to [prefs]; every block is a function from the
    preferences before it to the preferences after it. *)

(* Parse preferred chains *)
Definition parse_preferredChains (records : gmap string string)
    (prefs : UserPreferences) : UserPreferences :=
  match field records K_preferredChains with
  | Some s =>
      match JSON_parse s with
      | Some (JArr chains) =>
          match mapM toLowerCase_any chains with
          | Some cs => set_preferredChains cs prefs
          | None => prefs            (* TypeError, caught by the same catch *)
          end
      | _ => prefs
      end
  | None => prefs
  end.

(* Parse risk tolerance *)
Definition parse_riskTolerance (records : gmap string string)
    (prefs : UserPreferences) : UserPreferences :=
  match field records K_riskTolerance with
  | Some s =>
      match risk_of_string s with
      | Some risk =>
          set_whitelistedProtocols (JStr <$> RISK_TOLERANCE_MAP risk)
            (set_riskTolerance risk prefs)
      | None => prefs
      end
  | None => prefs
  end.

(* Parse max slippage *)
Definition parse_maxSlippageBps (records : gmap string string)
    (prefs : UserPreferences) : UserPreferences :=
  match field records K_maxSlippageBps with
  | Some s =>
      match parseInt10 s with
      | Some slippage =>
          if (0 <? slippage) && (slippage <=? 1000)
          then set_maxSlippageBps slippage prefs else prefs
      | None => prefs
      end
  | None => prefs
  end.

(* Parse default action *)
Definition parse_defaultAction (records : gmap string string)
    (prefs : UserPreferences) : UserPreferences :=
  match field records K_defaultAction with
  | Some s =>
      match action_of_string s with
      | Some action => set_defaultAction action prefs
      | None => prefs
      end
  | None => prefs
  end.

(* Parse whitelisted protocols *)
Definition parse_whitelistedProtocols (records : gmap string string)
    (prefs : UserPreferences) : UserPreferences :=
  match field records K_whitelistedProtocols with
  | Some s =>
      match JSON_parse s with
      | Some (JArr protocols) => set_whitelistedProtocols protocols prefs
      | _ => prefs                   (* keep defaults from risk tolerance *)
      end
  | None => prefs
  end.

(* Parse blacklisted protocols *)
Definition parse_blacklistedProtocols (records : gmap string string)
    (prefs : UserPreferences) : UserPreferences :=
  match field records K_blacklistedProtocols with
  | Some s =>
      match JSON_parse s with
      | Some (JArr protocols) => set_blacklistedProtocols protocols prefs
      | _ => prefs
      end
  | None => prefs
  end.

(* Parse min liquidity *)
Definition parse_minLiquidityUsd (records : gmap string string)
    (prefs : UserPreferences) : UserPreferences :=
  match field records K_minLiquidityUsd with
  | Some s =>
      match parseInt10 s with
      | Some liquidity =>
          if 0 <=? liquidity then set_minLiquidityUsd liquidity prefs else prefs
      | None => prefs
      end
  | None => prefs
  end.

(* Parse strategy follow *)
Definition parse_strategyFollow (records : gmap string string)
    (prefs : UserPreferences) : UserPreferences :=
  match field records K_strategyFollow with
  | Some s => set_strategyFollow (Some s) prefs
  | None => prefs
  end.

(* Parse auto rebalance *)
Definition parse_autoRebalance (records : gmap string string)
    (prefs : UserPreferences) : UserPreferences :=
  match field records K_autoRebalance with
  | Some s => set_autoRebalance (bool_decide (s = "true")) prefs
  | None => prefs
  end.

(* Parse notification preferences *)
Definition parse_notificationPrefs (records : gmap string string)
    (prefs : UserPreferences) : UserPreferences :=
  match field records K_notificationPrefs with
  | Some s =>
      match JSON_parse s with
      | Some notifs =>
          if typeof_object notifs then set_notificationPrefs notifs prefs
          else prefs
      | None => prefs
      end
  | None => prefs
  end.

Definition parsePreferences (records : gmap string string) : UserPreferences :=
  let prefs := DEFAULT_PREFERENCES in
  let prefs := parse_preferredChains records prefs in
  let prefs := parse_riskTolerance records prefs in
  let prefs := parse_maxSlippageBps records prefs in
  let prefs := parse_defaultAction records prefs in
  let prefs := parse_whitelistedProtocols records prefs in
  let prefs := parse_blacklistedProtocols records prefs in
  let prefs := parse_minLiquidityUsd records prefs in
  let prefs := parse_strategyFollow records prefs in
  let prefs := parse_autoRebalance records prefs in
  let prefs := parse_notificationPrefs records prefs in
  prefs.

(** ** What each record holds, in the specification's words

    A list record holds a serialized array; a numeric record a number in
    range; an enumerated record a member of the closed set.  [None] is an
    absent or unparseable record. *)
Definition parsed_chains (records : gmap string string) : option (list string) :=
  s ← field records K_preferredChains;
  v ← JSON_parse s;
  chains ← as_array v;
  mapM toLowerCase_any chains.
Definition parsed_risk (records : gmap string string) : option RiskTolerance :=
  s ← field records K_riskTolerance;
  risk_of_string s.
Definition parsed_slippage (records : gmap string string) : option Z :=
  s ← field records K_maxSlippageBps;
  n ← parseInt10 s;
  if decide (1 <= n <= 1000) then Some n else None.
Definition parsed_action (records : gmap string string) : option DefaultAction :=
  s ← field records K_defaultAction;
  action_of_string s.
Definition parsed_whitelist (records : gmap string string) : option (list json) :=
  s ← field records K_whitelistedProtocols;
  v ← JSON_parse s;
  as_array v.
Definition parsed_blacklist (records : gmap string string) : option (list json) :=
  s ← field records K_blacklistedProtocols;
  v ← JSON_parse s;
  as_array v.
Definition parsed_liquidity (records : gmap string string) : option Z :=
  s ← field records K_minLiquidityUsd;
  n ← parseInt10 s;
  if decide (0 <= n) then Some n else None.
Definition parsed_notifications (records : gmap string string) : option json :=
  s ← field records K_notificationPrefs;
  v ← JSON_parse s;
  if typeof_object v then Some v else None.

End Parsing.

(** ** The naming lookup collaborator ([sepoliaClient]) *)

Record NamingClient : Type := {
  getEnsAddress : string -> outcome (option string);
  getEnsText : string -> string -> outcome (option string);
  getEnsAvatar : string -> outcome (option string);
}.

Section Profile.

Variable JSON_parse : string -> option json.
Variable client : NamingClient.

(** [name.toLowerCase().trim()] *)
Definition normalize (name : string) : string := trim (toLowerCase name).

(** [resolveName]: a failed lookup is logged and becomes [null]. *)
Definition resolveName (name : string) : option string :=
  match getEnsAddress client (normalize name) with
  | Ret address => address
  | Throw _ => None
  end.

(** [getTextRecord]: likewise. *)
Definition getTextRecord (name key : string) : option string :=
  match getEnsText client (normalize name) key with
  | Ret record => record
  | Throw _ => None
  end.

(** [getAllTextRecords]: one lookup per recognised key, keeping the truthy
    values. *)
Definition getAllTextRecords (name : string) : gmap string string :=
  foldl (fun records key =>
           match truthy_str (getTextRecord name key) with
           | Some value => <[key := value]> records
           | None => records
           end)
        ∅ ENS_RECORD_KEYS.

(** [getProfile].  The avatar lookup is not guarded: when it rejects, so
    does [getProfile]. *)
Definition getProfile (name : string) : outcome (option ENSProfile) :=
  let normalizedName := normalize name in
  match truthy_str (resolveName normalizedName) with
  | None => Ret None
  | Some address =>
      let records := getAllTextRecords normalizedName in
      let '(isFollowingStrategy, followedStrategyOwner, preferences) :=
        match field records K_strategyFollow with
        | Some owner =>
            let followedRecords := getAllTextRecords owner in
            (true, Some owner, parsePreferences JSON_parse followedRecords)
        | None => (false, None, parsePreferences JSON_parse records)
        end in
      match getEnsAvatar client normalizedName with
      | Throw e => Throw e
      | Ret avatar =>
          Ret (Some {| name := normalizedName;
                       address := address;
                       avatar := truthy_str avatar;
                       preferences := preferences;
                       isFollowingStrategy := isFollowingStrategy;
                       followedStrategyOwner := followedStrategyOwner |})
      end
  end.

End Profile.

(** ** [serializePreferences] *)

Definition risk_to_string (r : RiskTolerance) : string :=
  match r with
  | conservative => "conservative"
  | moderate => "moderate"
  | aggressive => "aggressive"
  end.

Definition action_to_string (a : DefaultAction) : string :=
  match a with
  | deposit => "deposit"
  | bridge => "bridge"
  | swap => "swap"
  end.

Section Serializing.

(** [JSON.stringify] *)
Variable JSON_stringify : json -> string.

(** The ten records, in the order of the object literal.  [toString] of an
    integer is its decimal writing (for the integers a double holds exactly,
    below 2^53). *)
Definition serializePreferences (prefs : UserPreferences)
  : list (string * string) :=
  [ (K_preferredChains, JSON_stringify (JArr (JStr <$> preferredChains prefs)));
    (K_riskTolerance, risk_to_string (riskTolerance prefs));
    (K_maxSlippageBps, pretty (maxSlippageBps prefs));
    (K_defaultAction, action_to_string (defaultAction prefs));
    (K_whitelistedProtocols, JSON_stringify (JArr (whitelistedProtocols prefs)));
    (K_blacklistedProtocols, JSON_stringify (JArr (blacklistedProtocols prefs)));
    (K_minLiquidityUsd, pretty (minLiquidityUsd prefs));
    (K_strategyFollow, default "" (truthy_str (strategyFollow prefs)));
    (K_autoRebalance, if autoRebalance prefs then "true" else "false");
    (K_notificationPrefs, JSON_stringify (notificationPrefs prefs)) ].

(** The serialized records as the text records of a handle. *)
Definition recordsOf (prefs : UserPreferences) : gmap string string :=
  list_to_map (serializePreferences prefs).

End Serializing.

(** ** Transactions that write the records *)

(** The registry lookup, viem's [namehash] and [encodeFunctionData]. *)
Record Encoder : Type := {
  readResolver : string -> outcome string;     (* by node *)
  namehash : string -> outcome string;
  encodeSetText : string -> string -> string -> outcome string;
}.

Record SetTextTx : Type := {
  resolverAddress : string;
  txData : string;
}.

Section Transactions.

Variable enc : Encoder.

(** [getResolver]: the zero address and a failed read are [null]. *)
Definition getResolver (name : string) : option string :=
  match namehash enc (trim (toLowerCase name)) with
  | Throw _ => None
  | Ret node =>
      match readResolver enc node with
      | Throw _ => None
      | Ret resolver =>
          if decide (resolver = "0x0000000000000000000000000000000000000000")
          then None else Some resolver
      end
  end.

(** [buildSetTextTransaction]: [null] when anything throws. *)
Definition buildSetTextTransaction (name key value : string) : option SetTextTx :=
  match namehash enc (trim (toLowerCase name)) with
  | Throw _ => None
  | Ret node =>
      match truthy_str (getResolver name) with
      | None => None
      | Some resolver =>
          match encodeSetText enc node key value with
          | Throw _ => None
          | Ret d => Some {| resolverAddress := resolver; txData := d |}
          end
      end
  end.

(** [buildUpdatePreferencesTransactions]: one transaction per record for
    which one could be built. *)
Definition buildUpdatePreferencesTransactions
    (JSON_stringify : json -> string) (name : string) (prefs : UserPreferences)
  : list SetTextTx :=
  omap (fun kv => buildSetTextTransaction name kv.1 kv.2)
       (serializePreferences JSON_stringify prefs).

End Transactions.

(** ** Callers: [isValidEnsName] and the [useENS] hook *)

Definition validTlds : list string := [".eth"; ".xyz"; ".luxe"; ".kred"; ".art"].

(** [isValidEnsName] ([src/lib/utils.ts]) *)
Definition isValidEnsName (name : string) : bool :=
  existsb (endsWith (toLowerCase name)) validTlds.

(** The three state cells [resolveName] writes. *)
Record ResolverState : Type := {
  rs_profile : option ENSProfile;
  rs_isLoading : bool;
  rs_error : option string;
}.

(** [useENS().resolveName]: the returned profile and the cells afterwards
    (the [finally] block has run). *)
Definition hookResolveName (JSON_parse : string -> option json)
    (client : NamingClient) (name : string) (s : ResolverState)
  : option ENSProfile * ResolverState :=
  if negb (bool_decide (name <> "")) || negb (isValidEnsName name) then
    (None, {| rs_profile := rs_profile s; rs_isLoading := rs_isLoading s;
              rs_error := Some "Invalid ENS name" |})
  else
    match getProfile JSON_parse client name with
    | Ret (Some resolvedProfile) =>
        (Some resolvedProfile,
         {| rs_profile := Some resolvedProfile; rs_isLoading := false;
            rs_error := None |})
    | Ret None =>
        (None,
         {| rs_profile := None; rs_isLoading := false;
            rs_error := Some ("ENS name " +:+ quoted name
                              +:+ " not found on Sepolia testnet") |})
    | Throw e =>
        (None,
         {| rs_profile := None; rs_isLoading := false;
            rs_error := Some (message_or "Failed to resolve ENS" e) |})
    end.

End Ens.

(* ===================================================================== *)
(** * Yield aggregator: [src/services/yieldService.ts] *)
(* ===================================================================== *)

(** The file holds two revisions of the service; the one modelled is the
    second, with the DefiLlama and Yearn adapters, which is the one
    [src/types/index.ts] configures.  Icons and the withdrawal descriptors of
    an opportunity are display data and are left out of the record. *)

Module Yield.
Import Js.

Inductive RiskLevel : Type := low | medium | high.

#[global] Instance RiskLevel_eq_dec : EqDecision RiskLevel.
Proof. solve_decision. Defined.

Record YieldOpportunity : Type := {
  oid : string;                          (* [id] *)
  protocol : string;
  protocolSlug : string;
  chainId : Z;
  chainName : option string;
  token : string;
  tokenAddress : string;
  vaultAddress : string;
  apy : Q;
  tvlUsd : Q;
  riskLevel : RiskLevel;
  depositFunction : string;
  depositParams : list (string * string);
  vaultName : string;
}.

Record YieldQueryParams : Type := {
  q_chainId : option Z;
  q_token : option string;
  minApy : option Q;
  maxApy : option Q;
  minTvlUsd : option Q;
  q_riskTolerance : option Ens.RiskTolerance;
  whitelistedProtocols : option (list string);
  blacklistedProtocols : option (list string);
  limit : option Z;
}.

Record YieldSourceConfig : Type := {
  src_name : string;
  enabled : bool;
  weight : Q;
  chains : list Z;
  baseUrl : option string;
}.

Definition SUPPORTED_YIELD_SOURCES : list YieldSourceConfig :=
  [ {| src_name := "defillama"; enabled := true; weight := (6 # 10)%Q;
       chains := [1; 10; 137; 42161; 8453; 81457];
       baseUrl := Some "https://yields.llama.fi" |};
    {| src_name := "yearn"; enabled := true; weight := (4 # 10)%Q;
       chains := [1; 10; 137; 42161; 8453];
       baseUrl := Some "https://api.yearn.fi/v1/chains" |} ].

(** [Object.entries(CHAIN_ID_TO_NAME)]: integer keys enumerate in ascending
    order. *)
Definition CHAIN_ID_TO_NAME : list (Z * string) :=
  [ (1, "ethereum"); (10, "optimism"); (137, "polygon"); (8453, "base");
    (42161, "arbitrum"); (59144, "linea"); (81457, "blast");
    (534352, "scroll") ].

Definition chain_name (cid : Z) : option string :=
  snd <$> List.find (fun e => bool_decide (fst e = cid)) CHAIN_ID_TO_NAME.

(** [PROTOCOL_METADATA], as a table of its own keys: display name and risk
    level. *)
Definition PROTOCOL_METADATA (slug : string) : option (string * RiskLevel) :=
  if decide (slug = "aave-v3") then Some ("Aave V3", low)
  else if decide (slug = "compound-v3") then Some ("Compound V3", low)
  else if decide (slug = "morpho") then Some ("Morpho", low)
  else if decide (slug = "spark") then Some ("Spark", low)
  else if decide (slug = "yearn-v3") then Some ("Yearn V3", medium)
  else if decide (slug = "pendle") then Some ("Pendle", high)
  else if decide (slug = "silo") then Some ("Silo", high)
  else None.

Definition ZERO_ADDRESS := "0x0000000000000000000000000000000000000000".

(** ** What the providers send *)

(** A pool of DefiLlama's [/pools] answer.  [pool.apy] is a number ([null]
    divides to 0 and is read as 0). *)
Record LlamaPool : Type := {
  project : option string;
  chain : option string;
  symbol : string;
  pool : string;
  pool_apy : Q;                          (* a percentage *)
  pool_tvlUsd : option Q;
  underlyingTokens : list string;
  poolMeta : option string;
}.

(** A vault of Yearn's [/vaults/all] answer. *)
Record YearnVault : Type := {
  v_type : string;
  v_kind : string;
  v_address : string;
  v_symbol : string;
  v_name : string;
  v_token_address : option string;
  v_net_apy : option Q;                  (* [vault.apy?.net_apy] *)
  v_tvl : option Q;                      (* [vault.tvl?.tvl] *)
}.

(** An HTTP response: [ok], [status] and the result of [response.json()]. *)
Record Response (A : Type) : Type := {
  ok : bool;
  status : Z;
  body : outcome A;
}.
Arguments ok {A} _.
Arguments status {A} _.
Arguments body {A} _.

(** The network, as the service sees it during one [fetchAllYields]:
    the answer to each request (the DefiLlama one may differ from one retry
    to the next), and the time the whole fetch phase takes. *)
Record Net : Type := {
  fetch_llama : nat -> string -> outcome (Response (option (list LlamaPool)));
  fetch_yearn : string -> outcome (Response (list YearnVault));
  elapsed : Z;
}.

(** ** The service object *)

Record CacheEntry : Type := {
  data : list YieldOpportunity;
  timestamp : Z;
}.

Record YieldService : Type := {
  sources : list YieldSourceConfig;
  cache : gmap string CacheEntry;
}.

Definition CACHE_TTL : Z := 5 * 60 * 1000.

(** [constructor] *)
Definition new_service : YieldService :=
  {| sources := List.filter enabled SUPPORTED_YIELD_SOURCES; cache := ∅ |}.

Definition find_source (svc : YieldService) (n : string) : option YieldSourceConfig :=
  List.find (fun s => bool_decide (src_name s = n)) (sources svc).

Definition url_base (s : YieldSourceConfig) : string :=
  default "undefined" (baseUrl s).

(** [x || 0] on an optional number. *)
Definition or_zero (x : option Q) : Q := default 0%Q x.

(** ** [withRetry] ([src/lib/utils.ts])

    [fn] is run for attempts [0 .. maxRetries]; the first success is
    returned, the last failure re-thrown.  Each run also yields the requests
    it issued.  The pauses between attempts are part of [elapsed]. *)
Fixpoint withRetry {A} (fn : nat -> outcome A * list string)
    (attempt remaining : nat) : outcome A * list string :=
  match fn attempt with
  | (Ret a, log) => (Ret a, log)
  | (Throw e, log) =>
      match remaining with
      | O => (Throw e, log)
      | S r =>
          let '(res, log') := withRetry fn (S attempt) r in
          (res, log ++ log')
      end
  end.

(** ** DefiLlama adapter *)

(** The body of the loop over pools: [None] for [continue]. *)
Definition llama_opportunity (source : YieldSourceConfig) (p : LlamaPool)
  : option YieldOpportunity :=
  let protocolSlug := default "" (toLowerCase <$> project p) in
  match PROTOCOL_METADATA protocolSlug with
  | None => None
  | Some (mname, mrisk) =>
      let lowered := toLowerCase <$> chain p in
      match List.find (fun e => bool_decide (Some (snd e) = lowered))
                      CHAIN_ID_TO_NAME with
      | None => None
      | Some (cid, _) =>
          if bool_decide (cid ∈ chains source) then
            Some {| oid := default "undefined" (chain p) +:+ "-" +:+
                           default "undefined" (project p) +:+ "-" +:+
                           symbol p +:+ "-" +:+ pool p;
                    protocol := mname;
                    protocolSlug := protocolSlug;
                    chainId := cid;
                    chainName := chain p;
                    token := symbol p;
                    tokenAddress :=
                      default ZERO_ADDRESS (truthy_str (head (underlyingTokens p)));
                    vaultAddress := pool p;
                    apy := (pool_apy p / 100)%Q;
                    tvlUsd := or_zero (pool_tvlUsd p);
                    riskLevel := mrisk;
                    depositFunction := "deposit";
                    depositParams := [("assets", "uint256"); ("receiver", "address")];
                    vaultName :=
                      default (symbol p +:+ " Vault") (truthy_str (poolMeta p)) |}
          else None
      end
  end.

Definition llama_attempt (net : Net) (source : YieldSourceConfig) (attempt : nat)
  : outcome (list YieldOpportunity) * list string :=
  let url := url_base source +:+ "/pools" in
  match fetch_llama net attempt url with
  | Throw e => (Throw e, [url])
  | Ret response =>
      if ok response then
        match body response with
        | Throw e => (Throw e, [url])
        | Ret d => (Ret (omap (llama_opportunity source) (default [] d)), [url])
        end
      else
        (Throw (JsError ("DefiLlama API error: " +:+ pretty (status response))),
         [url])
  end.

(** [fetchDefiLlamaYields]: [withRetry(..., { maxRetries: 2, delayMs: 1000 })]. *)
Definition fetchDefiLlamaYields (net : Net) (svc : YieldService)
  : outcome (list YieldOpportunity) * list string :=
  match find_source svc "defillama" with
  | None => (Ret [], [])
  | Some source => withRetry (llama_attempt net source) 0 2
  end.

(** ** Yearn adapter *)

Definition yearn_opportunity (cid : Z) (v : YearnVault) : option YieldOpportunity :=
  if bool_decide (v_type v = "v3") && bool_decide (v_kind v = "Vault") then
    Some {| oid := "yearn-" +:+ pretty cid +:+ "-" +:+ v_address v;
            protocol := "Yearn V3";
            protocolSlug := "yearn-v3";
            chainId := cid;
            chainName := chain_name cid;
            token := v_symbol v;
            tokenAddress := default ZERO_ADDRESS (truthy_str (v_token_address v));
            vaultAddress := v_address v;
            apy := or_zero (v_net_apy v);
            tvlUsd := or_zero (v_tvl v);
            riskLevel := medium;
            depositFunction := "deposit";
            depositParams := [("assets", "uint256"); ("receiver", "address")];
            vaultName := v_name v |}
  else None.

(** One iteration of the loop over the source's chains: a failed request or
    a response that is not [ok] contributes nothing. *)
Definition yearn_chain (net : Net) (source : YieldSourceConfig) (cid : Z)
  : list YieldOpportunity * list string :=
  let url := url_base source +:+ "/" +:+ pretty cid +:+ "/vaults/all" in
  match fetch_yearn net url with
  | Throw _ => ([], [url])
  | Ret response =>
      if ok response then
        match body response with
        | Throw _ => ([], [url])
        | Ret vaults => (omap (yearn_opportunity cid) vaults, [url])
        end
      else ([], [url])
  end.

(** [fetchYearnYields]: never rejects. *)
Definition fetchYearnYields (net : Net) (svc : YieldService)
  : list YieldOpportunity * list string :=
  match find_source svc "yearn" with
  | None => ([], [])
  | Some source =>
      foldl (fun acc cid =>
               let '(ys, log) := yearn_chain net source cid in
               (acc.1 ++ ys, acc.2 ++ log))
            ([], []) (chains source)
  end.

(** ** [Array.prototype.sort]

    The sort is stable, and with a comparator that is a total preorder a
    stable sort has one possible result, which insertion computes. [x] goes
    in front of the first [y] with [cmp x y <= 0]. *)
Fixpoint insert_by {A} (cmp : A -> A -> Q) (x : A) (l : list A) : list A :=
  match l with
  | [] => [x]
  | y :: t => if Qle_bool (cmp x y) 0 then x :: y :: t
              else y :: insert_by cmp x t
  end.

Definition sort_by {A} (cmp : A -> A -> Q) (l : list A) : list A :=
  foldr (insert_by cmp) [] l.

(** [(a, b) => b.apy - a.apy] *)
Definition by_apy_desc (a b : YieldOpportunity) : Q := (apy b - apy a)%Q.

(** ** [fetchAllYields]

    [now] is what [Date.now()] returns when the call starts; the entry is
    written with the time at the end of the fetch phase.  The result is the
    returned list (or the rejection), the service afterwards, and the
    requests issued. *)
Definition cacheKey := "all-yields".

Definition fetchAllYields (net : Net) (now : Z) (svc : YieldService)
  : outcome (list YieldOpportunity) * YieldService * list string :=
  let miss :=
    let '(llama, log1) := fetchDefiLlamaYields net svc in
    let '(yearnYields, log2) := fetchYearnYields net svc in
    match llama with
    | Throw e => (Throw e, svc, log1 ++ log2)
    | Ret defiLlamaYields =>
        let allYields := sort_by by_apy_desc (defiLlamaYields ++ yearnYields) in
        (Ret allYields,
         {| sources := sources svc;
            cache := <[cacheKey := {| data := allYields;
                                      timestamp := now + elapsed net |}]>
                       (cache svc) |},
         log1 ++ log2)
    end in
  match cache svc !! cacheKey with
  | Some cached =>
      if now - timestamp cached <? CACHE_TTL then (Ret (data cached), svc, [])
      else miss
  | None => miss
  end.

(** [clearCache] *)
Definition clearCache (svc : YieldService) : YieldService :=
  {| sources := sources svc; cache := ∅ |}.

(** ** [queryYields] *)

(** The table inside [queryYields]. *)
Definition riskLevels (t : Ens.RiskTolerance) : list RiskLevel :=
  match t with
  | Ens.conservative => [low]
  | Ens.moderate => [low; medium]
  | Ens.aggressive => [low; medium; high]
  end.

(** [arr.slice(0, n)]: a negative [n] counts from the end. *)
Definition slice0 {A} (n : Z) (l : list A) : list A :=
  if 0 <=? n then take (Z.to_nat n) l
  else take (Z.to_nat (Z.of_nat (length l) + n)) l.

(** A guarded filter [if (guard) yields = yields.filter(p)]. *)
Definition filter_if {A} (guard : option (A -> bool)) (l : list A) : list A :=
  match guard with
  | Some p => List.filter p l
  | None => l
  end.

Definition nonzero (n : option Z) : option Z :=
  n ≫= fun v => if decide (v = 0) then None else Some v.

Definition nonempty {A} (l : option (list A)) : option (list A) :=
  l ≫= fun v => match v with [] => None | _ => Some v end.

(** The predicates of the successive filters. *)
Definition on_chain (c : Z) (y : YieldOpportunity) : bool :=
  bool_decide (chainId y = c).
Definition has_token (t : string) (y : YieldOpportunity) : bool :=
  bool_decide (toUpperCase (token y) = toUpperCase t).
Definition apy_at_least (m : Q) (y : YieldOpportunity) : bool :=
  Qle_bool m (apy y).
Definition apy_at_most (m : Q) (y : YieldOpportunity) : bool :=
  Qle_bool (apy y) m.
Definition tvl_at_least (m : Q) (y : YieldOpportunity) : bool :=
  Qle_bool m (tvlUsd y).
Definition risk_allowed (t : Ens.RiskTolerance) (y : YieldOpportunity) : bool :=
  bool_decide (riskLevel y ∈ riskLevels t).
Definition whitelisted (wl : list string) (y : YieldOpportunity) : bool :=
  bool_decide (protocolSlug y ∈ toLowerCase <$> wl).
Definition not_blacklisted (bl : list string) (y : YieldOpportunity) : bool :=
  negb (bool_decide (protocolSlug y ∈ toLowerCase <$> bl)).

(** The filters of [queryYields], in source order, on a fetched superset. *)
Definition applyFilters (params : YieldQueryParams) (yields : list YieldOpportunity)
  : list YieldOpportunity :=
  let yields := filter_if (on_chain <$> nonzero (q_chainId params)) yields in
  let yields := filter_if (has_token <$> truthy_str (q_token params)) yields in
  let yields := filter_if (apy_at_least <$> minApy params) yields in
  let yields := filter_if (apy_at_most <$> maxApy params) yields in
  let yields := filter_if (tvl_at_least <$> minTvlUsd params) yields in
  let yields := filter_if (risk_allowed <$> q_riskTolerance params) yields in
  let yields :=
    filter_if (whitelisted <$> nonempty (whitelistedProtocols params)) yields in
  let yields :=
    filter_if (not_blacklisted <$> nonempty (blacklistedProtocols params)) yields in
  let yields :=
    match nonzero (limit params) with
    | Some n => slice0 n yields
    | None => yields
    end in
  yields.

Definition queryYields (net : Net) (now : Z) (params : YieldQueryParams)
    (svc : YieldService)
  : outcome (list YieldOpportunity) * YieldService * list string :=
  match fetchAllYields net now svc with
  | (Ret yields, svc', log) => (Ret (applyFilters params yields), svc', log)
  | (Throw e, svc', log) => (Throw e, svc', log)
  end.

(** [getBestYield] *)
Definition getBestYield (net : Net) (now : Z) (chainId : Z) (token : string)
    (riskTolerance : option Ens.RiskTolerance) (minTvlUsd : option Q)
    (svc : YieldService)
  : outcome (option YieldOpportunity) * YieldService * list string :=
  match queryYields net now
          {| q_chainId := Some chainId; q_token := Some token;
             minApy := None; maxApy := None; minTvlUsd := minTvlUsd;
             q_riskTolerance := riskTolerance;
             whitelistedProtocols := None; blacklistedProtocols := None;
             limit := Some 1 |} svc with
  | (Ret yields, svc', log) => (Ret (head yields), svc', log)
  | (Throw e, svc', log) => (Throw e, svc', log)
  end.

(** ** Reachable services

    The cache is private: a service is a fresh one, or the result of a
    public method on a service. *)
Inductive reachable : YieldService -> Prop :=
  | reach_new : reachable new_service
  | reach_fetch net now svc :
      reachable svc -> reachable (fetchAllYields net now svc).1.2
  | reach_clear svc :
      reachable svc -> reachable (clearCache svc).

(** ** Notions used to state the properties *)

(** [a] may stand before [b] in a list sorted by APY, highest first. *)
Definition apy_desc (a b : YieldOpportunity) : Prop := (apy b <= apy a)%Q.

(** The slug of an opportunity is a key of [PROTOCOL_METADATA]. *)
Definition known_slug (y : YieldOpportunity) : Prop :=
  is_Some (PROTOCOL_METADATA (protocolSlug y)).

(** What every cache entry satisfies: it sits under the fixed key, and its
    list is sorted and made of opportunities with known slugs. *)
Definition cache_ok (svc : YieldService) : Prop :=
  ∀ key entry, cache svc !! key = Some entry ->
    key = cacheKey
    ∧ StronglySorted apy_desc (data entry)
    ∧ Forall known_slug (data entry).

(** The cache is bypassed: no entry, or an entry as old as the TTL. *)
Definition stale (now : Z) (svc : YieldService) : Prop :=
  match cache svc !! cacheKey with
  | Some cached => CACHE_TTL <= now - timestamp cached
  | None => True
  end.

(** An absent guard lets everything through. *)
Definition guard {A} (g : option (A -> bool)) (y : A) : bool :=
  match g with
  | Some p => p y
  | None => true
  end.

(** All filters of a query at once. *)
Definition passes (params : YieldQueryParams) (y : YieldOpportunity) : bool :=
  guard (on_chain <$> nonzero (q_chainId params)) y
  && guard (has_token <$> truthy_str (q_token params)) y
  && guard (apy_at_least <$> minApy params) y
  && guard (apy_at_most <$> maxApy params) y
  && guard (tvl_at_least <$> minTvlUsd params) y
  && guard (risk_allowed <$> q_riskTolerance params) y
  && guard (whitelisted <$> nonempty (whitelistedProtocols params)) y
  && guard (not_blacklisted <$> nonempty (blacklistedProtocols params)) y.

(** The last step of a query: the result-count limit. *)
Definition limited (params : YieldQueryParams) (l : list YieldOpportunity)
  : list YieldOpportunity :=
  match nonzero (limit params) with
  | Some n => slice0 n l
  | None => l
  end.


(** ** Further notions *)

(** The display name and the risk level of an opportunity are the ones
    [PROTOCOL_METADATA] gives for its slug. *)
Definition risk_consistent (y : YieldOpportunity) : Prop :=
  PROTOCOL_METADATA (protocolSlug y) = Some (protocol y, riskLevel y).

(** The chain of an opportunity is in the chain list of a configured
    source. *)
Definition covered_chain (cid : Z) : Prop :=
  ∃ s, s ∈ SUPPORTED_YIELD_SOURCES ∧ cid ∈ chains s.

(** Both at once. *)
Definition sound (y : YieldOpportunity) : Prop :=
  risk_consistent y ∧ covered_chain (chainId y).

(** The parameters [getBestYield] queries with. *)
Definition bestYieldParams (chainId : Z) (token : string)
    (riskTolerance : option Ens.RiskTolerance) (minTvlUsd : option Q)
  : YieldQueryParams :=
  {| q_chainId := Some chainId; q_token := Some token;
     minApy := None; maxApy := None; minTvlUsd := minTvlUsd;
     q_riskTolerance := riskTolerance;
     whitelistedProtocols := None; blacklistedProtocols := None;
     limit := Some 1 |}.

(** The same query with another limit. *)
Definition with_limit (n : option Z) (params : YieldQueryParams)
  : YieldQueryParams :=
  {| q_chainId := q_chainId params; q_token := q_token params;
     minApy := minApy params; maxApy := maxApy params;
     minTvlUsd := minTvlUsd params; q_riskTolerance := q_riskTolerance params;
     whitelistedProtocols := whitelistedProtocols params;
     blacklistedProtocols := blacklistedProtocols params;
     limit := n |}.

(** What the Yearn adapter lists for a vault of chain [cid], field by
    field ([src/services/yieldService.ts], the object pushed in the loop
    over the vaults). *)
Definition yearn_listing (cid : Z) (v : YearnVault) (y : YieldOpportunity)
  : Prop :=
  oid y = "yearn-" +:+ pretty cid +:+ "-" +:+ v_address v
  ∧ protocol y = "Yearn V3"
  ∧ protocolSlug y = "yearn-v3"
  ∧ chainId y = cid
  ∧ chainName y = chain_name cid
  ∧ token y = v_symbol v
  ∧ tokenAddress y = match v_token_address v with
                     | Some a => if decide (a = "") then ZERO_ADDRESS else a
                     | None => ZERO_ADDRESS
                     end
  ∧ vaultAddress y = v_address v
  ∧ apy y = default 0%Q (v_net_apy v)
  ∧ tvlUsd y = default 0%Q (v_tvl v)
  ∧ riskLevel y = medium
  ∧ depositFunction y = "deposit"
  ∧ depositParams y = [("assets", "uint256"); ("receiver", "address")]
  ∧ vaultName y = v_name v.

(** The opportunities with a given APY. *)
Definition same_apy (q : Q) (y : YieldOpportunity) : bool := Qeq_bool (apy y) q.

(** The requests of the attempts [from .. from + n], in order. *)
Fixpoint attempts_log {A} (fn : nat -> outcome A * list string)
    (from n : nat) : list string :=
  match n with
  | O => (fn from).2
  | S n' => (fn from).2 ++ attempts_log fn (S from) n'
  end.

End Yield.

(* ===================================================================== *)
(** * Route quoter, composer and executor: the LI.FI service *)
(* ===================================================================== *)

Module Lifi.
Import Js.

(** ** Data model *)

(** A route of the routing provider, read and passed through only. *)
Record Route : Type := {
  route_id : string;
  toAmount : string;
  gasCostUSD : option string;
  executionDurations : list (option Q);  (* one per step *)
}.

Record IntentRequest : Type := {
  fromChain : Z;
  fromToken : string;
  fromAmount : string;
  toChain : Z;
  toToken : string;
  userAddress : string;
  ensName : option string;
  slippage : option Q;
}.

Record TargetVault : Type := {
  vault_address : string;
  vault_protocol : string;
  vault_depositFunction : string;
  vault_depositParams : list (string * string);
}.

Record ComposedIntent : Type := {
  request : IntentRequest;               (* [...request] *)
  targetVault : TargetVault;
  expectedApy : Q;
  totalSteps : Z;
  estimatedGasUsd : Q;
}.

Inductive StepType : Type :=
  | step_bridge | step_swap | step_approve | step_deposit | step_withdraw.
Inductive StepStatus : Type :=
  | step_pending | step_in_progress | step_completed | step_failed.

Record ExecutionStep : Type := {
  es_type : StepType;
  es_status : StepStatus;
  es_chainId : Z;
  es_txHash : option string;
  es_explorerUrl : option string;
  es_message : string;
  es_timestamp : Z;
}.

(** [IntentExecution['status']] *)
Inductive ExecStatus : Type :=
  | exec_pending | exec_executing | exec_completed | exec_failed.

Record IntentExecution : Type := {
  exec_id : string;
  intent : ComposedIntent;
  exec_route : Route;
  steps : list ExecutionStep;
  status : ExecStatus;
  exec_error : option string;
  createdAt : Z;
  updatedAt : Z;
}.

(** [ExecutionStatus], what an [onUpdate] callback receives. *)
Inductive UpdateStatus : Type := upd_pending | upd_loading | upd_success | upd_error.
Record ExecutionStatus : Type := {
  upd_status : UpdateStatus;
  upd_txHash : option string;
  upd_err : option string;
  upd_message : string;
}.

(** The request sent to the routing service. *)
Record RoutesRequest : Type := {
  fromChainId : Z;
  toChainId : Z;
  fromTokenAddress : string;
  toTokenAddress : string;
  rq_fromAmount : string;
  fromAddress : string;
  toAddress : string;
  opt_slippage : Q;
  opt_order : string;
  opt_allowSwitchChain : bool;
}.

(** ** The static token table *)

Definition mainnet_id : Z := 1.
Definition arbitrum_id : Z := 42161.
Definition base_id : Z := 8453.
Definition optimism_id : Z := 10.

Definition TOKEN_ADDRESSES : gmap Z (gmap string string) :=
  list_to_map
    [ (mainnet_id, list_to_map
        [ ("USDC", "0xA0b86991c6218b36c1d19D4a2e9Eb0cE3606eB48");
          ("USDT", "0xdAC17F958D2ee523a2206206994597C13D831ec7");
          ("DAI", "0x6B175474E89094C44Da98b954EedeAC495271d0F");
          ("WETH", "0xC02aaA39b223FE8D0A0e5C4F27eAD9083C756Cc2");
          ("WBTC", "0x2260FAC5E5542a773Aa44fBCfeDf7C193bc2C599") ]);
      (arbitrum_id, list_to_map
        [ ("USDC", "0xaf88d065e77c8cC2239327C5EDb3A432268e5831");
          ("USDT", "0xFd086bC7CD5C481DCC9C85ebE478A1C0b69FCbb9");
          ("DAI", "0xDA10009cBd5D07dd0CeCc66161FC93D7c9000da1");
          ("WETH", "0x82aF49447D8a07e3bd95BD0d56f35241523fBab1") ]);
      (base_id, list_to_map
        [ ("USDC", "0x833589fCD6eDb6E08f4c7C32D4f71b54bdA02913");
          ("USDT", "0xfde4C96c8593536E31F229EA8f37b2ADa2699bb2");
          ("DAI", "0x50c5725949A6F0c72E6C4a641F24049A917DB0Cb");
          ("WETH", "0x4200000000000000000000000000000000000006") ]);
      (optimism_id, list_to_map
        [ ("USDC", "0x0b2C639c533813f4Aa9D7837CAf62653d097Ff85");
          ("USDT", "0x94b008aA00579c1307B0EF2c499aD98a8ce58e58");
          ("DAI", "0xDA10009cBd5D07dd0CeCc66161FC93D7c9000da1");
          ("WETH", "0x4200000000000000000000000000000000000006") ]) ].

(** [TOKEN_ADDRESSES[chain]?.[symbol.toUpperCase()]]: the entry of a symbol
    on a chain. *)
Definition table_entry (chain : Z) (symbol : string) : option string :=
  TOKEN_ADDRESSES !! chain ≫= fun tokens => tokens !! toUpperCase symbol.

(** The entry as the guard [!address] sees it. *)
Definition tokenAddress (chain : Z) (symbol : string) : option string :=
  truthy_str (table_entry chain symbol).

(** ** The collaborators *)

(** viem's [parseUnits] and the two calls of the LI.FI SDK that reach the
    routing service.  [getRoutes] answers with [response.routes]. *)
Record Sdk : Type := {
  parseUnits : string -> Z -> outcome Z;
  getRoutes : RoutesRequest -> outcome (option (list Route));
  executeRoute : Route -> outcome Route;
}.

(** The calls made to the routing service. *)
Inductive SdkCall : Type :=
  | CallGetRoutes (params : RoutesRequest)
  | CallExecuteRoute (route : Route).

Section Service.

Variable sdk : Sdk.

(** [x || 0.01] *)
Definition slippage_or_default (x : option Q) : Q :=
  match x with
  | Some q => if Qeq_bool q 0 then (1 # 100)%Q else q
  | None => (1 # 100)%Q
  end.

(** ** [getBestRoute]

    Everything sits in one [try] whose [catch] logs and re-throws, so the
    outcome is the one of the body. *)
Definition getBestRoute (rq : IntentRequest)
  : outcome (option Route) * list SdkCall :=
  match tokenAddress (fromChain rq) (fromToken rq),
        tokenAddress (toChain rq) (toToken rq) with
  | Some fromTokenAddress, Some toTokenAddress =>
      match parseUnits sdk (fromAmount rq) 6 with
      | Throw e => (Throw e, [])
      | Ret amountInWei =>
          let params :=
            {| fromChainId := fromChain rq;
               toChainId := toChain rq;
               fromTokenAddress := fromTokenAddress;
               toTokenAddress := toTokenAddress;
               rq_fromAmount := pretty amountInWei;
               fromAddress := userAddress rq;
               toAddress := userAddress rq;
               opt_slippage := (slippage_or_default (slippage rq) * 100)%Q;
               opt_order := "RECOMMENDED";
               opt_allowSwitchChain := true |} in
          match getRoutes sdk params with
          | Throw e => (Throw e, [CallGetRoutes params])
          | Ret routes =>
              (Ret (routes ≫= head), [CallGetRoutes params])
          end
      end
  | _, _ =>
      (Throw (JsError ("Token not supported on one of the chains: "
                       +:+ fromToken rq +:+ " -> " +:+ toToken rq)), [])
  end.

(** ** [composeIntentWithDeposit] *)
Definition composeIntentWithDeposit (rq : IntentRequest)
    (targetYield : Yield.YieldOpportunity) : ComposedIntent :=
  {| request := rq;
     targetVault :=
       {| vault_address := Yield.vaultAddress targetYield;
          vault_protocol := Yield.protocol targetYield;
          vault_depositFunction :=
            default "deposit" (truthy_str (Some (Yield.depositFunction targetYield)));
          vault_depositParams := Yield.depositParams targetYield |};
     expectedApy := Yield.apy targetYield;
     totalSteps := 2;
     estimatedGasUsd := 0%Q |}.

(** ** [executeRoute]

    Returns the outcome, the statuses an [onUpdate] callback is handed, and
    the calls made. *)
Definition executeRouteWith (route : Route)
  : outcome Route * list ExecutionStatus * list SdkCall :=
  let loading :=
    {| upd_status := upd_loading; upd_txHash := None; upd_err := None;
       upd_message := "Starting cross-chain transaction..." |} in
  match executeRoute sdk route with
  | Ret executedRoute =>
      (Ret executedRoute,
       [loading;
        {| upd_status := upd_success; upd_txHash := None; upd_err := None;
           upd_message := "Transaction completed successfully!" |}],
       [CallExecuteRoute route])
  | Throw e =>
      let errorMessage := message_or "Execution failed" e in
      (Throw e,
       [loading;
        {| upd_status := upd_error; upd_txHash := None;
           upd_err := Some errorMessage; upd_message := errorMessage |}],
       [CallExecuteRoute route])
  end.

(** ** [executeComposedIntent]

    [now] is [Date.now()] and [rid] the random identifier.  No callback is
    passed to [executeRoute], and the wallet client is not used. *)
Definition executeComposedIntent {W : Type} (now : Z) (rid : string)
    (composedIntent : ComposedIntent) (route : Route) (_walletClient : W)
  : outcome IntentExecution * list SdkCall :=
  match executeRouteWith route with
  | (Throw e, _, calls) => (Throw e, calls)
  | (Ret _, _, calls) =>
      (Ret {| exec_id := rid;
              intent := composedIntent;
              exec_route := route;
              steps := [];
              status := exec_completed;
              exec_error := None;
              createdAt := now;
              updatedAt := now |},
       calls)
  end.

End Service.

End Lifi.

(* ===================================================================== *)
(** * Execution orchestrator: [src/hooks/useIntent.ts] *)
(* ===================================================================== *)

Module Intent.
Import Js.

Inductive IntentStep : Type :=
  | input
  | fetching_route
  | finding_yield
  | composing
  | ready
  | executing
  | completed
  | failed.

#[global] Instance IntentStep_eq_dec : EqDecision IntentStep.
Proof. solve_decision. Defined.

Record IntentState : Type := {
  step : IntentStep;
  route : option Lifi.Route;
  targetYield : option Yield.YieldOpportunity;
  composedIntent : option Lifi.ComposedIntent;
  execution : option Lifi.IntentExecution;
  error : option string;
}.

Definition initialState : IntentState :=
  {| step := input; route := None; targetYield := None;
     composedIntent := None; execution := None; error := None |}.

(** What the hook does, in order: the state after each [setState], and the
    calls that reach the routing service. *)
Inductive Event : Type :=
  | Update (s : IntentState)
  | Routing (c : Lifi.SdkCall).

(** The world of a run: the React state and the events so far. *)
Record World : Type := {
  state : IntentState;
  trace : list Event;
}.

(** ** A state and exception monad for the hook's callbacks *)

Definition M (A : Type) : Type := World -> outcome A * World.

Definition ret {A} (a : A) : M A := fun w => (Ret a, w).

Definition bind {A B} (m : M A) (k : A -> M B) : M B :=
  fun w =>
    match m w with
    | (Ret a, w') => k a w'
    | (Throw e, w') => (Throw e, w')
    end.

Definition throw {A} (e : exn) : M A := fun w => (Throw e, w).

(** [try { body } catch (error) { handler(error) }] *)
Definition try_catch {A} (body : M A) (handler : exn -> M A) : M A :=
  fun w =>
    match body w with
    | (Ret a, w') => (Ret a, w')
    | (Throw e, w') => handler e w'
    end.

(** [setState((prev) => f(prev))] *)
Definition setState (f : IntentState -> IntentState) : M unit :=
  fun w =>
    let s := f (state w) in
    (Ret tt, {| state := s; trace := trace w ++ [Update s] |}).

(** An awaited service call, with the routing calls it made. *)
Definition await {A} (call : outcome A * list Lifi.SdkCall) : M A :=
  fun w =>
    (call.1, {| state := state w; trace := trace w ++ (Routing <$> call.2) |}).

(** An awaited call that does not reach the routing service. *)
Definition await_ {A} (call : outcome A) : M A := await (call, []).

(** The monad is used through stdpp's notations [x ← m; k] and [m;; k]. *)
#[global] Instance M_ret : MRet M := @ret.
#[global] Instance M_bind : MBind M := fun A B k m => bind m k.

(** The object spreads [{ ...prev, ... }] of the hook. *)
Definition with_step_error (s : IntentStep) (e : option string)
    (prev : IntentState) : IntentState :=
  {| step := s; route := route prev; targetYield := targetYield prev;
     composedIntent := composedIntent prev; execution := execution prev;
     error := e |}.
Definition with_route (r : Lifi.Route) (s : IntentStep)
    (prev : IntentState) : IntentState :=
  {| step := s; route := Some r; targetYield := targetYield prev;
     composedIntent := composedIntent prev; execution := execution prev;
     error := error prev |}.
Definition with_targetYield (y : Yield.YieldOpportunity) (s : IntentStep)
    (prev : IntentState) : IntentState :=
  {| step := s; route := route prev; targetYield := Some y;
     composedIntent := composedIntent prev; execution := execution prev;
     error := error prev |}.
Definition with_composedIntent (c : Lifi.ComposedIntent) (s : IntentStep)
    (prev : IntentState) : IntentState :=
  {| step := s; route := route prev; targetYield := targetYield prev;
     composedIntent := Some c; execution := execution prev;
     error := error prev |}.
Definition with_execution (x : Lifi.IntentExecution) (s : IntentStep)
    (prev : IntentState) : IntentState :=
  {| step := s; route := route prev; targetYield := targetYield prev;
     composedIntent := composedIntent prev; execution := Some x;
     error := error prev |}.

Section Hook.

(** The routing SDK behind [lifiService], and [yieldService.getBestYield]
    seen as the outcome of the awaited call. *)
Variable sdk : Lifi.Sdk.
Variable getBestYield :
  Z -> string -> option Ens.RiskTolerance -> option Q ->
  outcome (option Yield.YieldOpportunity).

(** [Date.now()] and the random identifier used by the executor. *)
Variable now : Z.
Variable rid : string.

(** ** [buildIntent] *)
Definition buildIntent (request : Lifi.IntentRequest)
    (preferences : Ens.UserPreferences) : M unit :=
  setState (with_step_error fetching_route None);;
  try_catch
    ( (* Step 1: Get LI.FI route for bridge/swap *)
      found ← await (Lifi.getBestRoute sdk request);
      match found with
      | None => throw (JsError "No route found for this intent")
      | Some route =>
          setState (with_route route finding_yield);;
          (* Step 2: Find best yield opportunity on destination chain *)
          best ← await_ (getBestYield (Lifi.toChain request)
                            (Lifi.toToken request)
                            (Some (Ens.riskTolerance preferences))
                            (Some (inject_Z (Ens.minLiquidityUsd preferences))));
          match best with
          | None =>
              throw (JsError "No yield opportunities found matching your criteria on the destination chain")
          | Some targetYield =>
              (* Check if protocol is blacklisted *)
              if includes_str (Ens.blacklistedProtocols preferences)
                              (Yield.protocolSlug targetYield)
              then
                throw (JsError ("The best yield opportunity is from "
                                +:+ Yield.protocol targetYield
                                +:+ ", which is in your blacklist"))
              else
                setState (with_targetYield targetYield composing);;
                (* Step 3: Compose the intent with vault deposit *)
                composed ← await_ (Ret (Lifi.composeIntentWithDeposit
                                           request targetYield));
                setState (with_composedIntent composed ready)
          end
      end )
    (fun e =>
       setState (with_step_error failed
                   (Some (message_or "Failed to build intent" e)))).

(** ** [executeIntent]

    [captured] is the state the callback closed over at the last render;
    the functional updates apply to the state current at that moment. *)
Definition executeIntent {W : Type} (captured : IntentState) (walletClient : W)
  : M unit :=
  match route captured, composedIntent captured with
  | Some r, Some ci =>
      setState (with_step_error executing None);;
      try_catch
        ( x ← await (Lifi.executeComposedIntent sdk now rid ci r walletClient);
          setState (with_execution x
                      (match Lifi.status x with
                       | Lifi.exec_completed => completed
                       | _ => failed
                       end)) )
        (fun e =>
           setState (with_step_error failed
                       (Some (message_or "Execution failed" e))))
  | _, _ =>
      setState (with_step_error failed (Some "No intent to execute"))
  end.

(** [reset] *)
Definition reset : M unit := setState (fun _ => initialState).

(** [canExecute] *)
Definition canExecute (s : IntentState) : bool :=
  bool_decide (step s = ready) && bool_decide (is_Some (composedIntent s))
  && bool_decide (is_Some (route s)).

End Hook.

(** The steps the state went through during a run. *)
Definition steps_of (t : list Event) : list IntentStep :=
  omap (fun ev => match ev with Update s => Some (step s) | Routing _ => None end) t.

(** The calls that reached the routing service during a run. *)
Definition routing_of (t : list Event) : list Lifi.SdkCall :=
  omap (fun ev => match ev with Routing c => Some c | Update _ => None end) t.

(** The answers of the two services to a build: the route quote and the
    best yield match. *)
Definition quotedRoute (sdk : Lifi.Sdk) (request : Lifi.IntentRequest)
  : outcome (option Lifi.Route) :=
  (Lifi.getBestRoute sdk request).1.
Definition bestMatch
    (getBestYield : Z -> string -> option Ens.RiskTolerance -> option Q ->
                    outcome (option Yield.YieldOpportunity))
    (request : Lifi.IntentRequest) (preferences : Ens.UserPreferences)
  : outcome (option Yield.YieldOpportunity) :=
  getBestYield (Lifi.toChain request) (Lifi.toToken request)
    (Some (Ens.riskTolerance preferences))
    (Some (inject_Z (Ens.minLiquidityUsd preferences))).

(** The record [executeComposedIntent] returns. *)
Definition executionRecord (now : Z) (rid : string)
    (ci : Lifi.ComposedIntent) (r : Lifi.Route) : Lifi.IntentExecution :=
  {| Lifi.exec_id := rid; Lifi.intent := ci; Lifi.exec_route := r;
     Lifi.steps := []; Lifi.status := Lifi.exec_completed;
     Lifi.exec_error := None; Lifi.createdAt := now; Lifi.updatedAt := now |}.

(** [isProcessing] *)
Definition isProcessing (s : IntentState) : bool :=
  bool_decide (step s ∈ [fetching_route; finding_yield; composing; executing]).

(** ** [useQuickIntent] *)

Record QuickIntentParams : Type := {
  qp_fromChain : Z;
  qp_fromToken : string;
  qp_fromAmount : string;
  qp_toChain : Z;
  qp_toToken : string;
  qp_userAddress : string;
  qp_ensName : option string;
}.

(** The three state cells of the hook. *)
Record QuickState : Type := {
  isExecuting : bool;
  quick_error : option string;
  lastExecution : option Lifi.IntentExecution;
}.

Section QuickHook.

Variable sdk : Lifi.Sdk.
Variable getBestYield :
  Z -> string -> option Ens.RiskTolerance -> option Q ->
  outcome (option Yield.YieldOpportunity).
Variable now : Z.
Variable rid : string.

(** The request [execute] builds: the slippage is
    [preferences.maxSlippageBps / 10000].  The quotient is the exact
    rational here, while the code rounds it, and its later product by 100,
    to doubles: the two agree when [maxSlippageBps] is 0, and no property
    below gives the value of the slippage in another case. *)
Definition quickRequest (params : QuickIntentParams)
    (preferences : Ens.UserPreferences) : Lifi.IntentRequest :=
  {| Lifi.fromChain := qp_fromChain params;
     Lifi.fromToken := qp_fromToken params;
     Lifi.fromAmount := qp_fromAmount params;
     Lifi.toChain := qp_toChain params;
     Lifi.toToken := qp_toToken params;
     Lifi.userAddress := qp_userAddress params;
     Lifi.ensName := qp_ensName params;
     Lifi.slippage :=
       Some (inject_Z (Ens.maxSlippageBps preferences) / 10000)%Q |}.

(** The body of the [try] of [execute]: the execution record or the thrown
    value, and the calls to the routing service. *)
Definition quickBody {W : Type} (params : QuickIntentParams)
    (preferences : Ens.UserPreferences) (walletClient : W)
  : outcome Lifi.IntentExecution * list Lifi.SdkCall :=
  let request := quickRequest params preferences in
  (* Get route *)
  match Lifi.getBestRoute sdk request with
  | (Throw e, calls) => (Throw e, calls)
  | (Ret None, calls) => (Throw (JsError "No route found"), calls)
  | (Ret (Some route), calls) =>
      (* Get best yield *)
      match getBestYield (qp_toChain params) (qp_toToken params)
              (Some (Ens.riskTolerance preferences))
              (Some (inject_Z (Ens.minLiquidityUsd preferences))) with
      | Throw e => (Throw e, calls)
      | Ret None => (Throw (JsError "No yield opportunities found"), calls)
      | Ret (Some targetYield) =>
          (* Compose and execute *)
          let composedIntent :=
            Lifi.composeIntentWithDeposit request targetYield in
          let '(res, calls') :=
            Lifi.executeComposedIntent sdk now rid composedIntent route
              walletClient in
          (res, calls ++ calls')
      end
  end.

(** [execute]: the cells after the call (the [finally] block has run), the
    outcome (the [catch] block re-throws) and the routing calls.  While the
    body runs the cells are [isExecuting = true], [error = null]. *)
Definition quickExecute {W : Type} (params : QuickIntentParams)
    (preferences : Ens.UserPreferences) (walletClient : W) (s : QuickState)
  : outcome unit * QuickState * list Lifi.SdkCall :=
  match quickBody params preferences walletClient with
  | (Ret execution, calls) =>
      (Ret tt,
       {| isExecuting := false; quick_error := None;
          lastExecution := Some execution |}, calls)
  | (Throw e, calls) =>
      (Throw e,
       {| isExecuting := false;
          quick_error := Some (message_or "Execution failed" e);
          lastExecution := lastExecution s |}, calls)
  end.

End QuickHook.

End Intent.

(* ===================================================================== *)
(** * Worked data *)
(* ===================================================================== *)

(** Concrete collaborators and inputs on which the models are run. *)
Module Sample.
Import Js.

Definition route0 : Lifi.Route :=
  {| Lifi.route_id := "r-0"; Lifi.toAmount := "990000";
     Lifi.gasCostUSD := Some "0.42";
     Lifi.executionDurations := [Some 30%Q; Some 45%Q] |}.

(** A routing service that quotes [route0] and executes any route. *)
Definition sdk_ok : Lifi.Sdk :=
  {| Lifi.parseUnits := fun _ _ => Ret 1000000;
     Lifi.getRoutes := fun _ => Ret (Some [route0]);
     Lifi.executeRoute := fun r => Ret r |}.

(** The same service, whose execution call rejects. *)
Definition sdk_reverts : Lifi.Sdk :=
  {| Lifi.parseUnits := fun _ _ => Ret 1000000;
     Lifi.getRoutes := fun _ => Ret (Some [route0]);
     Lifi.executeRoute := fun _ => Throw (JsError "user rejected the request") |}.

Definition request0 : Lifi.IntentRequest :=
  {| Lifi.fromChain := 1; Lifi.fromToken := "USDC"; Lifi.fromAmount := "1";
     Lifi.toChain := 8453; Lifi.toToken := "usdc";
     Lifi.userAddress := "0x00000000000000000000000000000000000000aa";
     Lifi.ensName := Some "bob.eth"; Lifi.slippage := Some (1 # 100)%Q |}.

(** A request for a token the table does not know on mainnet. *)
Definition request_foo : Lifi.IntentRequest :=
  {| Lifi.fromChain := 1; Lifi.fromToken := "FOO"; Lifi.fromAmount := "1";
     Lifi.toChain := 8453; Lifi.toToken := "USDC";
     Lifi.userAddress := "0x00000000000000000000000000000000000000aa";
     Lifi.ensName := None; Lifi.slippage := None |}.

Definition pendle_usdc : Yield.YieldOpportunity :=
  {| Yield.oid := "Base-pendle-USDC-0xp2"; Yield.protocol := "Pendle";
     Yield.protocolSlug := "pendle"; Yield.chainId := 8453;
     Yield.chainName := Some "Base"; Yield.token := "USDC";
     Yield.tokenAddress := Yield.ZERO_ADDRESS; Yield.vaultAddress := "0xp2";
     Yield.apy := (9 # 100)%Q; Yield.tvlUsd := 1000000%Q;
     Yield.riskLevel := Yield.high; Yield.depositFunction := "deposit";
     Yield.depositParams := [("assets", "uint256"); ("receiver", "address")];
     Yield.vaultName := "PT" |}.

(** A yield service whose best match is always [pendle_usdc]. *)
Definition best_is_pendle (_ : Z) (_ : string) (_ : option Ens.RiskTolerance)
    (_ : option Q) : outcome (option Yield.YieldOpportunity) :=
  Ret (Some pendle_usdc).

Definition prefs_no_pendle : Ens.UserPreferences :=
  Ens.set_blacklistedProtocols [JStr "pendle"] Ens.DEFAULT_PREFERENCES.

Definition composed0 : Lifi.ComposedIntent :=
  Lifi.composeIntentWithDeposit request0 pendle_usdc.

(** A state in which a build has completed. *)
Definition state_ready : Intent.IntentState :=
  {| Intent.step := Intent.ready; Intent.route := Some route0;
     Intent.targetYield := Some pendle_usdc;
     Intent.composedIntent := Some composed0;
     Intent.execution := None; Intent.error := None |}.

(** Text records of three handles: bob follows alice, alice follows carol. *)
Definition directory (name key : string) : option string :=
  if decide (name = "bob.eth") then
    if decide (key = Ens.K_strategyFollow) then Some "alice.eth"
    else if decide (key = Ens.K_riskTolerance) then Some "moderate"
    else None
  else if decide (name = "alice.eth") then
    if decide (key = Ens.K_strategyFollow) then Some "carol.eth"
    else if decide (key = Ens.K_riskTolerance) then Some "conservative"
    else if decide (key = Ens.K_maxSlippageBps) then Some "1500"
    else if decide (key = Ens.K_blacklistedProtocols)
         then Some ("[" +:+ quoted "Pendle" +:+ "]")
    else None
  else if decide (name = "carol.eth") then
    if decide (key = Ens.K_riskTolerance) then Some "aggressive"
    else if decide (key = Ens.K_maxSlippageBps) then Some "250"
    else None
  else None.

Definition naming : Ens.NamingClient :=
  {| Ens.getEnsAddress := fun n =>
       if decide (n = "bob.eth") then Ret (Some "0x00000000000000000000000000000000000000b0")
       else if decide (n = "alice.eth") then Ret (Some "0x00000000000000000000000000000000000000a1")
       else Ret None;
     Ens.getEnsText := fun n k => Ret (directory n k);
     Ens.getEnsAvatar := fun _ => Ret None |}.

(** Records with a recognised risk tolerance and a whitelist that is not
    JSON. *)
Definition records_bad_whitelist : gmap string string :=
  <[Ens.K_riskTolerance := "conservative"]>
    (<[Ens.K_whitelistedProtocols := "aave, morpho"]> ∅).

(** What the two providers answer: two known pools and one of a protocol
    outside the metadata table on DefiLlama, one vault on Base on Yearn. *)
Definition pool_aave : Yield.LlamaPool :=
  {| Yield.project := Some "Aave-V3"; Yield.chain := Some "Base";
     Yield.symbol := "USDC"; Yield.pool := "0xa1"; Yield.pool_apy := 5%Q;
     Yield.pool_tvlUsd := Some 4000000%Q;
     Yield.underlyingTokens := ["0x833589fCD6eDb6E08f4c7C32D4f71b54bdA02913"];
     Yield.poolMeta := None |}.
Definition pool_pendle : Yield.LlamaPool :=
  {| Yield.project := Some "pendle"; Yield.chain := Some "Base";
     Yield.symbol := "USDC"; Yield.pool := "0xp2"; Yield.pool_apy := 9%Q;
     Yield.pool_tvlUsd := Some 1000000%Q; Yield.underlyingTokens := [];
     Yield.poolMeta := Some "PT" |}.
Definition pool_other : Yield.LlamaPool :=
  {| Yield.project := Some "uniswap-v3"; Yield.chain := Some "Base";
     Yield.symbol := "USDC"; Yield.pool := "0xu3"; Yield.pool_apy := 30%Q;
     Yield.pool_tvlUsd := None; Yield.underlyingTokens := [];
     Yield.poolMeta := None |}.
Definition vault_usdc : Yield.YearnVault :=
  {| Yield.v_type := "v3"; Yield.v_kind := "Vault"; Yield.v_address := "0xv1";
     Yield.v_symbol := "usdc"; Yield.v_name := "USDC yVault";
     Yield.v_token_address := None; Yield.v_net_apy := Some (7 # 100)%Q;
     Yield.v_tvl := Some 250000%Q |}.

Definition net_a : Yield.Net :=
  {| Yield.fetch_llama := fun _ _ =>
       Ret {| Yield.ok := true; Yield.status := 200;
              Yield.body := Ret (Some [pool_aave; pool_other; pool_pendle]) |};
     Yield.fetch_yearn := fun url =>
       if decide (url = "https://api.yearn.fi/v1/chains/8453/vaults/all")
       then Ret {| Yield.ok := true; Yield.status := 200;
                   Yield.body := Ret [vault_usdc] |}
       else Ret {| Yield.ok := false; Yield.status := 404;
                   Yield.body := Throw JsOther |};
     Yield.elapsed := 1200 |}.

(** The first fetch of a fresh service, at time 0. *)
Definition svc_a : Yield.YieldService :=
  (Yield.fetchAllYields net_a 0 Yield.new_service).1.2.
Definition log_a : list string :=
  (Yield.fetchAllYields net_a 0 Yield.new_service).2.
Definition superset_a : list Yield.YieldOpportunity :=
  Eval vm_compute in
    match (Yield.fetchAllYields net_a 0 Yield.new_service).1.1 with
    | Ret l => l
    | Throw _ => []
    end.

(** USDC on Base for a moderate profile, with Pendle both allowed and
    denied. *)
Definition query_a : Yield.YieldQueryParams :=
  {| Yield.q_chainId := Some 8453; Yield.q_token := Some "usdc";
     Yield.minApy := None; Yield.maxApy := None;
     Yield.minTvlUsd := Some 100000%Q;
     Yield.q_riskTolerance := Some Ens.aggressive;
     Yield.whitelistedProtocols := Some ["pendle"; "Aave-V3"; "yearn-v3"];
     Yield.blacklistedProtocols := Some ["pendle"];
     Yield.limit := None |}.

Definition query_moderate : Yield.YieldQueryParams :=
  {| Yield.q_chainId := Some 8453; Yield.q_token := Some "USDC";
     Yield.minApy := None; Yield.maxApy := None; Yield.minTvlUsd := None;
     Yield.q_riskTolerance := Some Ens.moderate;
     Yield.whitelistedProtocols := None; Yield.blacklistedProtocols := None;
     Yield.limit := None |}.

Definition world0 : Intent.World :=
  {| Intent.state := Intent.initialState; Intent.trace := [] |}.

Definition world_ready : Intent.World :=
  {| Intent.state := state_ready; Intent.trace := [] |}.

(** What DefiLlama alone contributes to the first fetch. *)
Definition llama_a : list Yield.YieldOpportunity :=
  Eval vm_compute in
    match (Yield.fetchDefiLlamaYields net_a Yield.new_service).1 with
    | Ret l => l
    | Throw _ => []
    end.

(** Anything on Linea, a chain no source covers. *)
Definition query_linea : Yield.YieldQueryParams :=
  {| Yield.q_chainId := Some 59144; Yield.q_token := None;
     Yield.minApy := None; Yield.maxApy := None; Yield.minTvlUsd := None;
     Yield.q_riskTolerance := None;
     Yield.whitelistedProtocols := None; Yield.blacklistedProtocols := None;
     Yield.limit := None |}.

(** A naming client for which every handle resolves, over the same text
    records; the avatar record is the empty string. *)
Definition naming_open : Ens.NamingClient :=
  {| Ens.getEnsAddress := fun _ =>
       Ret (Some "0x00000000000000000000000000000000000000c2");
     Ens.getEnsText := fun n k => Ret (directory n k);
     Ens.getEnsAvatar := fun _ => Ret (Some "") |}.

(** Preferences that differ from the defaults in every field. *)
Definition prefs_custom : Ens.UserPreferences :=
  {| Ens.preferredChains := ["base"; "arbitrum"];
     Ens.riskTolerance := Ens.conservative;
     Ens.maxSlippageBps := 50;
     Ens.defaultAction := Ens.bridge;
     Ens.whitelistedProtocols := [JStr "aave-v3"];
     Ens.blacklistedProtocols := [JStr "pendle"; JStr "silo"];
     Ens.minLiquidityUsd := 250000;
     Ens.strategyFollow := Some "alice.eth";
     Ens.autoRebalance := true;
     Ens.notificationPrefs := JObj [] |}.

(** A registry in which every name has the same resolver, and an encoder
    that writes its three arguments side by side. *)
Definition encoder_ok : Ens.Encoder :=
  {| Ens.readResolver := fun _ =>
       Ret "0x8FADE66B79cC9f707aB26799354482EB93a5B7dD";
     Ens.namehash := fun n => Ret ("node:" +:+ n);
     Ens.encodeSetText := fun node key value =>
       Ret (node +:+ "|" +:+ key +:+ "|" +:+ value) |}.

(** The quick intent for [request0]. *)
Definition quick0 : Intent.QuickIntentParams :=
  {| Intent.qp_fromChain := 1; Intent.qp_fromToken := "USDC";
     Intent.qp_fromAmount := "1"; Intent.qp_toChain := 8453;
     Intent.qp_toToken := "usdc";
     Intent.qp_userAddress := "0x00000000000000000000000000000000000000aa";
     Intent.qp_ensName := Some "bob.eth" |}.

Definition quick_cells0 : Intent.QuickState :=
  {| Intent.isExecuting := false; Intent.quick_error := None;
     Intent.lastExecution := None |}.

(** Preferences with a maximum slippage of 0, and the request the quick
    intent then sends to the routing service: the slippage option is the
    default 0.01 times 100, as the rational arithmetic leaves it. *)
Definition prefs_zero_slippage : Ens.UserPreferences :=
  Ens.set_maxSlippageBps 0 Ens.DEFAULT_PREFERENCES.

Definition routes_request0 : Lifi.RoutesRequest :=
  {| Lifi.fromChainId := 1; Lifi.toChainId := 8453;
     Lifi.fromTokenAddress := "0xA0b86991c6218b36c1d19D4a2e9Eb0cE3606eB48";
     Lifi.toTokenAddress := "0x833589fCD6eDb6E08f4c7C32D4f71b54bdA02913";
     Lifi.rq_fromAmount := "1000000";
     Lifi.fromAddress := "0x00000000000000000000000000000000000000aa";
     Lifi.toAddress := "0x00000000000000000000000000000000000000aa";
     Lifi.opt_slippage := (100 # 100)%Q;
     Lifi.opt_order := "RECOMMENDED";
     Lifi.opt_allowSwitchChain := true |}.

End Sample.

(* ===================================================================== *)
(** * Properties of the preference resolver *)
(* ===================================================================== *)

Module EnsFacts.
Import Js Ens.

Ltac unfold_blocks :=
  unfold parse_preferredChains, parse_riskTolerance, parse_maxSlippageBps,
    parse_defaultAction, parse_whitelistedProtocols,
    parse_blacklistedProtocols, parse_minLiquidityUsd, parse_strategyFollow,
    parse_autoRebalance, parse_notificationPrefs.

(** [strip f] removes, under the projection [f], the outermost blocks that
    do not assign to it. *)
Ltac strip f :=
  repeat match goal with
    | |- context [f (?B ?r ?x)] =>
        let H := fresh "Hframe" in
        assert (H : ∀ y, f (B r y) = f y)
          by (intros; unfold_blocks; repeat case_match; reflexivity);
        rewrite (H x); clear H
    end.

Section Blocks.

Variable JSON_parse : string -> option json.
Variable records : gmap string string.
Variable p : UserPreferences.

Lemma own_preferredChains :
  preferredChains (parse_preferredChains JSON_parse records p)
  = default (preferredChains p) (parsed_chains JSON_parse records).
Proof.
  unfold parse_preferredChains, parsed_chains.
  destruct (field records K_preferredChains) as [s |]; [simpl | reflexivity].
  destruct (JSON_parse s) as [[] |]; simpl; try reflexivity.
  by destruct (mapM toLowerCase_any items).
Qed.

Lemma own_riskTolerance :
  riskTolerance (parse_riskTolerance records p)
  = default (riskTolerance p) (parsed_risk records).
Proof.
  unfold parse_riskTolerance, parsed_risk.
  destruct (field records K_riskTolerance) as [s |]; [simpl | reflexivity].
  by destruct (risk_of_string s).
Qed.

Lemma risk_whitelistedProtocols :
  whitelistedProtocols (parse_riskTolerance records p)
  = default (whitelistedProtocols p)
      ((fun risk => JStr <$> RISK_TOLERANCE_MAP risk) <$> parsed_risk records).
Proof.
  unfold parse_riskTolerance, parsed_risk.
  destruct (field records K_riskTolerance) as [s |]; [simpl | reflexivity].
  by destruct (risk_of_string s).
Qed.

Lemma own_maxSlippageBps :
  maxSlippageBps (parse_maxSlippageBps records p)
  = default (maxSlippageBps p) (parsed_slippage records).
Proof.
  unfold parse_maxSlippageBps, parsed_slippage.
  destruct (field records K_maxSlippageBps) as [s |]; [simpl | reflexivity].
  destruct (parseInt10 s) as [n |]; [simpl | reflexivity].
  destruct (decide (1 <= n <= 1000)) as [Hin | Hout].
  - replace ((0 <? n) && (n <=? 1000)) with true; [reflexivity |].
    symmetry. apply andb_true_iff. split; [apply Z.ltb_lt | apply Z.leb_le]; lia.
  - replace ((0 <? n) && (n <=? 1000)) with false; [reflexivity |].
    symmetry. apply andb_false_iff.
    destruct (Z.ltb_spec 0 n); [right; apply Z.leb_gt; lia | by left].
Qed.

Lemma own_defaultAction :
  defaultAction (parse_defaultAction records p)
  = default (defaultAction p) (parsed_action records).
Proof.
  unfold parse_defaultAction, parsed_action.
  destruct (field records K_defaultAction) as [s |]; [simpl | reflexivity].
  by destruct (action_of_string s).
Qed.

Lemma own_whitelistedProtocols :
  whitelistedProtocols (parse_whitelistedProtocols JSON_parse records p)
  = default (whitelistedProtocols p) (parsed_whitelist JSON_parse records).
Proof.
  unfold parse_whitelistedProtocols, parsed_whitelist.
  destruct (field records K_whitelistedProtocols) as [s |]; [simpl | reflexivity].
  by destruct (JSON_parse s) as [[] |].
Qed.

Lemma own_blacklistedProtocols :
  blacklistedProtocols (parse_blacklistedProtocols JSON_parse records p)
  = default (blacklistedProtocols p) (parsed_blacklist JSON_parse records).
Proof.
  unfold parse_blacklistedProtocols, parsed_blacklist.
  destruct (field records K_blacklistedProtocols) as [s |]; [simpl | reflexivity].
  by destruct (JSON_parse s) as [[] |].
Qed.

Lemma own_minLiquidityUsd :
  minLiquidityUsd (parse_minLiquidityUsd records p)
  = default (minLiquidityUsd p) (parsed_liquidity records).
Proof.
  unfold parse_minLiquidityUsd, parsed_liquidity.
  destruct (field records K_minLiquidityUsd) as [s |]; [simpl | reflexivity].
  destruct (parseInt10 s) as [n |]; [simpl | reflexivity].
  destruct (decide (0 <= n)) as [Hin | Hout].
  - by replace (0 <=? n) with true by (symmetry; apply Z.leb_le; lia).
  - by replace (0 <=? n) with false by (symmetry; apply Z.leb_gt; lia).
Qed.

Lemma own_strategyFollow :
  strategyFollow (parse_strategyFollow records p)
  = from_option Some (strategyFollow p) (field records K_strategyFollow).
Proof.
  unfold parse_strategyFollow.
  by destruct (field records K_strategyFollow).
Qed.

Lemma own_autoRebalance :
  autoRebalance (parse_autoRebalance records p)
  = default (autoRebalance p)
      ((fun s => bool_decide (s = "true")) <$> field records K_autoRebalance).
Proof.
  unfold parse_autoRebalance.
  by destruct (field records K_autoRebalance).
Qed.

Lemma own_notificationPrefs :
  notificationPrefs (parse_notificationPrefs JSON_parse records p)
  = default (notificationPrefs p) (parsed_notifications JSON_parse records).
Proof.
  unfold parse_notificationPrefs, parsed_notifications.
  destruct (field records K_notificationPrefs) as [s |]; [simpl | reflexivity].
  destruct (JSON_parse s) as [v |]; [simpl | reflexivity].
  by destruct (typeof_object v).
Qed.

End Blocks.

Lemma parsePreferences_strategyFollow JSON_parse records :
  strategyFollow (parsePreferences JSON_parse records)
  = field records K_strategyFollow.
Proof.
  unfold parsePreferences. cbv zeta.
  strip strategyFollow. rewrite own_strategyFollow. strip strategyFollow.
  simpl. by destruct (field records K_strategyFollow).
Qed.

(** C3, as the code has it.  Every field of the parsed preferences is read
    from its own record: it holds the parsed value when the record is
    present and parseable, and the schema default when the record is absent
    or unparseable (text that is not a JSON array for the list fields, a
    number outside 1..1000 for the slippage or below 0 for the liquidity, a
    word outside the closed set for the enumerated fields), whatever the
    other records hold.  The one field with a second source is the
    whitelist: without a parseable record of its own it holds the protocols
    derived from the risk-tolerance record when that one is recognised, and
    the schema default otherwise.  In particular a slippage record of
    "1500" yields 100. *)
Theorem parsePreferences_fallback (JSON_parse : string -> option json)
    (records : gmap string string) :
  let p := parsePreferences JSON_parse records in
  let d := DEFAULT_PREFERENCES in
  preferredChains p = default (preferredChains d) (parsed_chains JSON_parse records)
  ∧ riskTolerance p = default (riskTolerance d) (parsed_risk records)
  ∧ maxSlippageBps p = default (maxSlippageBps d) (parsed_slippage records)
  ∧ defaultAction p = default (defaultAction d) (parsed_action records)
  ∧ whitelistedProtocols p
    = default (default (whitelistedProtocols d)
                 ((fun risk => JStr <$> RISK_TOLERANCE_MAP risk)
                    <$> parsed_risk records))
        (parsed_whitelist JSON_parse records)
  ∧ blacklistedProtocols p
    = default (blacklistedProtocols d) (parsed_blacklist JSON_parse records)
  ∧ minLiquidityUsd p = default (minLiquidityUsd d) (parsed_liquidity records)
  ∧ strategyFollow p = field records K_strategyFollow
  ∧ autoRebalance p
    = default (autoRebalance d)
        ((fun s => bool_decide (s = "true")) <$> field records K_autoRebalance)
  ∧ notificationPrefs p
    = default (notificationPrefs d) (parsed_notifications JSON_parse records)
  ∧ maxSlippageBps
      (parsePreferences JSON_parse (<[K_maxSlippageBps := "1500"]> records))
    = 100.
Proof.
  intros p d. subst p. unfold parsePreferences. cbv zeta.
  repeat apply conj.
  - strip preferredChains. apply own_preferredChains.
  - strip riskTolerance. rewrite own_riskTolerance. by strip riskTolerance.
  - strip maxSlippageBps. rewrite own_maxSlippageBps. by strip maxSlippageBps.
  - strip defaultAction. rewrite own_defaultAction. by strip defaultAction.
  - strip whitelistedProtocols. rewrite own_whitelistedProtocols.
    strip whitelistedProtocols. rewrite risk_whitelistedProtocols.
    by strip whitelistedProtocols.
  - strip blacklistedProtocols. rewrite own_blacklistedProtocols.
    by strip blacklistedProtocols.
  - strip minLiquidityUsd. rewrite own_minLiquidityUsd. by strip minLiquidityUsd.
  - apply parsePreferences_strategyFollow.
  - strip autoRebalance. rewrite own_autoRebalance. by strip autoRebalance.
  - rewrite own_notificationPrefs. by strip notificationPrefs.
  - strip maxSlippageBps. rewrite own_maxSlippageBps. strip maxSlippageBps.
    unfold parsed_slippage, field. rewrite lookup_insert_eq. reflexivity.
Qed.

(** C3, as stated, fails for the whitelist: with a recognised risk tolerance
    and a whitelist record that is not JSON, the parsed whitelist is the
    list derived from the risk tolerance, not the schema default. *)
Lemma parsePreferences_whitelist_not_schema_default :
  ¬ (∀ (JSON_parse : string -> option json) (records : gmap string string)
       (s : string),
        field records K_whitelistedProtocols = Some s ->
        JSON_parse s = None ->
        whitelistedProtocols (parsePreferences JSON_parse records)
        = whitelistedProtocols DEFAULT_PREFERENCES).
Proof.
  intros Hclaim.
  specialize (Hclaim read_flat Sample.records_bad_whitelist "aave, morpho").
  assert (Hrun : whitelistedProtocols
                   (parsePreferences read_flat Sample.records_bad_whitelist)
                 = JStr <$> ["aave-v3"; "compound-v3"; "morpho"; "spark"])
    by (vm_compute; reflexivity).
  rewrite Hrun in Hclaim.
  discriminate Hclaim; vm_compute; reflexivity.
Qed.

Lemma truthy_str_idemp o : truthy_str (truthy_str o) = truthy_str o.
Proof.
  destruct o as [s |]; [| reflexivity]. unfold truthy_str.
  destruct (decide (s = "")) as [| Hne]; [reflexivity |].
  by rewrite decide_False.
Qed.

(** A lookup in the collected records is the truthy text record of that
    key. *)
Lemma getAllTextRecords_lookup client name key :
  key ∈ ENS_RECORD_KEYS ->
  field (getAllTextRecords client name) key
  = truthy_str (getTextRecord client name key).
Proof.
  intros Hkey. unfold field, getAllTextRecords.
  set (put := fun (records : gmap string string) k =>
                match truthy_str (getTextRecord client name k) with
                | Some value => <[k := value]> records
                | None => records
                end).
  assert (Hfold : ∀ keys (acc : gmap string string),
             foldl put acc keys !! key
             = if decide (key ∈ keys)
               then match truthy_str (getTextRecord client name key) with
                    | Some v => Some v
                    | None => acc !! key
                    end
               else acc !! key).
  { induction keys as [| k keys IH]; intros acc.
    - reflexivity.
    - cbn [foldl]. rewrite IH.
      destruct (decide (key ∈ keys)) as [Hin | Hout].
      + rewrite decide_True by (by right).
        destruct (truthy_str (getTextRecord client name key)) eqn:Hk; [done |].
        unfold put.
        destruct (truthy_str (getTextRecord client name k)) eqn:Hk'; [| done].
        rewrite lookup_insert_ne; [done |]. intros ->. congruence.
      + destruct (decide (k = key)) as [-> | Hne].
        * rewrite decide_True by (by left). unfold put.
          destruct (truthy_str (getTextRecord client name key)); [| done].
          by rewrite lookup_insert_eq.
        * rewrite decide_False by (by intros [-> | ?]%elem_of_cons).
          unfold put.
          destruct (truthy_str (getTextRecord client name k)); [| done].
          by rewrite lookup_insert_ne. }
  rewrite Hfold, decide_True by done.
  destruct (truthy_str (getTextRecord client name key)) as [v |] eqn:Hv.
  - rewrite <- Hv. apply truthy_str_idemp.
  - by rewrite lookup_empty.
Qed.

(** C4.  For a handle that resolves to an address and whose
    [strategyFollow] text record names a delegate, [getProfile] (when the
    avatar lookup answers) returns a profile whose preferences are the
    parse of the delegate's records, not of the handle's own, flagged as
    following, with the delegate as the followed owner.  The delegate's own
    [strategyFollow] record is not resolved: it is only copied into the
    [strategyFollow] field of the preferences. *)
Theorem getProfile_follows_delegate (JSON_parse : string -> option json)
    (client : NamingClient) (handle addr owner : string)
    (picture : option string) :
  truthy_str (resolveName client (normalize handle)) = Some addr ->
  truthy_str (getTextRecord client (normalize handle) K_strategyFollow)
    = Some owner ->
  getEnsAvatar client (normalize handle) = Ret picture ->
  let delegateRecords := getAllTextRecords client owner in
  getProfile JSON_parse client handle
    = Ret (Some {| name := normalize handle;
                   address := addr;
                   avatar := truthy_str picture;
                   preferences := parsePreferences JSON_parse delegateRecords;
                   isFollowingStrategy := true;
                   followedStrategyOwner := Some owner |})
  ∧ strategyFollow (parsePreferences JSON_parse delegateRecords)
    = truthy_str (getTextRecord client owner K_strategyFollow).
Proof.
  intros Haddr Hfollow Havatar delegateRecords. split.
  - unfold getProfile. rewrite Haddr.
    rewrite getAllTextRecords_lookup, Hfollow, Havatar; [reflexivity |].
    unfold ENS_RECORD_KEYS. set_solver.
  - rewrite parsePreferences_strategyFollow.
    apply getAllTextRecords_lookup. unfold ENS_RECORD_KEYS. set_solver.
Qed.

Lemma getProfile_follows_delegate_witness :
  ∃ profile,
    getProfile read_flat Sample.naming " Bob.ETH " = Ret (Some profile)
    ∧ riskTolerance (preferences profile) = conservative
    ∧ maxSlippageBps (preferences profile) = 100
    ∧ strategyFollow (preferences profile) = Some "carol.eth"
    ∧ followedStrategyOwner profile = Some "alice.eth"
    ∧ isFollowingStrategy profile = true.
Proof.
  destruct (getProfile_follows_delegate read_flat Sample.naming " Bob.ETH "
              "0x00000000000000000000000000000000000000b0" "alice.eth" None)
    as [Hprofile _].
  - vm_compute. reflexivity.
  - vm_compute. reflexivity.
  - reflexivity.
  - eexists. split; [exact Hprofile |].
    vm_compute. repeat split.
Defined.

End EnsFacts.

(* ===================================================================== *)
(** * Properties of the yield aggregator *)
(* ===================================================================== *)

Module YieldFacts.
Import Js Yield.

(** ** Order and sort *)

#[local] Instance apy_desc_trans : Transitive apy_desc.
Proof. intros a b c Hab Hbc. unfold apy_desc in *. lra. Qed.

Lemma by_apy_desc_le a b :
  Qle_bool (by_apy_desc a b) 0 = true <-> apy_desc a b.
Proof. rewrite Qle_bool_iff. unfold by_apy_desc, apy_desc. split; intros; lra. Qed.

Lemma insert_by_perm {A} (cmp : A -> A -> Q) x l : insert_by cmp x l ≡ₚ x :: l.
Proof.
  induction l as [| y t IH]; simpl; [done |].
  destruct (Qle_bool (cmp x y) 0); [done |].
  rewrite IH. apply Permutation_swap.
Qed.

Lemma sort_by_perm {A} (cmp : A -> A -> Q) l : sort_by cmp l ≡ₚ l.
Proof.
  induction l as [| x l IH]; simpl; [done |].
  rewrite insert_by_perm. by constructor.
Qed.

Lemma insert_by_apy_sorted x l :
  Sorted apy_desc l -> Sorted apy_desc (insert_by by_apy_desc x l).
Proof.
  induction 1 as [| y t Hsorted IH Hhd]; simpl.
  - repeat constructor.
  - destruct (Qle_bool (by_apy_desc x y) 0) eqn:Hcmp.
    + apply by_apy_desc_le in Hcmp. repeat constructor; assumption.
    + assert (Hyx : apy_desc y x).
      { destruct (Qlt_le_dec (apy x) (apy y)) as [Hlt | Hle].
        - unfold apy_desc. lra.
        - apply by_apy_desc_le in Hle. congruence. }
      constructor; [exact IH |].
      destruct Hhd as [| z t' Hyz]; simpl; [by constructor |].
      destruct (Qle_bool (by_apy_desc x z) 0); by constructor.
Qed.

Lemma sort_by_apy_sorted l : StronglySorted apy_desc (sort_by by_apy_desc l).
Proof.
  apply Sorted_StronglySorted; [apply apy_desc_trans |].
  induction l as [| x l IH]; simpl; [constructor |].
  by apply insert_by_apy_sorted.
Qed.

Lemma StronglySorted_sublist {A} (R : A -> A -> Prop) l k :
  l `sublist_of` k -> StronglySorted R k -> StronglySorted R l.
Proof.
  induction 1 as [| x l k Hsub IH | x l k Hsub IH]; intros Hk.
  - constructor.
  - apply StronglySorted_inv in Hk as [Hk Hx]. constructor; [by apply IH |].
    apply Forall_forall. intros y Hy.
    eapply Forall_forall in Hx; [exact Hx |].
    by eapply sublist_subseteq.
  - apply StronglySorted_inv in Hk as [Hk _]. by apply IH.
Qed.

(** ** Slugs *)

Lemma known_slug_lowercase (slug : string) :
  is_Some (PROTOCOL_METADATA slug) -> toLowerCase slug = slug.
Proof.
  unfold PROTOCOL_METADATA. intros Hknown.
  repeat (case_decide; [by subst |]).
  by destruct Hknown.
Qed.

Lemma llama_opportunity_known source p y :
  llama_opportunity source p = Some y -> known_slug y.
Proof.
  unfold llama_opportunity, known_slug.
  destruct (PROTOCOL_METADATA (default "" (toLowerCase <$> project p)))
    as [[mname mrisk] |] eqn:Hmeta; [| discriminate].
  destruct (List.find _ CHAIN_ID_TO_NAME) as [[cid cname] |]; [| discriminate].
  case_bool_decide; [| discriminate].
  intros [= <-]. simpl. by rewrite Hmeta.
Qed.

Lemma yearn_opportunity_known cid v y :
  yearn_opportunity cid v = Some y -> known_slug y.
Proof.
  unfold yearn_opportunity, known_slug.
  destruct (_ && _); [| discriminate].
  intros [= <-]. simpl. by eexists.
Qed.

Lemma omap_Forall {A B} (f : A -> option B) (P : B -> Prop) l :
  (∀ x y, f x = Some y -> P y) -> Forall P (omap f l).
Proof.
  intros Hf. apply Forall_forall. intros y (x & _ & Hx)%list_elem_of_omap.
  by eapply Hf.
Qed.

(** ** The adapters *)

Lemma withRetry_success {A} (fn : nat -> outcome A * list string)
    attempt remaining a log :
  withRetry fn attempt remaining = (Ret a, log) ->
  ∃ n, (fn n).1 = Ret a.
Proof.
  revert attempt log. induction remaining as [| r IH]; intros attempt log; simpl.
  - destruct (fn attempt) as [[a' | e] log'] eqn:Hfn; intros [= <- <-].
    exists attempt. by rewrite Hfn.
  - destruct (fn attempt) as [[a' | e] log'] eqn:Hfn.
    + intros [= <- <-]. exists attempt. by rewrite Hfn.
    + destruct (withRetry fn (S attempt) r) as [res log''] eqn:Hrec.
      intros [= -> <-]. by eapply IH.
Qed.

Lemma fetchDefiLlamaYields_known net svc l log :
  fetchDefiLlamaYields net svc = (Ret l, log) -> Forall known_slug l.
Proof.
  unfold fetchDefiLlamaYields.
  destruct (find_source svc "defillama") as [source |].
  - intros (n & Hn)%withRetry_success. revert Hn.
    unfold llama_attempt.
    destruct (fetch_llama net n _) as [response | e]; [| discriminate].
    destruct (ok response); [| discriminate].
    destruct (body response) as [d | e]; [| discriminate].
    intros [= <-]. apply omap_Forall, llama_opportunity_known.
  - intros [= <- <-]. constructor.
Qed.

Lemma fetchYearnYields_known net svc : Forall known_slug (fetchYearnYields net svc).1.
Proof.
  unfold fetchYearnYields.
  destruct (find_source svc "yearn") as [source |]; [| constructor].
  assert (Hfold : ∀ cids acc, Forall known_slug acc.1 ->
            Forall known_slug
              (foldl (fun acc cid =>
                        let '(ys, log) := yearn_chain net source cid in
                        (acc.1 ++ ys, acc.2 ++ log)) acc cids).1).
  { induction cids as [| cid cids IH]; intros acc Hacc; [exact Hacc |].
    cbn [foldl]. apply IH.
    destruct (yearn_chain net source cid) as [ys log] eqn:Hchain. simpl.
    apply Forall_app. split; [exact Hacc |].
    revert Hchain. unfold yearn_chain.
    destruct (fetch_yearn net _) as [response | e]; [| by intros [= <- <-]].
    destruct (ok response); [| by intros [= <- <-]].
    destruct (body response) as [vaults | e]; [| by intros [= <- <-]].
    intros [= <- <-]. apply omap_Forall, yearn_opportunity_known. }
  apply Hfold. constructor.
Qed.

(** ** [fetchAllYields], case by case *)

Lemma fetchAllYields_hit net now svc cached :
  cache svc !! cacheKey = Some cached ->
  now - timestamp cached < CACHE_TTL ->
  fetchAllYields net now svc = (Ret (data cached), svc, []).
Proof.
  intros Hcached Hfresh. unfold fetchAllYields. rewrite Hcached.
  by replace (now - timestamp cached <? CACHE_TTL) with true
    by (symmetry; by apply Z.ltb_lt).
Qed.

Lemma fetchAllYields_miss net now svc :
  stale now svc ->
  fetchAllYields net now svc =
    match (fetchDefiLlamaYields net svc).1 with
    | Throw e =>
        (Throw e, svc,
         (fetchDefiLlamaYields net svc).2 ++ (fetchYearnYields net svc).2)
    | Ret defiLlamaYields =>
        let allYields :=
          sort_by by_apy_desc (defiLlamaYields ++ (fetchYearnYields net svc).1) in
        (Ret allYields,
         {| sources := sources svc;
            cache := <[cacheKey := {| data := allYields;
                                      timestamp := now + elapsed net |}]>
                       (cache svc) |},
         (fetchDefiLlamaYields net svc).2 ++ (fetchYearnYields net svc).2)
    end.
Proof.
  unfold stale, fetchAllYields. intros Hstale.
  destruct (fetchDefiLlamaYields net svc) as [[l1 | e] log1];
    destruct (fetchYearnYields net svc) as [l2 log2]; simpl;
    destruct (cache svc !! cacheKey) as [cached |]; try reflexivity;
    by replace (now - timestamp cached <? CACHE_TTL) with false
      by (symmetry; by apply Z.ltb_ge).
Qed.

Lemma hit_or_stale now svc :
  (∃ cached, cache svc !! cacheKey = Some cached
             ∧ now - timestamp cached < CACHE_TTL)
  ∨ stale now svc.
Proof.
  unfold stale. destruct (cache svc !! cacheKey) as [cached |]; [| by right].
  destruct (Z.lt_ge_cases (now - timestamp cached) CACHE_TTL);
    [left; eauto | by right].
Qed.

(** ** The invariant of the cache *)

Lemma fetched_ok net svc l1 :
  (fetchDefiLlamaYields net svc).1 = Ret l1 ->
  let all := sort_by by_apy_desc (l1 ++ (fetchYearnYields net svc).1) in
  StronglySorted apy_desc all ∧ Forall known_slug all.
Proof.
  intros Hllama all. split; [apply sort_by_apy_sorted |].
  unfold all. rewrite sort_by_perm. apply Forall_app. split.
  - destruct (fetchDefiLlamaYields net svc) as [res log] eqn:Hfetch.
    simpl in Hllama. subst res. by eapply fetchDefiLlamaYields_known.
  - apply fetchYearnYields_known.
Qed.

Lemma fetchAllYields_cache_ok net now svc :
  cache_ok svc -> cache_ok (fetchAllYields net now svc).1.2.
Proof.
  intros Hok.
  destruct (hit_or_stale now svc) as [(cached & Hcached & Hfresh) | Hstale].
  - by rewrite (fetchAllYields_hit _ _ _ _ Hcached Hfresh).
  - rewrite (fetchAllYields_miss _ _ _ Hstale).
    destruct (fetchDefiLlamaYields net svc).1 as [l1 | e] eqn:Hllama; [| done].
    intros key entry. simpl.
    destruct (decide (key = cacheKey)) as [-> | Hne].
    + rewrite lookup_insert_eq. intros [= <-]. simpl.
      split; [done |]. by apply fetched_ok.
    + rewrite lookup_insert_ne by done. apply Hok.
Qed.

Lemma reachable_cache_ok svc : reachable svc -> cache_ok svc.
Proof.
  induction 1 as [| net now svc _ IH | svc _ _].
  - intros key entry. simpl. by rewrite lookup_empty.
  - by apply fetchAllYields_cache_ok.
  - intros key entry. simpl. by rewrite lookup_empty.
Qed.

(** What a completed [fetchAllYields] returns is what the cache then holds
    under the fixed key, sorted and with known slugs. *)
Lemma fetchAllYields_returns net now svc superset svc' log :
  cache_ok svc ->
  fetchAllYields net now svc = (Ret superset, svc', log) ->
  data <$> cache svc' !! cacheKey = Some superset
  ∧ StronglySorted apy_desc superset
  ∧ Forall known_slug superset.
Proof.
  intros Hok.
  destruct (hit_or_stale now svc) as [(cached & Hcached & Hfresh) | Hstale].
  - rewrite (fetchAllYields_hit _ _ _ _ Hcached Hfresh). intros [= <- <- <-].
    rewrite Hcached. split; [done |]. by apply (Hok cacheKey).
  - rewrite (fetchAllYields_miss _ _ _ Hstale).
    destruct (fetchDefiLlamaYields net svc).1 as [l1 | e] eqn:Hllama;
      [| discriminate].
    simpl. intros [= <- <- <-]. simpl. rewrite lookup_insert_eq.
    split; [done |]. by apply fetched_ok.
Qed.

(** ** The filters *)

Lemma filter_if_guard {A} (g : option (A -> bool)) (l : list A) :
  filter_if g l = List.filter (guard g) l.
Proof.
  destruct g as [p |]; simpl; [reflexivity |].
  induction l as [| x l IH]; simpl; congruence.
Qed.

Lemma filter_filter_and {A} (p q : A -> bool) (l : list A) :
  List.filter q (List.filter p l) = List.filter (fun y => p y && q y) l.
Proof.
  induction l as [| x l IH]; simpl; [reflexivity |].
  destruct (p x); simpl; [destruct (q x) |]; congruence.
Qed.

Lemma applyFilters_passes params l :
  applyFilters params l = limited params (List.filter (passes params) l).
Proof.
  unfold applyFilters, limited. cbv zeta.
  rewrite !filter_if_guard, !filter_filter_and.
  rewrite (filter_ext _ (passes params)); [reflexivity |].
  intros y. unfold passes. by rewrite !andb_assoc.
Qed.

Lemma elem_of_filter_bool {A} (p : A -> bool) (l : list A) (y : A) :
  y ∈ List.filter p l <-> y ∈ l ∧ p y = true.
Proof. rewrite !list_elem_of_In. apply filter_In. Qed.

Lemma filter_bool_sublist {A} (p : A -> bool) (l : list A) :
  List.filter p l `sublist_of` l.
Proof.
  induction l as [| x l IH]; simpl; [constructor |].
  destruct (p x); by constructor.
Qed.

Lemma slice0_sublist {A} (n : Z) (l : list A) : slice0 n l `sublist_of` l.
Proof. unfold slice0. destruct (0 <=? n); apply sublist_take. Qed.

Lemma limited_sublist params l : limited params l `sublist_of` l.
Proof.
  unfold limited. destruct (nonzero (limit params)); [apply slice0_sublist | done].
Qed.

Lemma applyFilters_sublist params l : applyFilters params l `sublist_of` l.
Proof.
  rewrite applyFilters_passes.
  etrans; [apply limited_sublist | apply filter_bool_sublist].
Qed.

Lemma applyFilters_elem params l y :
  y ∈ applyFilters params l -> y ∈ l ∧ passes params y = true.
Proof.
  rewrite applyFilters_passes. intros Hy.
  apply elem_of_filter_bool. revert Hy. apply sublist_subseteq, limited_sublist.
Qed.

Lemma queryYields_of_fetch net now params svc superset svc' log :
  fetchAllYields net now svc = (Ret superset, svc', log) ->
  queryYields net now params svc = (Ret (applyFilters params superset), svc', log).
Proof. unfold queryYields. by intros ->. Qed.

(** C5.  On a reachable service, whenever [fetchAllYields] returns the
    superset of the current cache generation, [queryYields] with any
    parameters returns, from the same call, a sublist of it: every returned
    opportunity is in the superset, in the order it has there; the superset
    is sorted by APY from high to low (by [fetchAllYields], before any
    filter), and so is the result. *)
Theorem queryYields_sublist_sorted (net : Net) (now : Z)
    (params : YieldQueryParams) (svc : YieldService)
    (superset : list YieldOpportunity) (svc' : YieldService)
    (log : list string) :
  reachable svc ->
  fetchAllYields net now svc = (Ret superset, svc', log) ->
  ∃ ys, queryYields net now params svc = (Ret ys, svc', log)
    ∧ data <$> cache svc' !! cacheKey = Some superset
    ∧ ys `sublist_of` superset
    ∧ (∀ y, y ∈ ys -> y ∈ superset)
    ∧ StronglySorted apy_desc superset
    ∧ StronglySorted apy_desc ys.
Proof.
  intros Hreach Hfetch. exists (applyFilters params superset).
  pose proof (applyFilters_sublist params superset) as Hsub.
  destruct (fetchAllYields_returns _ _ _ _ _ _ (reachable_cache_ok _ Hreach) Hfetch)
    as (Hcache & Hsorted & _).
  split; [by apply queryYields_of_fetch |].
  split; [exact Hcache |].
  split; [exact Hsub |].
  split; [intros y; by apply sublist_subseteq |].
  split; [exact Hsorted |].
  by eapply StronglySorted_sublist.
Qed.

(** C2.  On a reachable service, no opportunity returned by [queryYields]
    has a protocol slug listed in the query's blacklist, whatever the
    whitelist holds: the blacklist filter runs after the whitelist filter
    on what that one kept. *)
Theorem queryYields_blacklist_precedence (net : Net) (now : Z)
    (params : YieldQueryParams) (svc : YieldService)
    (superset : list YieldOpportunity) (svc' : YieldService)
    (log : list string) (bl : list string) :
  reachable svc ->
  fetchAllYields net now svc = (Ret superset, svc', log) ->
  blacklistedProtocols params = Some bl ->
  ∃ ys, queryYields net now params svc = (Ret ys, svc', log)
    ∧ (∀ y, y ∈ ys -> protocolSlug y ∉ bl)
    ∧ (∀ y, y ∈ superset -> protocolSlug y ∈ bl -> y ∉ ys).
Proof.
  intros Hreach Hfetch Hbl. exists (applyFilters params superset).
  destruct (fetchAllYields_returns _ _ _ _ _ _ (reachable_cache_ok _ Hreach) Hfetch)
    as (_ & _ & Hknown).
  split; [by apply queryYields_of_fetch |].
  assert (Hout : ∀ y, y ∈ applyFilters params superset -> protocolSlug y ∉ bl).
  { intros y [Hin Hpass]%applyFilters_elem Hlisted.
    unfold passes in Hpass. rewrite !andb_true_iff in Hpass.
    destruct Hpass as (_ & Hblack). rewrite Hbl in Hblack.
    destruct bl as [| b bl']; [by apply not_elem_of_nil in Hlisted |].
    simpl in Hblack. unfold not_blacklisted in Hblack.
    apply negb_true_iff, bool_decide_eq_false in Hblack. apply Hblack.
    rewrite Forall_forall in Hknown.
    rewrite <- (known_slug_lowercase (protocolSlug y)) by (by apply Hknown).
    by apply list_elem_of_fmap_2. }
  split; [exact Hout |].
  intros y _ Hlisted Hin. by apply (Hout y).
Qed.


(** C6, as the code has it.  On a reachable service, a completed
    [fetchAllYields] leaves its list in the cache under the fixed key, the
    only key the cache ever has.  A later call, with no [clearCache] in
    between, returns the identical list, leaves the service as it is and
    issues no request when it starts less than five minutes after the time
    the entry was written; the entry is written at the end of the fetch
    phase of the call that fetched it, so this covers every call that starts
    less than five minutes after the start of a call that did fetch.  The
    sources are contacted only when the cache holds no entry or an entry at
    least five minutes old, and after [clearCache] it holds none. *)
Theorem fetchAllYields_cache_window (net1 : Net) (now1 : Z) (svc : YieldService)
    (superset : list YieldOpportunity) (svc1 : YieldService)
    (log1 : list string) (net2 : Net) (now2 : Z) :
  reachable svc ->
  fetchAllYields net1 now1 svc = (Ret superset, svc1, log1) ->
  ∃ entry,
    cache svc1 !! cacheKey = Some entry
    ∧ data entry = superset
    ∧ (∀ key other, cache svc1 !! key = Some other -> key = cacheKey)
    ∧ (now2 - timestamp entry < CACHE_TTL ->
       fetchAllYields net2 now2 svc1 = (Ret superset, svc1, []))
    ∧ (stale now1 svc ->
       timestamp entry = now1 + elapsed net1
       ∧ (0 <= elapsed net1 -> now2 - now1 < CACHE_TTL ->
          fetchAllYields net2 now2 svc1 = (Ret superset, svc1, [])))
    ∧ (log1 ≠ [] -> stale now1 svc)
    ∧ stale now2 (clearCache svc1).
Proof.
  intros Hreach Hfetch.
  assert (Hreach1 : reachable svc1).
  { replace svc1 with (fetchAllYields net1 now1 svc).1.2 by (by rewrite Hfetch).
    by constructor. }
  pose proof (reachable_cache_ok _ Hreach1) as Hok1.
  destruct (fetchAllYields_returns _ _ _ _ _ _ (reachable_cache_ok _ Hreach) Hfetch)
    as (Hcache & _).
  destruct (cache svc1 !! cacheKey) as [entry |] eqn:Hentry; [| discriminate].
  injection Hcache as Hdata. exists entry.
  assert (Hhit : ∀ t, t - timestamp entry < CACHE_TTL ->
            fetchAllYields net2 t svc1 = (Ret superset, svc1, [])).
  { intros t Hfresh. rewrite <- Hdata. by apply fetchAllYields_hit. }
  split; [done |]. split; [done |].
  split; [intros key other Hother; by apply (Hok1 key other) |].
  split; [apply Hhit |].
  split; [| split].
  - intros Hstale. rewrite (fetchAllYields_miss _ _ _ Hstale) in Hfetch.
    destruct (fetchDefiLlamaYields net1 svc).1 as [l1 | e]; [| discriminate].
    simpl in Hfetch. injection Hfetch as _ <- _. simpl in Hentry.
    rewrite lookup_insert_eq in Hentry. injection Hentry as <-. simpl.
    split; [done |]. intros Hmono Hwindow. apply Hhit. simpl. lia.
  - intros Hlog.
    destruct (hit_or_stale now1 svc) as [(cached & Hcached & Hfresh) | Hstale];
      [| done].
    rewrite (fetchAllYields_hit _ _ _ _ Hcached Hfresh) in Hfetch.
    by injection Hfetch as _ _ <-.
  - unfold stale. simpl. by rewrite lookup_empty.
Qed.

Lemma queryYields_sublist_sorted_witness :
  ∃ ys, queryYields Sample.net_a 0 Sample.query_moderate new_service
        = (Ret ys, Sample.svc_a, Sample.log_a)
    ∧ protocolSlug <$> ys = ["yearn-v3"; "aave-v3"]
    ∧ ys `sublist_of` Sample.superset_a
    ∧ StronglySorted apy_desc ys.
Proof.
  destruct (queryYields_sublist_sorted Sample.net_a 0 Sample.query_moderate
              new_service Sample.superset_a Sample.svc_a Sample.log_a)
    as (ys & Hrun & _ & Hsub & _ & _ & Hsorted).
  - apply reach_new.
  - vm_compute. reflexivity.
  - exists ys. split; [exact Hrun |]. split; [| by split].
    assert (Hys : Ret (A := list YieldOpportunity) ys
                  = Ret (applyFilters Sample.query_moderate Sample.superset_a)).
    { rewrite (queryYields_of_fetch _ _ _ _ Sample.superset_a Sample.svc_a
                 Sample.log_a) in Hrun by (vm_compute; reflexivity).
      congruence. }
    injection Hys as ->. vm_compute. reflexivity.
Defined.

Lemma queryYields_blacklist_precedence_witness :
  ∃ ys, queryYields Sample.net_a 0 Sample.query_a new_service
        = (Ret ys, Sample.svc_a, Sample.log_a)
    ∧ ∀ y, y ∈ ys -> protocolSlug y ∉ ["pendle"].
Proof.
  destruct (queryYields_blacklist_precedence Sample.net_a 0 Sample.query_a
              new_service Sample.superset_a Sample.svc_a Sample.log_a ["pendle"])
    as (ys & Hrun & Hout & _).
  - apply reach_new.
  - vm_compute. reflexivity.
  - reflexivity.
  - exists ys. by split.
Defined.


Lemma fetchAllYields_cache_window_witness :
  fetchAllYields Sample.net_a 299000 Sample.svc_a
  = (Ret Sample.superset_a, Sample.svc_a, []).
Proof.
  destruct (fetchAllYields_cache_window Sample.net_a 0 new_service
              Sample.superset_a Sample.svc_a Sample.log_a Sample.net_a 299000)
    as (entry & _ & _ & _ & _ & Hfetched & _).
  - apply reach_new.
  - vm_compute. reflexivity.
  - destruct Hfetched as [_ Hhit]; [exact I |].
    apply Hhit; vm_compute; [discriminate | reflexivity].
Defined.

(** C6, as stated, fails when the first of the two calls was itself served
    from the cache: the entry written at time 1200 serves the call at four
    minutes, and the call at six minutes, two minutes later, goes back to
    the sources. *)
Lemma fetchAllYields_window_is_not_sliding :
  ¬ (∀ (net1 : Net) (now1 : Z) (svc : YieldService)
       (superset : list YieldOpportunity) (svc1 : YieldService)
       (log1 : list string) (net2 : Net) (now2 : Z),
        reachable svc ->
        fetchAllYields net1 now1 svc = (Ret superset, svc1, log1) ->
        0 <= now2 - now1 < CACHE_TTL ->
        fetchAllYields net2 now2 svc1 = (Ret superset, svc1, [])).
Proof.
  intros Hclaim.
  specialize (Hclaim Sample.net_a 240000 Sample.svc_a Sample.superset_a
                Sample.svc_a [] Sample.net_a 360000).
  assert (Hlog : (fetchAllYields Sample.net_a 360000 Sample.svc_a).2 ≠ [])
    by (vm_compute; discriminate).
  apply Hlog. rewrite Hclaim; [reflexivity | | |].
  - apply reach_fetch, reach_new.
  - vm_compute. reflexivity.
  - vm_compute. split; [discriminate | reflexivity].
Qed.

End YieldFacts.

(* ===================================================================== *)
(** * Properties of the route quoter and the executor *)
(* ===================================================================== *)

Module LifiFacts.
Import Js Lifi.

Lemma tokenAddress_unmapped chain symbol :
  table_entry chain symbol = None -> tokenAddress chain symbol = None.
Proof. unfold tokenAddress. by intros ->. Qed.

(** C8.  A request whose source symbol has no entry in the token table for
    the source chain, or whose destination symbol has none for the
    destination chain, is rejected by [getBestRoute] with the error
    "Token not supported on one of the chains", and no call to the routing
    service is made. *)
Theorem getBestRoute_unmapped_token (sdk : Sdk) (rq : IntentRequest) :
  table_entry (fromChain rq) (fromToken rq) = None
  ∨ table_entry (toChain rq) (toToken rq) = None ->
  getBestRoute sdk rq =
    (Throw (JsError ("Token not supported on one of the chains: "
                     +:+ fromToken rq +:+ " -> " +:+ toToken rq)), []).
Proof.
  intros [H | H]; apply tokenAddress_unmapped in H;
    unfold getBestRoute; rewrite H; [reflexivity |].
  destruct (tokenAddress (fromChain rq) (fromToken rq)); reflexivity.
Qed.

Lemma getBestRoute_unmapped_token_witness :
  getBestRoute Sample.sdk_ok Sample.request_foo =
    (Throw (JsError "Token not supported on one of the chains: FOO -> USDC"), []).
Proof.
  apply (getBestRoute_unmapped_token Sample.sdk_ok Sample.request_foo).
  left. vm_compute. reflexivity.
Defined.

(** The executor returns exactly when the routing service's execution call
    does, and always with the same record. *)
Lemma executeComposedIntent_outcome {W} sdk now rid ci r (wallet : W) :
  executeComposedIntent sdk now rid ci r wallet =
    (match executeRoute sdk r with
     | Ret _ => Ret {| exec_id := rid; intent := ci; exec_route := r;
                       steps := []; status := exec_completed;
                       exec_error := None; createdAt := now; updatedAt := now |}
     | Throw e => Throw e
     end, [CallExecuteRoute r]).
Proof.
  unfold executeComposedIntent, executeRouteWith.
  destruct (executeRoute sdk r); reflexivity.
Qed.

End LifiFacts.

(* ===================================================================== *)
(** * Properties of the lifecycle state machine *)
(* ===================================================================== *)

Module IntentFacts.
Import Js Intent.

Ltac run_hook :=
  unfold buildIntent, executeIntent, mbind, M_bind, bind, try_catch,
    setState, await_, await, throw; simpl.

Lemma includes_str_elem (l : list json) (s : string) :
  includes_str l s = true <-> JStr s ∈ l.
Proof.
  unfold includes_str. rewrite existsb_exists. split.
  - intros (v & Hin & Hv). apply list_elem_of_In.
    destruct v; simpl in Hv; try discriminate.
    apply bool_decide_eq_true in Hv. by subst.
  - intros Hin. exists (JStr s). split; [by apply list_elem_of_In |].
    simpl. by apply bool_decide_eq_true.
Qed.

(** C1.  When the state the callback closed over has no route or no composed
    intent, [executeIntent] makes one state update and returns: the step
    becomes [failed] with the error "No intent to execute", every other
    field is kept, the state never passes through [executing], and the
    routing service is not called. *)
Theorem executeIntent_without_intent {W : Type} (sdk : Lifi.Sdk) (now : Z)
    (rid : string) (captured : IntentState) (walletClient : W) (w : World) :
  route captured = None ∨ composedIntent captured = None ->
  let failure := with_step_error failed (Some "No intent to execute") (state w) in
  executeIntent sdk now rid captured walletClient w
    = (Ret tt, {| state := failure; trace := trace w ++ [Update failure] |})
  ∧ step failure = failed
  ∧ error failure = Some "No intent to execute"
  ∧ (executing ∉ steps_of [Update failure])
  ∧ routing_of [Update failure] = [].
Proof.
  intros Habsent failure. split; [| repeat split].
  - unfold executeIntent. destruct Habsent as [-> | ->]; [reflexivity |].
    destruct (route captured); reflexivity.
  - simpl. intros Hin. apply list_elem_of_In in Hin.
    destruct Hin as [Hin | []]. discriminate Hin.
Qed.

Lemma executeIntent_without_intent_witness :
  executeIntent Sample.sdk_ok 0 "x1" initialState tt Sample.world0
  = (Ret tt,
     {| state := with_step_error failed (Some "No intent to execute") initialState;
        trace := [Update (with_step_error failed (Some "No intent to execute")
                            initialState)] |}).
Proof.
  apply (executeIntent_without_intent Sample.sdk_ok 0 "x1" initialState tt
           Sample.world0).
  left. reflexivity.
Defined.

Lemma steps_of_app (t1 t2 : list Event) :
  steps_of (t1 ++ t2) = steps_of t1 ++ steps_of t2.
Proof. apply omap_app. Qed.

Lemma steps_of_routing (calls : list Lifi.SdkCall) :
  steps_of (Routing <$> calls) = [].
Proof. induction calls as [| c calls IH]; [reflexivity | exact IH]. Qed.

Lemma routing_of_app (t1 t2 : list Event) :
  routing_of (t1 ++ t2) = routing_of t1 ++ routing_of t2.
Proof. apply omap_app. Qed.

Lemma routing_of_routing (calls : list Lifi.SdkCall) :
  routing_of (Routing <$> calls) = calls.
Proof.
  induction calls as [| c calls IH]; [reflexivity |].
  change (routing_of (Routing <$> c :: calls))
    with (c :: routing_of (Routing <$> calls)).
  by rewrite IH.
Qed.

(** C9.  In a build whose route was found and whose best yield match has a
    protocol slug listed in the caller's blacklist, the build stops before
    the composition: the state goes through [fetching_route] and
    [finding_yield] to [failed], never to [composing] or [ready]; the
    recorded error is "The best yield opportunity is from <protocol>, which
    is in your blacklist", with the protocol of that match; the target
    yield and the composed intent of the state are left as they were; and
    the only calls to the routing service are those of the route quote. *)
Theorem buildIntent_blacklisted_best (sdk : Lifi.Sdk)
    (getBestYield : Z -> string -> option Ens.RiskTolerance -> option Q ->
                    outcome (option Yield.YieldOpportunity))
    (request : Lifi.IntentRequest) (preferences : Ens.UserPreferences)
    (w : World) (r : Lifi.Route) (best : Yield.YieldOpportunity) :
  (Lifi.getBestRoute sdk request).1 = Ret (Some r) ->
  getBestYield (Lifi.toChain request) (Lifi.toToken request)
      (Some (Ens.riskTolerance preferences))
      (Some (inject_Z (Ens.minLiquidityUsd preferences))) = Ret (Some best) ->
  JStr (Yield.protocolSlug best) ∈ Ens.blacklistedProtocols preferences ->
  let message := "The best yield opportunity is from " +:+ Yield.protocol best
                 +:+ ", which is in your blacklist" in
  let run := buildIntent sdk getBestYield request preferences w in
  run.1 = Ret tt
  ∧ step (state run.2) = failed
  ∧ error (state run.2) = Some message
  ∧ targetYield (state run.2) = targetYield (state w)
  ∧ composedIntent (state run.2) = composedIntent (state w)
  ∧ ∃ events, trace run.2 = trace w ++ events
      ∧ steps_of events = [fetching_route; finding_yield; failed]
      ∧ routing_of events = (Lifi.getBestRoute sdk request).2.
Proof.
  intros Hroute Hbest Hblack message run.
  apply includes_str_elem in Hblack.
  subst run. run_hook. rewrite Hroute. simpl. rewrite Hbest. simpl.
  rewrite Hblack. simpl. repeat split.
  eexists. rewrite <- !app_assoc. split; [reflexivity |]. split.
  - rewrite !steps_of_app, steps_of_routing. reflexivity.
  - rewrite !routing_of_app, routing_of_routing. simpl.
    by rewrite app_nil_r.
Qed.

Lemma buildIntent_blacklisted_best_witness :
  let run := buildIntent Sample.sdk_ok Sample.best_is_pendle Sample.request0
               Sample.prefs_no_pendle Sample.world0 in
  step (state run.2) = failed
  ∧ error (state run.2)
    = Some "The best yield opportunity is from Pendle, which is in your blacklist".
Proof.
  destruct (buildIntent_blacklisted_best Sample.sdk_ok Sample.best_is_pendle
              Sample.request0 Sample.prefs_no_pendle Sample.world0
              Sample.route0 Sample.pendle_usdc)
    as (_ & Hstep & Herror & _).
  - vm_compute. reflexivity.
  - reflexivity.
  - vm_compute. apply list_elem_of_here.
  - split; [exact Hstep | exact Herror].
Defined.

(** C10.  Whenever [executeComposedIntent] returns, the record it returns
    has status [completed] and no steps.  Hence a run of [executeIntent]
    that starts with a route and a composed intent ends in [completed], with
    that record stored, exactly when the execution call returns, and ends in
    [failed] exactly when the execution call throws, with the message of the
    thrown error recorded; in both cases the state went through [executing]
    and the routing service was called once, to execute the route. *)
Theorem executeComposedIntent_always_completed :
  (∀ (W : Type) sdk now rid ci r (walletClient : W) x,
      (Lifi.executeComposedIntent sdk now rid ci r walletClient).1 = Ret x ->
      Lifi.status x = Lifi.exec_completed ∧ Lifi.steps x = [])
  ∧ (∀ (W : Type) sdk now rid (captured : IntentState) (walletClient : W)
       (w : World) r ci,
      route captured = Some r -> composedIntent captured = Some ci ->
      let call := Lifi.executeComposedIntent sdk now rid ci r walletClient in
      let run := executeIntent sdk now rid captured walletClient w in
      let started := with_step_error executing None (state w) in
      run.1 = Ret tt
      ∧ trace run.2 = trace w ++ [Update started;
                                  Routing (Lifi.CallExecuteRoute r);
                                  Update (state run.2)]
      ∧ match call.1 with
        | Ret x => state run.2 = with_execution x completed started
        | Throw e =>
            state run.2
            = with_step_error failed (Some (message_or "Execution failed" e))
                started
        end
      ∧ (step (state run.2) = failed <-> ∃ e, call.1 = Throw e)
      ∧ (step (state run.2) = completed <-> ∃ x, call.1 = Ret x)).
Proof.
  split.
  - intros W sdk now rid ci r walletClient x.
    rewrite LifiFacts.executeComposedIntent_outcome. simpl.
    destruct (Lifi.executeRoute sdk r); [| discriminate].
    intros [= <-]. split; reflexivity.
  - intros W sdk now rid captured walletClient w r ci Hr Hci call run started.
    subst call run. unfold executeIntent. rewrite Hr, Hci.
    rewrite LifiFacts.executeComposedIntent_outcome.
    unfold mbind, M_bind, bind, try_catch, setState, await. simpl.
    destruct (Lifi.executeRoute sdk r) as [r' | e]; simpl;
      rewrite <- !app_assoc; simpl; repeat split;
      try discriminate; try (intros [? [=]]); eauto.
Qed.

Lemma executeComposedIntent_always_completed_witness :
  (∃ x, (Lifi.executeComposedIntent Sample.sdk_ok 7 "x1" Sample.composed0
           Sample.route0 tt).1 = Ret x
        ∧ Lifi.status x = Lifi.exec_completed ∧ Lifi.steps x = [])
  ∧ step (state (executeIntent Sample.sdk_reverts 7 "x1" Sample.state_ready tt
                   Sample.world_ready).2) = failed.
Proof.
  destruct executeComposedIntent_always_completed as [Hrecord Hrun]. split.
  - eexists. split; [reflexivity |].
    apply (Hrecord unit Sample.sdk_ok 7 "x1" Sample.composed0 Sample.route0 tt).
    reflexivity.
  - destruct (Hrun unit Sample.sdk_reverts 7 "x1" Sample.state_ready tt
                Sample.world_ready Sample.route0 Sample.composed0
                eq_refl eq_refl) as (_ & _ & _ & Hfailed & _).
    apply Hfailed. eexists. reflexivity.
Defined.

End IntentFacts.

(* ===================================================================== *)
(** * Decimal writing and [parseInt] *)
(* ===================================================================== *)

Module NumberFacts.
Import Js.

Lemma digit_of_pretty_char k :
  (k < 10)%N -> digit_of (pretty_N_char k) = Some (Z.of_N k).
Proof.
  intros Hk.
  assert (k = 0 ∨ k = 1 ∨ k = 2 ∨ k = 3 ∨ k = 4 ∨ k = 5 ∨ k = 6 ∨ k = 7
          ∨ k = 8 ∨ k = 9)%N as Hcases by lia.
  repeat (destruct Hcases as [-> | Hcases]; [reflexivity |]).
  by subst.
Qed.

Lemma parseInt10_pretty_char k r :
  parseInt10 (String (pretty_N_char k) r)
  = digits None (String (pretty_N_char k) r).
Proof. unfold pretty_N_char. by repeat case_match. Qed.

Lemma pretty_N_go_head x s :
  (0 < x)%N -> ∃ k r, pretty_N_go x s = String (pretty_N_char k) r.
Proof.
  revert s. induction (N.lt_wf_0 x) as [x _ IH]; intros s Hx.
  rewrite pretty_N_go_step by done.
  destruct (decide (x `div` 10 = 0)%N) as [-> | Hq].
  - rewrite pretty_N_go_0. eauto.
  - apply IH.
    + apply N.div_lt; lia.
    + apply N.neq_0_lt_0. exact Hq.
Qed.

Lemma digits_pretty_N_go x :
  (0 < x)%N ->
  ∃ m, ∀ s acc,
    digits acc (pretty_N_go x s)
    = digits (Some (default 0 acc * m + Z.of_N x)) s.
Proof.
  induction (N.lt_wf_0 x) as [x _ IH]; intros Hx.
  destruct (decide (x `div` 10 = 0)%N) as [Hq | Hq].
  - exists 10. intros s acc. rewrite pretty_N_go_step, Hq, pretty_N_go_0 by done.
    cbn [digits]. rewrite digit_of_pretty_char by (apply N.mod_lt; lia).
    f_equal. f_equal.
    assert (Hsmall : (x `mod` 10 = x)%N)
      by (apply N.mod_small, N.div_small_iff; [lia | exact Hq]).
    rewrite Hsmall. cbn [default]. lia.
  - destruct (IH (x `div` 10)%N) as [m Hm];
      [apply N.div_lt; lia | by apply N.neq_0_lt_0 |].
    exists (10 * m). intros s acc. rewrite pretty_N_go_step, Hm by done.
    cbn [digits]. rewrite digit_of_pretty_char by (apply N.mod_lt; lia).
    f_equal. f_equal. cbn [default].
    pose proof (N.div_mod x 10 ltac:(lia)) as Hdm.
    generalize dependent (x `mod` 10)%N. generalize dependent (x `div` 10)%N.
    intros. unfold id. subst x. lia.
Qed.

Lemma parseInt10_pretty (n : Z) : 0 <= n -> parseInt10 (pretty n) = Some n.
Proof.
  intros Hn. destruct n as [| p | p]; [reflexivity | | lia].
  change (pretty (Z.pos p)) with (pretty (N.pos p)).
  unfold pretty, pretty_N. rewrite decide_False by done.
  destruct (pretty_N_go_head (N.pos p) "") as (k & r & Hhead); [lia |].
  destruct (digits_pretty_N_go (N.pos p)) as [m Hm]; [lia |].
  rewrite Hhead, parseInt10_pretty_char, <- Hhead, Hm. simpl. reflexivity.
Qed.

Lemma pretty_nonempty (n : Z) : 0 <= n -> pretty n ≠ "".
Proof.
  intros Hn. destruct n as [| p | p]; [discriminate | | lia].
  change (pretty (Z.pos p)) with (pretty (N.pos p)).
  unfold pretty, pretty_N. rewrite decide_False by done.
  destruct (pretty_N_go_head (N.pos p) "") as (k & r & ->); [lia | discriminate].
Qed.
End NumberFacts.

(* ===================================================================== *)
(** * More on the preference resolver *)
(* ===================================================================== *)

Module ProfileFacts.
Import Js Ens EnsFacts.

(** ** Normalization *)

Lemma lower_ascii_idemp c : lower_ascii (lower_ascii c) = lower_ascii c.
Proof. destruct c as [[] [] [] [] [] [] [] []]; reflexivity. Qed.

Lemma is_space_lower c : is_space (lower_ascii c) = is_space c.
Proof. destruct c as [[] [] [] [] [] [] [] []]; reflexivity. Qed.

Lemma toLowerCase_idemp s : toLowerCase (toLowerCase s) = toLowerCase s.
Proof.
  induction s as [| c s IH]; [reflexivity |].
  cbn. by rewrite lower_ascii_idemp, IH.
Qed.

Lemma toLowerCase_trimStart s :
  toLowerCase (trimStart s) = trimStart (toLowerCase s).
Proof.
  induction s as [| c s IH]; [reflexivity |].
  cbn. rewrite is_space_lower. by destruct (is_space c).
Qed.

Lemma toLowerCase_trimEnd s :
  toLowerCase (trimEnd s) = trimEnd (toLowerCase s).
Proof.
  induction s as [| c s IH]; [reflexivity |].
  cbn. rewrite <- IH, is_space_lower.
  destruct (trimEnd s); cbn; [by destruct (is_space c) | reflexivity].
Qed.

Lemma trimEnd_idemp s : trimEnd (trimEnd s) = trimEnd s.
Proof.
  induction s as [| c s IH]; [reflexivity |].
  cbn. destruct (trimEnd s) as [| d t] eqn:Hs.
  - destruct (is_space c) eqn:Hc; [reflexivity |]. cbn. by rewrite Hc.
  - cbn. cbn in IH. by rewrite IH.
Qed.

Lemma trimStart_no_lead s : no_lead (trimStart s).
Proof.
  induction s as [| c s IH]; [exact I |].
  cbn. destruct (is_space c) eqn:Hc; [exact IH | exact Hc].
Qed.

Lemma trimStart_id s : no_lead s -> trimStart s = s.
Proof. destruct s as [| c s]; [done |]. cbn. by intros ->. Qed.

Lemma trimEnd_no_lead s : no_lead s -> no_lead (trimEnd s).
Proof.
  destruct s as [| c s]; [done |]. cbn. intros Hc.
  destruct (trimEnd s); [by rewrite Hc | exact Hc].
Qed.

Lemma trim_idemp s : trim (trim s) = trim s.
Proof.
  unfold trim.
  rewrite (trimStart_id (trimEnd (trimStart s)))
    by apply trimEnd_no_lead, trimStart_no_lead.
  apply trimEnd_idemp.
Qed.

Lemma normalize_idemp h : normalize (normalize h) = normalize h.
Proof.
  unfold normalize, trim.
  rewrite toLowerCase_trimEnd, toLowerCase_trimStart, toLowerCase_idemp.
  apply trim_idemp.
Qed.

(** ** Profiles *)

(** X11.  [getProfile] of a handle and of its normalized form (lower-cased and
    trimmed) are the same: normalizing twice changes nothing. *)
Theorem getProfile_normalized (JSON_parse : string -> option json)
    (client : NamingClient) (handle : string) :
  getProfile JSON_parse client (normalize handle)
  = getProfile JSON_parse client handle.
Proof. unfold getProfile. by rewrite normalize_idemp. Qed.

(** X12.  The three outcomes of [getProfile]: [null] when the handle has no
    address (or the lookup failed); the avatar lookup's exception when that
    lookup rejects; otherwise a profile named by the normalized handle,
    with the resolved address, the avatar (absent when empty), and a follow
    flag that is set exactly when a strategy owner is recorded. *)
Theorem getProfile_outcomes (JSON_parse : string -> option json)
    (client : NamingClient) (handle : string) :
  match truthy_str (resolveName client (normalize handle)) with
  | None => getProfile JSON_parse client handle = Ret None
  | Some addr =>
      match getEnsAvatar client (normalize handle) with
      | Throw e => getProfile JSON_parse client handle = Throw e
      | Ret picture =>
          ∃ profile,
            getProfile JSON_parse client handle = Ret (Some profile)
            ∧ name profile = normalize handle
            ∧ address profile = addr
            ∧ avatar profile = truthy_str picture
            ∧ (isFollowingStrategy profile = true
               <-> is_Some (followedStrategyOwner profile))
      end
  end.
Proof.
  unfold getProfile.
  destruct (truthy_str (resolveName client (normalize handle))) as [addr |];
    [| reflexivity].
  destruct (field (getAllTextRecords client (normalize handle)) K_strategyFollow)
    as [owner |];
    (destruct (getEnsAvatar client (normalize handle)) as [picture | e];
     [| reflexivity]);
    eexists; (split; [reflexivity |]); simpl; repeat split; eauto;
    try discriminate; by intros [? [=]].
Qed.

(** X13.  A handle that resolves and has no (or an empty) strategy record gets
    the preferences parsed from its own records, is not marked as
    following, and its preferences name no strategy owner. *)
Theorem getProfile_own_preferences (JSON_parse : string -> option json)
    (client : NamingClient) (handle addr : string) (picture : option string) :
  truthy_str (resolveName client (normalize handle)) = Some addr ->
  truthy_str (getTextRecord client (normalize handle) K_strategyFollow) = None ->
  getEnsAvatar client (normalize handle) = Ret picture ->
  getProfile JSON_parse client handle
  = Ret (Some {| name := normalize handle;
                 address := addr;
                 avatar := truthy_str picture;
                 preferences :=
                   parsePreferences JSON_parse
                     (getAllTextRecords client (normalize handle));
                 isFollowingStrategy := false;
                 followedStrategyOwner := None |})
  ∧ strategyFollow (parsePreferences JSON_parse
                      (getAllTextRecords client (normalize handle))) = None.
Proof.
  intros Haddr Hnone Havatar.
  assert (Hfield : field (getAllTextRecords client (normalize handle))
                     K_strategyFollow = None).
  { rewrite getAllTextRecords_lookup, Hnone; [reflexivity |].
    unfold ENS_RECORD_KEYS. rewrite list_elem_of_In. simpl. tauto. }
  split.
  - unfold getProfile. by rewrite Haddr, Hfield, Havatar.
  - by rewrite parsePreferences_strategyFollow.
Qed.

(** ** The collected records *)

Lemma getAllTextRecords_raw client name key :
  getAllTextRecords client name !! key
  = if decide (key ∈ ENS_RECORD_KEYS)
    then truthy_str (getTextRecord client name key) else None.
Proof.
  unfold getAllTextRecords.
  set (put := fun (records : gmap string string) k =>
                match truthy_str (getTextRecord client name k) with
                | Some value => <[k := value]> records
                | None => records
                end).
  assert (Hfold : ∀ keys (acc : gmap string string),
             foldl put acc keys !! key
             = if decide (key ∈ keys)
               then match truthy_str (getTextRecord client name key) with
                    | Some v => Some v
                    | None => acc !! key
                    end
               else acc !! key).
  { induction keys as [| k keys IH]; intros acc.
    - reflexivity.
    - cbn [foldl]. rewrite IH.
      destruct (decide (key ∈ keys)) as [Hin | Hout].
      + rewrite decide_True by (by right).
        destruct (truthy_str (getTextRecord client name key)) eqn:Hk; [done |].
        unfold put.
        destruct (truthy_str (getTextRecord client name k)) eqn:Hk'; [| done].
        rewrite lookup_insert_ne; [done |]. intros ->. congruence.
      + destruct (decide (k = key)) as [-> | Hne].
        * rewrite decide_True by (by left). unfold put.
          destruct (truthy_str (getTextRecord client name key)); [| done].
          by rewrite lookup_insert_eq.
        * rewrite decide_False by (by intros [-> | ?]%elem_of_cons).
          unfold put.
          destruct (truthy_str (getTextRecord client name k)); [| done].
          by rewrite lookup_insert_ne. }
  rewrite Hfold. case_decide; [| by rewrite lookup_empty].
  destruct (truthy_str (getTextRecord client name key)); [done |].
  by rewrite lookup_empty.
Qed.

Lemma truthy_str_Some o s : truthy_str o = Some s -> o = Some s ∧ s ≠ "".
Proof.
  destruct o as [t |]; [| discriminate]. unfold truthy_str.
  destruct (decide (t = "")); [discriminate |]. by intros [= <-].
Qed.

(** X14.  [getAllTextRecords] holds a value under a key exactly when the key is
    one of the ten recognised keys and the lookup for the normalized name
    returned that value, which is not empty: failed lookups, absent records
    and empty records leave no entry. *)
Theorem getAllTextRecords_clean (client : NamingClient) (name key value : string) :
  getAllTextRecords client name !! key = Some value <->
  key ∈ ENS_RECORD_KEYS
  ∧ value ≠ ""
  ∧ getEnsText client (normalize name) key = Ret (Some value).
Proof.
  rewrite getAllTextRecords_raw. unfold getTextRecord. split.
  - case_decide as Hkey; [| discriminate].
    intros [Hrecord Hne]%truthy_str_Some. split; [exact Hkey |].
    split; [exact Hne |].
    by destruct (getEnsText client (normalize name) key) as [[t |] | e];
      simplify_eq.
  - intros (Hkey & Hne & ->). rewrite decide_True by done.
    simpl. by rewrite decide_False.
Qed.

(** ** Worked runs *)

Lemma getProfile_own_preferences_witness :
  ∃ profile,
    getProfile read_flat Sample.naming_open " Carol.eth" = Ret (Some profile)
    ∧ name profile = "carol.eth"
    ∧ avatar profile = None
    ∧ riskTolerance (preferences profile) = aggressive
    ∧ maxSlippageBps (preferences profile) = 250
    ∧ isFollowingStrategy profile = false
    ∧ followedStrategyOwner profile = None.
Proof.
  destruct (getProfile_own_preferences read_flat Sample.naming_open
              " Carol.eth" "0x00000000000000000000000000000000000000c2"
              (Some ""))
    as [Hprofile _].
  - vm_compute. reflexivity.
  - vm_compute. reflexivity.
  - reflexivity.
  - eexists. split; [exact Hprofile |]. vm_compute. repeat split.
Defined.

End ProfileFacts.

(* ===================================================================== *)
(** * Writing the preference records *)
(* ===================================================================== *)

Module RecordFacts.
Import Js Ens EnsFacts NumberFacts.

Lemma mapM_toLowerCase_any l :
  Forall (λ c, toLowerCase c = c) l ->
  mapM (M := option) toLowerCase_any (JStr <$> l) = Some l.
Proof.
  induction 1 as [| c l Hc _ IH]; [reflexivity |].
  cbn. rewrite IH. cbn. by rewrite Hc.
Qed.

Lemma risk_of_to_string r : risk_of_string (risk_to_string r) = Some r.
Proof. by destruct r. Qed.

Lemma action_of_to_string a : action_of_string (action_to_string a) = Some a.
Proof. by destruct a. Qed.

Lemma truthy_str_nonempty s : s ≠ "" -> truthy_str (Some s) = Some s.
Proof. intros Hs. unfold truthy_str. by rewrite decide_False. Qed.

Section RoundTrip.

Variable JSON_parse : string -> option json.
Variable JSON_stringify : json -> string.

Lemma recordsOf_lookup p k v :
  (k, v) ∈ serializePreferences JSON_stringify p ->
  recordsOf JSON_stringify p !! k = Some v.
Proof.
  intros Hin. apply elem_of_list_to_map_1; [| exact Hin].
  change ((serializePreferences JSON_stringify p).*1) with ENS_RECORD_KEYS.
  apply (bool_decide_unpack _). vm_compute. reflexivity.
Qed.

Lemma stringify_nonempty v :
  JSON_parse "" = None -> JSON_parse (JSON_stringify v) = Some v ->
  JSON_stringify v ≠ "".
Proof. intros Hempty Hback Heq. rewrite Heq in Hback. congruence. Qed.

Lemma field_recordsOf p k v :
  (k, v) ∈ serializePreferences JSON_stringify p -> v ≠ "" ->
  field (recordsOf JSON_stringify p) k = Some v.
Proof.
  intros Hin Hv. unfold field. rewrite (recordsOf_lookup p k v Hin).
  by apply truthy_str_nonempty.
Qed.

Ltac listed :=
  unfold serializePreferences; rewrite list_elem_of_In; simpl; tauto.

(** Each block, run on the records written from [p]. *)

Lemma block_preferredChains p q :
  JSON_parse "" = None ->
  reads_back JSON_parse JSON_stringify (JArr (JStr <$> preferredChains p)) ->
  Forall (λ c, toLowerCase c = c) (preferredChains p) ->
  parse_preferredChains JSON_parse (recordsOf JSON_stringify p) q
  = set_preferredChains (preferredChains p) q.
Proof.
  intros Hempty Hback Hlower. unfold parse_preferredChains.
  rewrite (field_recordsOf p K_preferredChains
             (JSON_stringify (JArr (JStr <$> preferredChains p))))
    by (first [listed | by apply stringify_nonempty]).
  rewrite Hback. by rewrite mapM_toLowerCase_any.
Qed.

Lemma block_riskTolerance p q :
  parse_riskTolerance (recordsOf JSON_stringify p) q
  = set_whitelistedProtocols (JStr <$> RISK_TOLERANCE_MAP (riskTolerance p))
      (set_riskTolerance (riskTolerance p) q).
Proof.
  unfold parse_riskTolerance.
  rewrite (field_recordsOf p K_riskTolerance (risk_to_string (riskTolerance p)))
    by (first [listed | by destruct (riskTolerance p)]).
  by rewrite risk_of_to_string.
Qed.

Lemma block_maxSlippageBps p q :
  1 <= maxSlippageBps p <= 1000 ->
  parse_maxSlippageBps (recordsOf JSON_stringify p) q
  = set_maxSlippageBps (maxSlippageBps p) q.
Proof.
  intros Hslip. unfold parse_maxSlippageBps.
  rewrite (field_recordsOf p K_maxSlippageBps (pretty (maxSlippageBps p)))
    by (first [listed | apply pretty_nonempty; lia]).
  rewrite parseInt10_pretty by lia.
  replace ((0 <? maxSlippageBps p) && (maxSlippageBps p <=? 1000)) with true;
    [reflexivity |].
  symmetry. apply andb_true_iff. split; [apply Z.ltb_lt | apply Z.leb_le]; lia.
Qed.

Lemma block_defaultAction p q :
  parse_defaultAction (recordsOf JSON_stringify p) q
  = set_defaultAction (defaultAction p) q.
Proof.
  unfold parse_defaultAction.
  rewrite (field_recordsOf p K_defaultAction (action_to_string (defaultAction p)))
    by (first [listed | by destruct (defaultAction p)]).
  by rewrite action_of_to_string.
Qed.

Lemma block_whitelistedProtocols p q :
  JSON_parse "" = None ->
  reads_back JSON_parse JSON_stringify (JArr (whitelistedProtocols p)) ->
  parse_whitelistedProtocols JSON_parse (recordsOf JSON_stringify p) q
  = set_whitelistedProtocols (whitelistedProtocols p) q.
Proof.
  intros Hempty Hback. unfold parse_whitelistedProtocols.
  rewrite (field_recordsOf p K_whitelistedProtocols
             (JSON_stringify (JArr (whitelistedProtocols p))))
    by (first [listed | by apply stringify_nonempty]).
  by rewrite Hback.
Qed.

Lemma block_blacklistedProtocols p q :
  JSON_parse "" = None ->
  reads_back JSON_parse JSON_stringify (JArr (blacklistedProtocols p)) ->
  parse_blacklistedProtocols JSON_parse (recordsOf JSON_stringify p) q
  = set_blacklistedProtocols (blacklistedProtocols p) q.
Proof.
  intros Hempty Hback. unfold parse_blacklistedProtocols.
  rewrite (field_recordsOf p K_blacklistedProtocols
             (JSON_stringify (JArr (blacklistedProtocols p))))
    by (first [listed | by apply stringify_nonempty]).
  by rewrite Hback.
Qed.

Lemma block_minLiquidityUsd p q :
  0 <= minLiquidityUsd p ->
  parse_minLiquidityUsd (recordsOf JSON_stringify p) q
  = set_minLiquidityUsd (minLiquidityUsd p) q.
Proof.
  intros Hliq. unfold parse_minLiquidityUsd.
  rewrite (field_recordsOf p K_minLiquidityUsd (pretty (minLiquidityUsd p)))
    by (first [listed | apply pretty_nonempty; lia]).
  rewrite parseInt10_pretty by lia.
  by replace (0 <=? minLiquidityUsd p) with true
    by (symmetry; apply Z.leb_le; lia).
Qed.

Lemma block_strategyFollow p q :
  strategyFollow p ≠ Some "" ->
  parse_strategyFollow (recordsOf JSON_stringify p) q
  = match strategyFollow p with
    | Some s => set_strategyFollow (Some s) q
    | None => q
    end.
Proof.
  intros Hfollow. unfold parse_strategyFollow, field.
  rewrite (recordsOf_lookup p K_strategyFollow
             (default "" (truthy_str (strategyFollow p)))) by listed.
  destruct (strategyFollow p) as [s |]; [| reflexivity].
  simpl. destruct (decide (s = "")) as [-> | Hs]; [done |].
  simpl. by rewrite decide_False.
Qed.

Lemma block_autoRebalance p q :
  parse_autoRebalance (recordsOf JSON_stringify p) q
  = set_autoRebalance (autoRebalance p) q.
Proof.
  unfold parse_autoRebalance.
  rewrite (field_recordsOf p K_autoRebalance
             (if autoRebalance p then "true" else "false"))
    by (first [listed | by destruct (autoRebalance p)]).
  by destruct (autoRebalance p).
Qed.

Lemma block_notificationPrefs p q :
  JSON_parse "" = None ->
  reads_back JSON_parse JSON_stringify (notificationPrefs p) ->
  typeof_object (notificationPrefs p) = true ->
  parse_notificationPrefs JSON_parse (recordsOf JSON_stringify p) q
  = set_notificationPrefs (notificationPrefs p) q.
Proof.
  intros Hempty Hback Hobj. unfold parse_notificationPrefs.
  rewrite (field_recordsOf p K_notificationPrefs
             (JSON_stringify (notificationPrefs p)))
    by (first [listed | by apply stringify_nonempty]).
  by rewrite Hback, Hobj.
Qed.

(** X15.  Preferences written by [serializePreferences] are read back unchanged
    by [parsePreferences] when they are in the range the parser accepts:
    chain names in lower case, slippage from 1 to 1000, liquidity from 0
    (and exactly representable), no empty strategy owner, notification
    preferences that are an object, and JSON values that [JSON.parse] reads
    back (it rejects the empty text). *)
Theorem serialize_parse_round_trip (p : UserPreferences) :
  JSON_parse "" = None ->
  reads_back JSON_parse JSON_stringify (JArr (JStr <$> preferredChains p)) ->
  reads_back JSON_parse JSON_stringify (JArr (whitelistedProtocols p)) ->
  reads_back JSON_parse JSON_stringify (JArr (blacklistedProtocols p)) ->
  reads_back JSON_parse JSON_stringify (notificationPrefs p) ->
  Forall (λ c, toLowerCase c = c) (preferredChains p) ->
  1 <= maxSlippageBps p <= 1000 ->
  0 <= minLiquidityUsd p < 2 ^ 53 ->
  strategyFollow p ≠ Some "" ->
  typeof_object (notificationPrefs p) = true ->
  parsePreferences JSON_parse (recordsOf JSON_stringify p) = p.
Proof.
  intros Hempty Hchains Hwhite Hblack Hnotif Hlower Hslip Hliq Hfollow Hobj.
  unfold parsePreferences. cbv zeta.
  rewrite block_preferredChains, block_riskTolerance, block_maxSlippageBps,
    block_defaultAction, block_whitelistedProtocols,
    block_blacklistedProtocols, block_minLiquidityUsd, block_strategyFollow,
    block_autoRebalance, block_notificationPrefs by (done || lia).
  clear. destruct p as [chains risk slip act wl bl liq [s |] auto notif];
    reflexivity.
Qed.

End RoundTrip.

(** ** Names *)

Lemma endsWith_spec s suffix :
  endsWith s suffix = true <-> ∃ label, s = label +:+ suffix.
Proof.
  induction s as [| c s IH]; cbn [endsWith].
  - destruct (decide ("" = suffix)) as [<- | Hne].
    + split; [by exists "" | done].
    + split; [discriminate |]. intros [label Heq].
      destruct label; cbn in Heq; [done | discriminate].
  - destruct (decide (String c s = suffix)) as [<- | Hne].
    + split; [by exists "" | done].
    + rewrite IH. split.
      * intros [label ->]. by exists (String c label).
      * intros [label Heq]. destruct label as [| d label]; cbn in Heq.
        { by subst. }
        injection Heq as -> ->. by exists label.
Qed.

(** X16.  [isValidEnsName] accepts exactly the names whose lower-casing is some
    label, possibly empty, followed by one of the five suffixes. *)
Theorem isValidEnsName_suffix (name : string) :
  isValidEnsName name = true <->
  ∃ label tld, tld ∈ validTlds ∧ toLowerCase name = label +:+ tld.
Proof.
  unfold isValidEnsName. rewrite existsb_exists. split.
  - intros (tld & Hin & [label Hlabel]%endsWith_spec).
    exists label, tld. by rewrite list_elem_of_In.
  - intros (label & tld & Hin & Heq). exists tld.
    rewrite <- list_elem_of_In. split; [exact Hin |].
    apply endsWith_spec. by exists label.
Qed.

(** ** The resolver hook *)

Lemma hookResolveName_invalid JSON_parse client name s :
  name = "" ∨ isValidEnsName name = false ->
  hookResolveName JSON_parse client name s
  = (None, {| rs_profile := rs_profile s; rs_isLoading := rs_isLoading s;
              rs_error := Some "Invalid ENS name" |}).
Proof.
  intros Hbad. unfold hookResolveName.
  destruct Hbad as [-> | ->]; [reflexivity |].
  by rewrite orb_true_r.
Qed.

Lemma hookResolveName_valid JSON_parse client name s :
  name ≠ "" -> isValidEnsName name = true ->
  hookResolveName JSON_parse client name s
  = match getProfile JSON_parse client name with
    | Ret (Some resolvedProfile) =>
        (Some resolvedProfile,
         {| rs_profile := Some resolvedProfile; rs_isLoading := false;
            rs_error := None |})
    | Ret None =>
        (None,
         {| rs_profile := None; rs_isLoading := false;
            rs_error := Some ("ENS name " +:+ quoted name
                              +:+ " not found on Sepolia testnet") |})
    | Throw e =>
        (None,
         {| rs_profile := None; rs_isLoading := false;
            rs_error := Some (message_or "Failed to resolve ENS" e) |})
    end.
Proof.
  intros Hname Hvalid. unfold hookResolveName.
  by rewrite Hvalid, bool_decide_true.
Qed.

(** X17.  [useENS().resolveName]: the call returns [null] exactly when it leaves
    an error message; a returned profile is the one [getProfile] produced
    and is stored; a name that is empty or has no valid suffix sets the
    message and leaves the stored profile and the loading flag as they
    were; for any other name the stored profile is the returned one and the
    loading flag ends false. *)
Theorem hookResolveName_cells (JSON_parse : string -> option json)
    (client : NamingClient) (name : string) (s : ResolverState) :
  let run := hookResolveName JSON_parse client name s in
  (run.1 = None <-> is_Some (rs_error run.2))
  ∧ (∀ profile, run.1 = Some profile ->
       getProfile JSON_parse client name = Ret (Some profile)
       ∧ rs_profile run.2 = Some profile)
  ∧ (name = "" ∨ isValidEnsName name = false ->
       rs_error run.2 = Some "Invalid ENS name"
       ∧ rs_profile run.2 = rs_profile s
       ∧ rs_isLoading run.2 = rs_isLoading s)
  ∧ (name ≠ "" -> isValidEnsName name = true ->
       rs_profile run.2 = run.1 ∧ rs_isLoading run.2 = false).
Proof.
  cbv zeta.
  destruct (decide (name = "")) as [Hempty | Hname];
    [| destruct (isValidEnsName name) eqn:Hvalid].
  - rewrite hookResolveName_invalid by (by left). simpl.
    split; [split; eauto |]. split; [discriminate |]. split; [done | done].
  - rewrite hookResolveName_valid by done.
    destruct (getProfile JSON_parse client name) as [[profile |] | e]; simpl.
    + split; [split; [discriminate | by intros [? [=]]] |].
      split; [by intros ? [= <-] |]. split; [by intros [? | [=]] | done].
    + split; [split; eauto |]. split; [discriminate |].
      split; [by intros [? | [=]] | done].
    + split; [split; eauto |]. split; [discriminate |].
      split; [by intros [? | [=]] | done].
  - rewrite hookResolveName_invalid by (by right). simpl.
    split; [split; eauto |]. split; [discriminate |]. split; [done | done].
Qed.

(** ** Transactions *)

Lemma buildSetTextTransaction_Some enc name key value tx :
  buildSetTextTransaction enc name key value = Some tx ->
  getResolver enc name = Some (resolverAddress tx)
  ∧ resolverAddress tx ≠ ""
  ∧ ∃ node, namehash enc (trim (toLowerCase name)) = Ret node
            ∧ encodeSetText enc node key value = Ret (txData tx).
Proof.
  unfold buildSetTextTransaction.
  destruct (namehash enc (trim (toLowerCase name))) as [node | e] eqn:Hnode;
    [| discriminate].
  destruct (getResolver enc name) as [resolver |] eqn:Hres; [| discriminate].
  simpl. destruct (decide (resolver = "")) as [-> | Hne]; [discriminate |].
  destruct (encodeSetText enc node key value) as [d | e] eqn:Henc;
    [| discriminate].
  intros [= <-]. simpl. eauto.
Qed.

Lemma omap_length_le {A B} (f : A -> option B) l :
  (length (omap f l) <= length l)%nat.
Proof.
  induction l as [| a l IH]; [done |]. cbn. destruct (f a); simpl; lia.
Qed.

(** X18.  [buildUpdatePreferencesTransactions] returns at most ten transactions;
    each is addressed to the resolver of the name and carries the encoding
    of one serialized record; without a resolver the list is empty (and is
    not [null]). *)
Theorem buildUpdatePreferencesTransactions_resolver (enc : Encoder)
    (JSON_stringify : json -> string) (name : string) (prefs : UserPreferences) :
  let txs := buildUpdatePreferencesTransactions enc JSON_stringify name prefs in
  (length txs <= 10)%nat
  ∧ Forall (λ tx, getResolver enc name = Some (resolverAddress tx)
                  ∧ ∃ node key value,
                      (key, value) ∈ serializePreferences JSON_stringify prefs
                      ∧ namehash enc (trim (toLowerCase name)) = Ret node
                      ∧ encodeSetText enc node key value = Ret (txData tx))
      txs
  ∧ (getResolver enc name = None -> txs = []).
Proof.
  cbv zeta. unfold buildUpdatePreferencesTransactions. split; [| split].
  - apply (omap_length_le _ (serializePreferences JSON_stringify prefs)).
  - apply Forall_forall. intros tx [[key value] [Hin Htx]]%list_elem_of_omap.
    apply buildSetTextTransaction_Some in Htx
      as (Hres & _ & node & Hnode & Henc).
    split; [exact Hres |]. by exists node, key, value.
  - intros Hnone.
    assert (Hall : ∀ key value,
               buildSetTextTransaction enc name key value = None).
    { intros key value. unfold buildSetTextTransaction. rewrite Hnone.
      by destruct (namehash enc (trim (toLowerCase name))). }
    induction (serializePreferences JSON_stringify prefs) as [| kv l IH];
      [reflexivity |].
    cbn. by rewrite Hall.
Qed.

(** X19.  When the name has a resolver and every record can be encoded,
    [buildUpdatePreferencesTransactions] returns one transaction per
    serialized record, in the order of the records, all addressed to that
    resolver. *)
Theorem buildUpdatePreferencesTransactions_complete (enc : Encoder)
    (JSON_stringify : json -> string) (name : string) (prefs : UserPreferences)
    (node resolver : string) (encoded : string -> string -> string) :
  namehash enc (trim (toLowerCase name)) = Ret node ->
  getResolver enc name = Some resolver ->
  resolver ≠ "" ->
  (∀ key value, encodeSetText enc node key value = Ret (encoded key value)) ->
  buildUpdatePreferencesTransactions enc JSON_stringify name prefs
  = (λ kv, {| resolverAddress := resolver; txData := encoded kv.1 kv.2 |})
      <$> serializePreferences JSON_stringify prefs.
Proof.
  intros Hnode Hres Hne Henc. unfold buildUpdatePreferencesTransactions.
  assert (Hall : ∀ key value,
             buildSetTextTransaction enc name key value
             = Some {| resolverAddress := resolver;
                       txData := encoded key value |}).
  { intros key value. unfold buildSetTextTransaction.
    rewrite Hnode, Hres. simpl. rewrite decide_False by done.
    by rewrite Henc. }
  induction (serializePreferences JSON_stringify prefs) as [| kv l IH];
    [reflexivity |].
  cbn. by rewrite Hall, IH.
Qed.

Lemma serialize_parse_round_trip_witness :
  parsePreferences read_flat (recordsOf write_flat Sample.prefs_custom)
  = Sample.prefs_custom.
Proof.
  apply (serialize_parse_round_trip read_flat write_flat Sample.prefs_custom).
  - reflexivity.
  - vm_compute. reflexivity.
  - vm_compute. reflexivity.
  - vm_compute. reflexivity.
  - vm_compute. reflexivity.
  - repeat constructor.
  - simpl. lia.
  - simpl. lia.
  - discriminate.
  - reflexivity.
Defined.

Lemma buildUpdatePreferencesTransactions_complete_witness :
  buildUpdatePreferencesTransactions Sample.encoder_ok write_flat "Bob.eth"
    Sample.prefs_custom
  = (λ kv, {| resolverAddress := "0x8FADE66B79cC9f707aB26799354482EB93a5B7dD";
              txData := "node:bob.eth|" +:+ kv.1 +:+ "|" +:+ kv.2 |})
      <$> serializePreferences write_flat Sample.prefs_custom.
Proof.
  apply (buildUpdatePreferencesTransactions_complete Sample.encoder_ok
           write_flat "Bob.eth" Sample.prefs_custom "node:bob.eth"
           "0x8FADE66B79cC9f707aB26799354482EB93a5B7dD"
           (fun key value => "node:bob.eth|" +:+ key +:+ "|" +:+ value)).
  - vm_compute. reflexivity.
  - vm_compute. reflexivity.
  - discriminate.
  - reflexivity.
Defined.

End RecordFacts.

(* ===================================================================== *)
(** * More on the yield aggregator *)
(* ===================================================================== *)

Module SourceFacts.
Import Js Yield YieldFacts.

Lemma withRetry_outcome {A : Type} (fn : nat -> outcome A * list string)
    (attempt remaining : nat) :
  let run := withRetry fn attempt remaining in
  match run.1 with
  | Ret a =>
      ∃ k, (k <= remaining)%nat
        ∧ (fn (attempt + k)%nat).1 = Ret a
        ∧ (∀ j, (j < k)%nat -> ∃ e, (fn (attempt + j)%nat).1 = Throw e)
        ∧ run.2 = attempts_log fn attempt k
  | Throw e =>
      (fn (attempt + remaining)%nat).1 = Throw e
      ∧ (∀ j, (j <= remaining)%nat -> ∃ e', (fn (attempt + j)%nat).1 = Throw e')
      ∧ run.2 = attempts_log fn attempt remaining
  end.
Proof.
  revert attempt. induction remaining as [| r IH]; intros attempt; simpl.
  - destruct (fn attempt) as [[a | e] log] eqn:Hfn; simpl.
    + exists 0%nat. rewrite Nat.add_0_r, Hfn.
      split; [lia |]. split; [reflexivity |]. split; [intros; lia | simpl; rewrite ?Hfn; reflexivity].
    + rewrite Nat.add_0_r, Hfn. split; [reflexivity |]. split; [| simpl; rewrite ?Hfn; reflexivity].
      intros j Hj. replace j with 0%nat by lia. rewrite Nat.add_0_r, Hfn. eauto.
  - destruct (fn attempt) as [[a | e] log] eqn:Hfn; simpl.
    + exists 0%nat. rewrite Nat.add_0_r, Hfn.
      split; [lia |]. split; [reflexivity |]. split; [intros; lia | simpl; rewrite ?Hfn; reflexivity].
    + specialize (IH (S attempt)). cbv zeta in IH.
      destruct (withRetry fn (S attempt) r) as [[a | e'] log'] eqn:Hrec;
        simpl in *.
      * destruct IH as (k & Hk & Hret & Hthrows & Hlog).
        exists (S k). rewrite Nat.add_succ_r.
        split; [lia |]. split; [exact Hret |]. split.
        -- intros [| j] Hj; [rewrite Nat.add_0_r, Hfn; eauto |].
           rewrite Nat.add_succ_r. apply Hthrows. lia.
        -- simpl. rewrite ?Hfn, ?Hlog. reflexivity.
      * destruct IH as (Hlast & Hthrows & Hlog).
        rewrite Nat.add_succ_r. split; [exact Hlast |]. split.
        -- intros [| j] Hj; [rewrite Nat.add_0_r, Hfn; eauto |].
           rewrite Nat.add_succ_r. apply Hthrows. lia.
        -- simpl. rewrite ?Hfn, ?Hlog. reflexivity.
Qed.

(** X1.  [withRetry] returns what the first successful attempt returned.  When it
    returns [a], some attempt [k <= maxRetries] returned [a], every attempt
    before it threw, and the requests made are those of attempts [0..k], in
    order.  When it throws [e], all [maxRetries + 1] attempts threw, [e] is
    what the last one threw, and the requests are those of all of them. *)
Theorem withRetry_first_success {A : Type} (fn : nat -> outcome A * list string)
    (maxRetries : nat) :
  let run := withRetry fn 0 maxRetries in
  match run.1 with
  | Ret a =>
      ∃ k, (k <= maxRetries)%nat
        ∧ (fn k).1 = Ret a
        ∧ (∀ j, (j < k)%nat -> ∃ e, (fn j).1 = Throw e)
        ∧ run.2 = attempts_log fn 0 k
  | Throw e =>
      (fn maxRetries).1 = Throw e
      ∧ (∀ j, (j <= maxRetries)%nat -> ∃ e', (fn j).1 = Throw e')
      ∧ run.2 = attempts_log fn 0 maxRetries
  end.
Proof. exact (withRetry_outcome fn 0 maxRetries). Qed.

Lemma llama_attempt_log net source n :
  (llama_attempt net source n).2 = [url_base source +:+ "/pools"].
Proof.
  unfold llama_attempt.
  destruct (fetch_llama net n _) as [response | e]; [| reflexivity].
  destruct (ok response); [| reflexivity].
  by destruct (body response).
Qed.

Lemma attempts_log_llama net source from n :
  attempts_log (llama_attempt net source) from n
  = replicate (S n) (url_base source +:+ "/pools").
Proof.
  revert from. induction n as [| n IH]; intros from; simpl.
  - apply llama_attempt_log.
  - by rewrite llama_attempt_log, IH.
Qed.

Lemma llama_requests (net : Net) (svc : YieldService)
    (source : YieldSourceConfig) :
  find_source svc "defillama" = Some source ->
  let run := fetchDefiLlamaYields net svc in
  let url := url_base source +:+ "/pools" in
  match run.1 with
  | Ret l =>
      ∃ k, (k <= 2)%nat
        ∧ (llama_attempt net source k).1 = Ret l
        ∧ run.2 = replicate (S k) url
  | Throw e =>
      (llama_attempt net source 2).1 = Throw e
      ∧ run.2 = [url; url; url]
  end.
Proof.
  intros Hsource run url. subst run. unfold fetchDefiLlamaYields.
  rewrite Hsource.
  pose proof (withRetry_outcome (llama_attempt net source) 0 2) as Hrun.
  cbv zeta in Hrun.
  destruct (withRetry (llama_attempt net source) 0 2) as [[l | e] log];
    cbn [fst snd] in *.
  - destruct Hrun as (k & Hk & Hret & _ & Hlog). exists k.
    by rewrite Hlog, attempts_log_llama.
  - destruct Hrun as (Hlast & _ & Hlog).
    by rewrite Hlog, attempts_log_llama.
Qed.

(** ** The Yearn adapter, chain by chain *)

Lemma foldl_yearn net source cids (acc : list YieldOpportunity * list string) :
  foldl (fun acc cid =>
           let '(ys, log) := yearn_chain net source cid in
           (acc.1 ++ ys, acc.2 ++ log)) acc cids
  = (acc.1 ++ flat_map (fun cid => (yearn_chain net source cid).1) cids,
     acc.2 ++ flat_map (fun cid => (yearn_chain net source cid).2) cids).
Proof.
  revert acc. induction cids as [| cid cids IH]; intros [ys log]; simpl.
  - by rewrite !app_nil_r.
  - rewrite IH. destruct (yearn_chain net source cid) as [ys' log']. simpl.
    by rewrite !app_assoc.
Qed.

Lemma yearn_chain_log net source cid :
  (yearn_chain net source cid).2
  = [url_base source +:+ "/" +:+ pretty cid +:+ "/vaults/all"].
Proof.
  unfold yearn_chain.
  destruct (fetch_yearn net _) as [response | e]; [| reflexivity].
  destruct (ok response); [| reflexivity].
  by destruct (body response).
Qed.

Lemma yearn_per_chain (net : Net) (svc : YieldService)
    (source : YieldSourceConfig) :
  find_source svc "yearn" = Some source ->
  let run := fetchYearnYields net svc in
  run.1 = flat_map (fun cid => (yearn_chain net source cid).1) (chains source)
  ∧ run.2 = (fun cid => url_base source +:+ "/" +:+ pretty cid +:+ "/vaults/all")
              <$> chains source
  ∧ ∀ cid,
      (∀ response, fetch_yearn net (url_base source +:+ "/" +:+ pretty cid
                                    +:+ "/vaults/all") = Ret response ->
                   ok response = false ∨ ∃ e, body response = Throw e) ->
      (yearn_chain net source cid).1 = [].
Proof.
  intros Hsource run. subst run. unfold fetchYearnYields. rewrite Hsource.
  rewrite foldl_yearn. simpl. split; [reflexivity |]. split.
  - induction (chains source) as [| cid cids IH]; [reflexivity |].
    simpl. by rewrite yearn_chain_log, IH.
  - intros cid Hfail. unfold yearn_chain.
    destruct (fetch_yearn net _) as [response | e]; [| reflexivity].
    destruct (Hfail response eq_refl) as [-> | [e ->]]; [reflexivity |].
    by destruct (ok response).
Qed.

(** ** The service keeps its sources *)

Lemma fetchAllYields_sources net now svc :
  sources (fetchAllYields net now svc).1.2 = sources svc.
Proof.
  destruct (hit_or_stale now svc) as [(cached & Hcached & Hfresh) | Hstale].
  - by rewrite (fetchAllYields_hit _ _ _ _ Hcached Hfresh).
  - rewrite (fetchAllYields_miss _ _ _ Hstale).
    by destruct (fetchDefiLlamaYields net svc).1.
Qed.

Lemma reachable_sources svc :
  reachable svc -> sources svc = sources new_service.
Proof.
  induction 1 as [| net now svc _ IH | svc _ IH]; [reflexivity | | exact IH].
  by rewrite fetchAllYields_sources.
Qed.

Lemma reachable_find_source svc n :
  reachable svc -> find_source svc n = find_source new_service n.
Proof. intros Hreach. unfold find_source. by rewrite reachable_sources. Qed.

(** X2.  [fetchAllYields] throws exactly when the cache does not serve the call
    and the DefiLlama adapter throws, with the same value: no failure of
    the Yearn adapter makes it throw.  When it throws the service is left
    as it was (nothing is cached) although both adapters have made their
    requests; when the cache is stale and DefiLlama answers [l], the result
    is [l] followed by the Yearn opportunities, sorted by APY. *)
Theorem fetchAllYields_failure_policy (net : Net) (now : Z) (svc : YieldService) :
  let run := fetchAllYields net now svc in
  (∀ e, run.1.1 = Throw e <->
        stale now svc ∧ (fetchDefiLlamaYields net svc).1 = Throw e)
  ∧ (∀ e, run.1.1 = Throw e ->
        run.1.2 = svc
        ∧ run.2 = (fetchDefiLlamaYields net svc).2 ++ (fetchYearnYields net svc).2)
  ∧ (stale now svc ->
     ∀ l, (fetchDefiLlamaYields net svc).1 = Ret l ->
          run.1.1 = Ret (sort_by by_apy_desc (l ++ (fetchYearnYields net svc).1))).
Proof.
  intros run. subst run.
  destruct (hit_or_stale now svc) as [(cached & Hcached & Hfresh) | Hstale].
  - rewrite (fetchAllYields_hit _ _ _ _ Hcached Hfresh). simpl.
    assert (Hnot : ¬ stale now svc) by (unfold stale; rewrite Hcached; lia).
    split; [| split]; [| discriminate | done].
    intros e. split; [discriminate | by intros [? _]].
  - rewrite (fetchAllYields_miss _ _ _ Hstale).
    destruct (fetchDefiLlamaYields net svc).1 as [l | e0] eqn:Hllama; simpl.
    + split; [| split]; [| discriminate | by intros _ l' [= <-]].
      intros e. split; [discriminate | by intros [_ ?]].
    + split; [| split]; [| by intros e [= <-] | by intros _ l' ?].
      intros e. split; [by intros [= <-] | by intros [_ [= <-]]].
Qed.


(** X3.  The DefiLlama adapter asks one address, [baseUrl/pools], between one
    and three times: it returns what attempt [k <= 2] produced after [k + 1]
    requests, and throws what the third attempt threw after three. *)
Theorem fetchDefiLlamaYields_requests (net : Net) (svc : YieldService)
    (source : YieldSourceConfig) :
  find_source svc "defillama" = Some source ->
  let run := fetchDefiLlamaYields net svc in
  let url := url_base source +:+ "/pools" in
  match run.1 with
  | Ret l =>
      ∃ k, (k <= 2)%nat
        ∧ (llama_attempt net source k).1 = Ret l
        ∧ run.2 = replicate (S k) url
  | Throw e =>
      (llama_attempt net source 2).1 = Throw e
      ∧ run.2 = [url; url; url]
  end.
Proof. exact (llama_requests net svc source). Qed.

Lemma yearn_listings cid vaults :
  Forall2 (yearn_listing cid)
    (filter (fun v => v_type v = "v3" ∧ v_kind v = "Vault") vaults)
    (omap (yearn_opportunity cid) vaults).
Proof.
  induction vaults as [| v vaults IH]; [constructor |].
  rewrite filter_cons.
  change (omap (yearn_opportunity cid) (v :: vaults))
    with (match yearn_opportunity cid v with
          | Some y => y :: omap (yearn_opportunity cid) vaults
          | None => omap (yearn_opportunity cid) vaults
          end).
  unfold yearn_opportunity at 1.
  destruct (decide (v_type v = "v3" ∧ v_kind v = "Vault")) as [[Ht Hk] | Hno].
  - rewrite !bool_decide_true by done. cbn [andb]. constructor; [| exact IH].
    unfold yearn_listing. simpl. repeat split.
    by destruct (v_token_address v) as [a |]; [simpl; destruct (decide (a = "")) |].
  - replace (bool_decide (v_type v = "v3") && bool_decide (v_kind v = "Vault"))
      with false; [exact IH |].
    symmetry. apply andb_false_iff.
    destruct (decide (v_type v = "v3")) as [Ht | Ht];
      [right | left]; apply bool_decide_eq_false; tauto.
Qed.

Lemma yearn_chain_listing net source cid :
  match fetch_yearn net (url_base source +:+ "/" +:+ pretty cid +:+ "/vaults/all") with
  | Ret response =>
      match ok response, body response with
      | true, Ret vaults =>
          Forall2 (yearn_listing cid)
            (filter (fun v => v_type v = "v3" ∧ v_kind v = "Vault") vaults)
            (yearn_chain net source cid).1
      | _, _ => (yearn_chain net source cid).1 = []
      end
  | Throw _ => (yearn_chain net source cid).1 = []
  end.
Proof.
  unfold yearn_chain.
  destruct (fetch_yearn net _) as [response | e]; [| reflexivity].
  destruct (ok response); [| reflexivity].
  destruct (body response) as [vaults | e]; [| reflexivity].
  apply yearn_listings.
Qed.

Lemma flat_map_concat {A B} (f : A -> list B) l :
  flat_map f l = concat (f <$> l).
Proof. induction l as [| a l IH]; [reflexivity |]. cbn. by rewrite IH. Qed.

(** X4.  The Yearn adapter asks [baseUrl/<chain>/vaults/all] once for every
    chain of its configuration, in order, and returns what the chains
    contribute, chain after chain.  A chain that answers ok with a list of
    vaults contributes one opportunity for each vault of type v3 and kind
    Vault, in the order of the answer, with the fields the adapter
    writes: the vault's address, symbol, name, APY and TVL (0 when
    absent), the chain, the Yearn V3 protocol and the medium risk level.
    A chain whose request is rejected, answered with a status that is not
    ok, or whose body cannot be read contributes nothing and does not stop
    the others. *)
Theorem fetchYearnYields_per_chain (net : Net) (svc : YieldService)
    (source : YieldSourceConfig) :
  find_source svc "yearn" = Some source ->
  let run := fetchYearnYields net svc in
  let url := fun cid =>
    url_base source +:+ "/" +:+ pretty cid +:+ "/vaults/all" in
  run.2 = url <$> chains source
  ∧ ∃ per_chain,
      run.1 = concat per_chain
      ∧ Forall2 (fun cid ys =>
           match fetch_yearn net (url cid) with
           | Ret response =>
               match ok response, body response with
               | true, Ret vaults =>
                   Forall2 (yearn_listing cid)
                     (filter (fun v => v_type v = "v3" ∧ v_kind v = "Vault")
                        vaults)
                     ys
               | _, _ => ys = []
               end
           | Throw _ => ys = []
           end) (chains source) per_chain.
Proof.
  intros Hsource run url. subst run url.
  destruct (yearn_per_chain net svc source Hsource) as (Hrun & Hlog & _).
  split; [exact Hlog |].
  exists ((fun cid => (yearn_chain net source cid).1) <$> chains source).
  split; [by rewrite Hrun, flat_map_concat |].
  apply Forall2_fmap_r, Forall_Forall2_diag, Forall_forall.
  intros cid _. apply yearn_chain_listing.
Qed.

Lemma clearCache_fresh svc : reachable svc -> clearCache svc = new_service.
Proof.
  intros Hreach. unfold clearCache. by rewrite (reachable_sources _ Hreach).
Qed.

(** X5.  After [clearCache] a service is the freshly constructed one, the next
    [fetchAllYields] is not served from the cache at any time, and it makes
    between six and eight requests (one to three to DefiLlama and one for
    each of the five Yearn chains). *)
Theorem clearCache_forces_refetch (net : Net) (now : Z) (svc : YieldService) :
  reachable svc ->
  let run := fetchAllYields net now (clearCache svc) in
  clearCache svc = new_service
  ∧ stale now (clearCache svc)
  ∧ (6 <= length run.2 <= 8)%nat.
Proof.
  intros Hreach run. subst run. rewrite (clearCache_fresh _ Hreach).
  split; [reflexivity |].
  assert (Hstale : stale now new_service) by exact I.
  split; [exact Hstale |].
  assert (Hlog : (fetchAllYields net now new_service).2
                 = (fetchDefiLlamaYields net new_service).2
                   ++ (fetchYearnYields net new_service).2).
  { rewrite (fetchAllYields_miss _ _ _ Hstale).
    by destruct (fetchDefiLlamaYields net new_service).1. }
  rewrite Hlog, length_app.
  destruct (yearn_per_chain net new_service _ eq_refl) as (_ & -> & _).
  pose proof (llama_requests net new_service _ eq_refl) as Hllama.
  cbv zeta in Hllama. rewrite length_fmap. simpl.
  destruct (fetchDefiLlamaYields net new_service).1 as [l | e].
  - destruct Hllama as (k & Hk & _ & ->). rewrite length_replicate. lia.
  - destruct Hllama as (_ & ->). simpl. lia.
Qed.

(** ** What every fetched opportunity satisfies *)

Lemma llama_opportunity_consistent source p y :
  llama_opportunity source p = Some y ->
  risk_consistent y ∧ chainId y ∈ chains source.
Proof.
  unfold llama_opportunity, risk_consistent.
  destruct (PROTOCOL_METADATA (default "" (toLowerCase <$> project p)))
    as [[mname mrisk] |] eqn:Hmeta; [| discriminate].
  destruct (List.find _ CHAIN_ID_TO_NAME) as [[cid cname] |]; [| discriminate].
  case_bool_decide; [| discriminate].
  intros [= <-]. simpl. by rewrite Hmeta.
Qed.

Lemma yearn_opportunity_consistent cid v y :
  yearn_opportunity cid v = Some y -> risk_consistent y ∧ chainId y = cid.
Proof.
  unfold yearn_opportunity, risk_consistent.
  destruct (_ && _); [| discriminate].
  by intros [= <-].
Qed.


Lemma find_source_supported svc n source :
  reachable svc -> find_source svc n = Some source ->
  source ∈ SUPPORTED_YIELD_SOURCES.
Proof.
  intros Hreach. rewrite (reachable_find_source _ _ Hreach).
  unfold find_source. intros Hfind%find_some. destruct Hfind as [Hin _].
  apply list_elem_of_In. simpl in Hin. simpl.
  destruct Hin as [<- | [<- | []]]; [left | right; left]; reflexivity.
Qed.

Lemma fetched_sound net svc l1 :
  reachable svc ->
  (fetchDefiLlamaYields net svc).1 = Ret l1 ->
  Forall sound (sort_by by_apy_desc (l1 ++ (fetchYearnYields net svc).1)).
Proof.
  intros Hreach Hllama. rewrite sort_by_perm. apply Forall_app. split.
  - revert Hllama. unfold fetchDefiLlamaYields.
    destruct (find_source svc "defillama") as [source |] eqn:Hsource;
      [| intros [= <-]; constructor].
    destruct (withRetry _ 0 2) as [res log] eqn:Hretry. simpl. intros ->.
    apply withRetry_success in Hretry as (n & Hn). revert Hn.
    unfold llama_attempt.
    destruct (fetch_llama net n _) as [response | e]; [| discriminate].
    destruct (ok response); [| discriminate].
    destruct (body response) as [d | e]; [| discriminate].
    intros [= <-]. apply omap_Forall. intros p y Hy.
    apply llama_opportunity_consistent in Hy as [Hrisk Hchain].
    split; [exact Hrisk |]. exists source. split; [| exact Hchain].
    by eapply find_source_supported.
  - destruct (find_source svc "yearn") as [source |] eqn:Hsource.
    + destruct (yearn_per_chain net svc source Hsource) as (-> & _).
      apply Forall_forall. intros y Hy%list_elem_of_In%in_flat_map.
      destruct Hy as (cid & Hcid & Hy). revert Hy. unfold yearn_chain.
      destruct (fetch_yearn net _) as [response | e]; [| intros []].
      destruct (ok response); [| intros []].
      destruct (body response) as [vaults | e]; [| intros []].
      simpl. intros Hy%list_elem_of_In%list_elem_of_omap.
      destruct Hy as (v & _ & Hy).
      apply yearn_opportunity_consistent in Hy as [Hrisk Hchain].
      split; [exact Hrisk |]. rewrite Hchain. exists source.
      split; [by eapply find_source_supported | by apply list_elem_of_In].
    + unfold fetchYearnYields. rewrite Hsource. constructor.
Qed.

Lemma reachable_sound svc :
  reachable svc ->
  ∀ key entry, cache svc !! key = Some entry -> Forall sound (data entry).
Proof.
  induction 1 as [| net now svc Hreach IH | svc _ _].
  - intros key entry. simpl. by rewrite lookup_empty.
  - destruct (hit_or_stale now svc) as [(cached & Hcached & Hfresh) | Hstale].
    + by rewrite (fetchAllYields_hit _ _ _ _ Hcached Hfresh).
    + rewrite (fetchAllYields_miss _ _ _ Hstale).
      destruct (fetchDefiLlamaYields net svc).1 as [l1 | e] eqn:Hllama; [| done].
      intros key entry. simpl.
      destruct (decide (key = cacheKey)) as [-> | Hne].
      * rewrite lookup_insert_eq. intros [= <-]. simpl. by apply fetched_sound.
      * rewrite lookup_insert_ne by done. apply IH.
  - intros key entry. simpl. by rewrite lookup_empty.
Qed.

Lemma fetchAllYields_sound net now svc superset svc' log :
  reachable svc ->
  fetchAllYields net now svc = (Ret superset, svc', log) ->
  Forall sound superset.
Proof.
  intros Hreach.
  destruct (hit_or_stale now svc) as [(cached & Hcached & Hfresh) | Hstale].
  - rewrite (fetchAllYields_hit _ _ _ _ Hcached Hfresh). intros [= <- <- <-].
    by eapply reachable_sound.
  - rewrite (fetchAllYields_miss _ _ _ Hstale).
    destruct (fetchDefiLlamaYields net svc).1 as [l1 | e] eqn:Hllama;
      [| discriminate].
    simpl. intros [= <- <- <-]. by apply fetched_sound.
Qed.

Lemma metadata_risk_protocols slug mname r t :
  PROTOCOL_METADATA slug = Some (mname, r) ->
  r ∈ riskLevels t ->
  slug ∈ Ens.RISK_TOLERANCE_MAP t.
Proof.
  unfold PROTOCOL_METADATA.
  repeat (case_decide; [subst; intros [= <- <-]; destruct t;
                        rewrite !list_elem_of_In; simpl;
                        intuition discriminate |]).
  discriminate.
Qed.

(** X6.  A query with risk tolerance [t] returns only protocols of
    [RISK_TOLERANCE_MAP t]: the risk levels the aggregator assigns and the
    protocol lists of the preference schema agree. *)
Theorem queryYields_risk_protocols (net : Net) (now : Z)
    (params : YieldQueryParams) (svc : YieldService)
    (superset : list YieldOpportunity) (svc' : YieldService)
    (log : list string) (t : Ens.RiskTolerance) :
  reachable svc ->
  fetchAllYields net now svc = (Ret superset, svc', log) ->
  q_riskTolerance params = Some t ->
  ∃ ys, queryYields net now params svc = (Ret ys, svc', log)
    ∧ ∀ y, y ∈ ys -> protocolSlug y ∈ Ens.RISK_TOLERANCE_MAP t.
Proof.
  intros Hreach Hfetch Hrisk. exists (applyFilters params superset).
  split; [by apply queryYields_of_fetch |].
  intros y [Hin Hpass]%applyFilters_elem.
  pose proof (fetchAllYields_sound _ _ _ _ _ _ Hreach Hfetch) as Hsound.
  rewrite Forall_forall in Hsound. destruct (Hsound y Hin) as [Hmeta _].
  unfold passes in Hpass. rewrite !andb_true_iff in Hpass.
  destruct Hpass as (((_ & Hallowed) & _) & _).
  rewrite Hrisk in Hallowed. simpl in Hallowed.
  apply bool_decide_eq_true in Hallowed.
  by eapply metadata_risk_protocols.
Qed.

(** X7.  A query for a chain that no configured source covers (and that is not
    0, which switches the chain filter off) returns the empty list,
    whatever the providers answered. *)
Theorem queryYields_uncovered_chain (net : Net) (now : Z)
    (params : YieldQueryParams) (svc : YieldService)
    (superset : list YieldOpportunity) (svc' : YieldService)
    (log : list string) (c : Z) :
  reachable svc ->
  fetchAllYields net now svc = (Ret superset, svc', log) ->
  q_chainId params = Some c ->
  c ∉ [0; 1; 10; 137; 42161; 8453; 81457] ->
  queryYields net now params svc = (Ret [], svc', log).
Proof.
  intros Hreach Hfetch Hchain Hout.
  rewrite (queryYields_of_fetch _ _ _ _ _ _ _ Hfetch). f_equal. f_equal.
  f_equal. destruct (applyFilters params superset) as [| y ys] eqn:Hys;
    [reflexivity |].
  assert (Hy : y ∈ applyFilters params superset) by (rewrite Hys; left).
  apply applyFilters_elem in Hy as [Hin Hpass].
  pose proof (fetchAllYields_sound _ _ _ _ _ _ Hreach Hfetch) as Hsound.
  rewrite Forall_forall in Hsound.
  destruct (Hsound y Hin) as [_ (source & Hsource & Hcovered)].
  unfold passes in Hpass. rewrite !andb_true_iff in Hpass.
  destruct Hpass as (((((((Hon & _) & _) & _) & _) & _) & _) & _).
  rewrite Hchain in Hon. unfold nonzero in Hon. simpl in Hon.
  destruct (decide (c = 0)) as [-> | _];
    [exfalso; apply Hout; left |].
  simpl in Hon. apply bool_decide_eq_true in Hon. rewrite Hon in Hcovered.
  exfalso. apply Hout.
  rewrite list_elem_of_In in Hsource. simpl in Hsource.
  destruct Hsource as [<- | [<- | []]]; rewrite list_elem_of_In in *;
    simpl in *; intuition.
Qed.

(** ** The best yield *)

Lemma head_filter_sorted (p : YieldOpportunity -> bool) l y :
  StronglySorted apy_desc l ->
  head (List.filter p l) = Some y ->
  y ∈ l ∧ p y = true
  ∧ ∀ y', y' ∈ l -> p y' = true -> (apy y' <= apy y)%Q.
Proof.
  intros Hsorted Hhead.
  assert (Hfiltered : StronglySorted apy_desc (List.filter p l))
    by (eapply StronglySorted_sublist; [apply filter_bool_sublist | done]).
  destruct (List.filter p l) as [| z rest] eqn:Hfilter; [discriminate |].
  injection Hhead as ->.
  assert (Hy : y ∈ List.filter p l) by (rewrite Hfilter; left).
  apply elem_of_filter_bool in Hy as [Hin Hp].
  split; [exact Hin |]. split; [exact Hp |].
  intros y' Hin' Hp'.
  assert (Hy' : y' ∈ List.filter p l) by (by apply elem_of_filter_bool).
  rewrite Hfilter in Hy'. apply elem_of_cons in Hy' as [-> | Hrest].
  - apply Qle_refl.
  - apply StronglySorted_inv in Hfiltered as [_ Hall].
    rewrite Forall_forall in Hall. by apply Hall.
Qed.

Lemma head_filter_none {A} (p : A -> bool) (l : list A) :
  head (List.filter p l) = None -> ∀ y, y ∈ l -> p y = false.
Proof.
  intros Hhead y Hin. destruct (p y) eqn:Hp; [| reflexivity].
  assert (Hy : y ∈ List.filter p l) by (by apply elem_of_filter_bool).
  destruct (List.filter p l); [by apply not_elem_of_nil in Hy | discriminate].
Qed.

Lemma getBestYield_of_fetch net now c tok risk mtvl svc superset svc' log :
  fetchAllYields net now svc = (Ret superset, svc', log) ->
  getBestYield net now c tok risk mtvl svc
  = (Ret (head (List.filter (passes (bestYieldParams c tok risk mtvl)) superset)),
     svc', log).
Proof.
  intros Hfetch. unfold getBestYield.
  change {| q_chainId := Some c; q_token := Some tok; minApy := None;
            maxApy := None; minTvlUsd := mtvl; q_riskTolerance := risk;
            whitelistedProtocols := None; blacklistedProtocols := None;
            limit := Some 1 |} with (bestYieldParams c tok risk mtvl).
  rewrite (queryYields_of_fetch _ _ _ _ _ _ _ Hfetch), applyFilters_passes.
  unfold limited. simpl. unfold slice0. simpl.
  by destruct (List.filter _ superset).
Qed.

(** X8.  [getBestYield] returns an opportunity of the fetched list that passes
    the filters for the chain, the token, the risk tolerance and the
    liquidity floor and whose APY is the highest among those that pass; it
    returns [null] exactly when none passes. *)
Theorem getBestYield_highest_apy (net : Net) (now : Z) (c : Z) (tok : string)
    (risk : option Ens.RiskTolerance) (mtvl : option Q) (svc : YieldService)
    (superset : list YieldOpportunity) (svc' : YieldService)
    (log : list string) :
  reachable svc ->
  fetchAllYields net now svc = (Ret superset, svc', log) ->
  let params := bestYieldParams c tok risk mtvl in
  ∃ best,
    getBestYield net now c tok risk mtvl svc = (Ret best, svc', log)
    ∧ match best with
      | Some y =>
          y ∈ superset ∧ passes params y = true
          ∧ ∀ y', y' ∈ superset -> passes params y' = true ->
                  (apy y' <= apy y)%Q
      | None => ∀ y', y' ∈ superset -> passes params y' = false
      end.
Proof.
  intros Hreach Hfetch params. eexists.
  split; [by apply getBestYield_of_fetch |].
  destruct (fetchAllYields_returns _ _ _ _ _ _ (reachable_cache_ok _ Hreach) Hfetch)
    as (_ & Hsorted & _).
  destruct (head (List.filter (passes (bestYieldParams c tok risk mtvl)) superset))
    as [y |] eqn:Hhead.
  - by apply head_filter_sorted.
  - by apply head_filter_none.
Qed.

(** X9.  The limit is applied last.  A limit of 0 is no limit; a positive limit
    [n] keeps the first [n] results of the same query without limit; a
    negative limit [-k] drops the last [k] of them. *)
Theorem queryYields_limit (net : Net) (now : Z) (params : YieldQueryParams)
    (svc : YieldService) (superset : list YieldOpportunity)
    (svc' : YieldService) (log : list string) (n : Z) :
  fetchAllYields net now svc = (Ret superset, svc', log) ->
  limit params = Some n ->
  ∃ ys all,
    queryYields net now params svc = (Ret ys, svc', log)
    ∧ queryYields net now (with_limit None params) svc = (Ret all, svc', log)
    ∧ (n = 0 -> ys = all)
    ∧ (0 < n -> ys = take (Z.to_nat n) all ∧ (length ys <= Z.to_nat n)%nat)
    ∧ (n < 0 -> ys = take (length all - Z.to_nat (- n)) all).
Proof.
  intros Hfetch Hlimit.
  exists (applyFilters params superset),
         (applyFilters (with_limit None params) superset).
  split; [by apply queryYields_of_fetch |].
  split; [by apply queryYields_of_fetch |].
  rewrite !applyFilters_passes. unfold limited. simpl. rewrite Hlimit.
  change (passes (with_limit None params)) with (passes params).
  unfold nonzero. simpl. split; [| split].
  - intros ->. reflexivity.
  - intros Hpos. rewrite decide_False by lia. unfold slice0.
    replace (0 <=? n) with true by (symmetry; apply Z.leb_le; lia).
    split; [reflexivity |]. rewrite length_take. lia.
  - intros Hneg. rewrite decide_False by lia. unfold slice0.
    replace (0 <=? n) with false by (symmetry; apply Z.leb_gt; lia).
    f_equal. lia.
Qed.

(** ** The merge *)

Lemma insert_by_apy_stable q x l :
  List.filter (same_apy q) (insert_by by_apy_desc x l)
  = List.filter (same_apy q) (x :: l).
Proof.
  induction l as [| y t IH]; [reflexivity |].
  cbn [insert_by]. destruct (Qle_bool (by_apy_desc x y) 0) eqn:Hcmp;
    [reflexivity |].
  assert (Hlt : (apy x < apy y)%Q).
  { apply Qnot_le_lt. intros Hle. apply by_apy_desc_le in Hle. congruence. }
  cbn [List.filter] in *. rewrite IH.
  destruct (same_apy q y) eqn:Hy; [| reflexivity].
  destruct (same_apy q x) eqn:Hx; [| reflexivity].
  unfold same_apy in *. apply Qeq_bool_iff in Hx, Hy. lra.
Qed.

Lemma sort_by_apy_stable q l :
  List.filter (same_apy q) (sort_by by_apy_desc l) = List.filter (same_apy q) l.
Proof.
  induction l as [| x l IH]; [reflexivity |].
  unfold sort_by in *. cbn [foldr]. rewrite insert_by_apy_stable.
  cbn [List.filter]. by rewrite IH.
Qed.

(** X10.  On a cache miss the merged list is a rearrangement of the DefiLlama
    opportunities followed by the Yearn ones: nothing is dropped or merged,
    and opportunities of equal APY keep their relative order, DefiLlama
    before Yearn. *)
Theorem fetchAllYields_merge (net : Net) (now : Z) (svc : YieldService)
    (defiLlamaYields : list YieldOpportunity) :
  stale now svc ->
  (fetchDefiLlamaYields net svc).1 = Ret defiLlamaYields ->
  let yearnYields := (fetchYearnYields net svc).1 in
  ∃ allYields,
    (fetchAllYields net now svc).1.1 = Ret allYields
    ∧ allYields ≡ₚ defiLlamaYields ++ yearnYields
    ∧ length allYields = (length defiLlamaYields + length yearnYields)%nat
    ∧ ∀ q, List.filter (same_apy q) allYields
           = List.filter (same_apy q) (defiLlamaYields ++ yearnYields).
Proof.
  intros Hstale Hllama yearnYields. eexists.
  rewrite (fetchAllYields_miss _ _ _ Hstale), Hllama. simpl.
  split; [reflexivity |]. split; [apply sort_by_perm |]. split.
  - by rewrite sort_by_perm, length_app.
  - intros q. apply sort_by_apy_stable.
Qed.
(** ** Worked runs *)

Lemma fetchDefiLlamaYields_requests_witness :
  ∃ source,
    find_source new_service "defillama" = Some source
    ∧ let run := fetchDefiLlamaYields Sample.net_a new_service in
      let url := url_base source +:+ "/pools" in
      match run.1 with
      | Ret l =>
          ∃ k, (k <= 2)%nat
            ∧ (llama_attempt Sample.net_a source k).1 = Ret l
            ∧ run.2 = replicate (S k) url
      | Throw e =>
          (llama_attempt Sample.net_a source 2).1 = Throw e
          ∧ run.2 = [url; url; url]
      end.
Proof.
  eexists. split; [reflexivity |].
  apply (fetchDefiLlamaYields_requests Sample.net_a new_service). reflexivity.
Defined.

Lemma fetchYearnYields_per_chain_witness :
  ∃ source per_chain,
    find_source new_service "yearn" = Some source
    ∧ (fetchYearnYields Sample.net_a new_service).2
      = (fun cid => url_base source +:+ "/" +:+ pretty cid +:+ "/vaults/all")
          <$> [1; 10; 137; 42161; 8453]
    ∧ (fetchYearnYields Sample.net_a new_service).1 = concat per_chain
    ∧ length per_chain = 5%nat
    ∧ vaultAddress <$> (fetchYearnYields Sample.net_a new_service).1 = ["0xv1"]
    ∧ chainId <$> (fetchYearnYields Sample.net_a new_service).1 = [8453].
Proof.
  eexists.
  destruct (fetchYearnYields_per_chain Sample.net_a new_service _ eq_refl)
    as (Hlog & per_chain & Hrun & Hchains).
  exists per_chain. split; [reflexivity |]. split; [exact Hlog |].
  split; [exact Hrun |].
  split; [by rewrite <- (Forall2_length _ _ _ Hchains) |].
  split; vm_compute; reflexivity.
Defined.

Lemma clearCache_forces_refetch_witness :
  clearCache Sample.svc_a = new_service
  ∧ (6 <= length (fetchAllYields Sample.net_a 1000 (clearCache Sample.svc_a)).2
     <= 8)%nat.
Proof.
  destruct (clearCache_forces_refetch Sample.net_a 1000 Sample.svc_a)
    as (Hfresh & _ & Hlog).
  - apply reach_fetch, reach_new.
  - by split.
Defined.

Lemma queryYields_risk_protocols_witness :
  ∃ ys, queryYields Sample.net_a 0 Sample.query_moderate new_service
        = (Ret ys, Sample.svc_a, Sample.log_a)
    ∧ ∀ y, y ∈ ys ->
           protocolSlug y
             ∈ ["aave-v3"; "compound-v3"; "morpho"; "spark"; "yearn-v3"].
Proof.
  apply (queryYields_risk_protocols Sample.net_a 0 Sample.query_moderate
           new_service Sample.superset_a Sample.svc_a Sample.log_a Ens.moderate).
  - apply reach_new.
  - vm_compute. reflexivity.
  - reflexivity.
Defined.

Lemma queryYields_uncovered_chain_witness :
  queryYields Sample.net_a 0 Sample.query_linea new_service
  = (Ret [], Sample.svc_a, Sample.log_a).
Proof.
  apply (queryYields_uncovered_chain Sample.net_a 0 Sample.query_linea
           new_service Sample.superset_a Sample.svc_a Sample.log_a 59144).
  - apply reach_new.
  - vm_compute. reflexivity.
  - reflexivity.
  - rewrite list_elem_of_In. simpl. intuition discriminate.
Defined.

Lemma getBestYield_highest_apy_witness :
  ∃ best,
    getBestYield Sample.net_a 0 8453 "USDC" (Some Ens.moderate) None new_service
    = (Ret best, Sample.svc_a, Sample.log_a)
    ∧ match best with
      | Some y =>
          y ∈ Sample.superset_a
          ∧ passes (bestYieldParams 8453 "USDC" (Some Ens.moderate) None) y = true
          ∧ ∀ y', y' ∈ Sample.superset_a ->
                  passes (bestYieldParams 8453 "USDC" (Some Ens.moderate) None) y'
                  = true ->
                  (apy y' <= apy y)%Q
      | None =>
          ∀ y', y' ∈ Sample.superset_a ->
                passes (bestYieldParams 8453 "USDC" (Some Ens.moderate) None) y'
                = false
      end.
Proof.
  apply (getBestYield_highest_apy Sample.net_a 0 8453 "USDC" (Some Ens.moderate)
           None new_service Sample.superset_a Sample.svc_a Sample.log_a).
  - apply reach_new.
  - vm_compute. reflexivity.
Defined.

Lemma queryYields_limit_witness :
  ∃ ys all,
    queryYields Sample.net_a 0 (with_limit (Some 1) Sample.query_moderate)
      new_service = (Ret ys, Sample.svc_a, Sample.log_a)
    ∧ queryYields Sample.net_a 0
        (with_limit None (with_limit (Some 1) Sample.query_moderate))
        new_service = (Ret all, Sample.svc_a, Sample.log_a)
    ∧ ys = take 1 all.
Proof.
  destruct (queryYields_limit Sample.net_a 0
              (with_limit (Some 1) Sample.query_moderate) new_service
              Sample.superset_a Sample.svc_a Sample.log_a 1)
    as (ys & all & Hys & Hall & _ & Hpos & _).
  - vm_compute. reflexivity.
  - reflexivity.
  - exists ys, all. split; [exact Hys |]. split; [exact Hall |].
    apply Hpos. lia.
Defined.

Lemma fetchAllYields_merge_witness :
  ∃ allYields,
    (fetchAllYields Sample.net_a 0 new_service).1.1 = Ret allYields
    ∧ allYields
      ≡ₚ Sample.llama_a ++ (fetchYearnYields Sample.net_a new_service).1
    ∧ length allYields
      = (length Sample.llama_a
         + length (fetchYearnYields Sample.net_a new_service).1)%nat.
Proof.
  destruct (fetchAllYields_merge Sample.net_a 0 new_service Sample.llama_a)
    as (allYields & Hrun & Hperm & Hlen & _).
  - exact I.
  - vm_compute. reflexivity.
  - exists allYields. by split.
Defined.

End SourceFacts.

(* ===================================================================== *)
(** * Runs of the execution orchestrator *)
(* ===================================================================== *)

Module RunFacts.
Import Js Intent IntentFacts.

Ltac settle :=
  split; [reflexivity |]; split; [reflexivity |];
  rewrite !routing_of_app, ?routing_of_routing; simpl;
  rewrite ?app_nil_r; reflexivity.

Section Runs.

Variable sdk : Lifi.Sdk.
Variable getBestYield :
  Z -> string -> option Ens.RiskTolerance -> option Q ->
  outcome (option Yield.YieldOpportunity).
Variable now : Z.
Variable rid : string.

(** The final state of a build, stage by stage. *)
Lemma buildIntent_final request preferences w :
  let run := buildIntent sdk getBestYield request preferences w in
  let s0 := with_step_error fetching_route None (state w) in
  let fail s e :=
    with_step_error failed (Some (message_or "Failed to build intent" e)) s in
  run.1 = Ret tt
  ∧ state run.2 =
      match quotedRoute sdk request with
      | Throw e => fail s0 e
      | Ret None => fail s0 (JsError "No route found for this intent")
      | Ret (Some r) =>
          let s1 := with_route r finding_yield s0 in
          match bestMatch getBestYield request preferences with
          | Throw e => fail s1 e
          | Ret None =>
              fail s1 (JsError "No yield opportunities found matching your criteria on the destination chain")
          | Ret (Some y) =>
              if includes_str (Ens.blacklistedProtocols preferences)
                   (Yield.protocolSlug y)
              then fail s1 (JsError ("The best yield opportunity is from "
                                     +:+ Yield.protocol y
                                     +:+ ", which is in your blacklist"))
              else with_composedIntent (Lifi.composeIntentWithDeposit request y)
                     ready (with_targetYield y composing s1)
          end
      end
  ∧ routing_of (trace run.2)
    = routing_of (trace w) ++ (Lifi.getBestRoute sdk request).2.
Proof.
  unfold quotedRoute, bestMatch. cbv zeta. run_hook.
  destruct (Lifi.getBestRoute sdk request) as [[[r |] | e] calls]; simpl;
    [| settle | settle].
  destruct (getBestYield _ _ _ _) as [[y |] | e]; simpl; [| settle | settle].
  destruct (includes_str _ _); simpl; settle.
Qed.

(** The final state of an execution. *)
Lemma executeIntent_final {W} (captured : IntentState) (walletClient : W) w :
  let run := executeIntent sdk now rid captured walletClient w in
  let s0 := with_step_error executing None (state w) in
  run.1 = Ret tt
  ∧ state run.2 =
      match route captured, composedIntent captured with
      | Some r, Some ci =>
          match Lifi.executeRoute sdk r with
          | Ret _ => with_execution (executionRecord now rid ci r) completed s0
          | Throw e =>
              with_step_error failed (Some (message_or "Execution failed" e)) s0
          end
      | _, _ => with_step_error failed (Some "No intent to execute") (state w)
      end
  ∧ routing_of (trace run.2)
    = routing_of (trace w)
      ++ match route captured, composedIntent captured with
         | Some r, Some ci => [Lifi.CallExecuteRoute r]
         | _, _ => []
         end.
Proof.
  cbv zeta. unfold executeIntent.
  destruct (route captured) as [r |], (composedIntent captured) as [ci |];
    try (simpl; unfold setState; simpl; settle).
  rewrite LifiFacts.executeComposedIntent_outcome.
  unfold mbind, M_bind, bind, try_catch, setState, await. simpl.
  destruct (Lifi.executeRoute sdk r); simpl; settle.
Qed.


(** X20.  [buildIntent] never throws and always settles: the final step is
    [ready] or [failed], never an intermediate one; [failed] comes with an
    error message and cannot be executed; [ready] comes without error and
    can be executed; an earlier execution record is kept. *)
Theorem buildIntent_settles request preferences w :
  let run := buildIntent sdk getBestYield request preferences w in
  let final := state run.2 in
  run.1 = Ret tt
  ∧ (step final = ready ∨ step final = failed)
  ∧ isProcessing final = false
  ∧ (step final = failed -> is_Some (error final) ∧ canExecute final = false)
  ∧ (step final = ready -> error final = None ∧ canExecute final = true)
  ∧ execution final = execution (state w).
Proof.
  destruct (buildIntent_final request preferences w) as (Hret & Hstate & _).
  cbv zeta in *. split; [exact Hret |]. rewrite Hstate. clear Hret Hstate.
  destruct (quotedRoute sdk request) as [[r |] | e]; simpl;
    [| by repeat split; eauto | by repeat split; eauto].
  destruct (bestMatch getBestYield request preferences) as [[y |] | e]; simpl;
    [| by repeat split; eauto | by repeat split; eauto].
  destruct (includes_str _ _); simpl; by repeat split; eauto.
Qed.

(** X21.  [buildIntent] ends [ready] exactly when the routing service quoted a
    route, the yield service found a best match, and that match is not
    blacklisted.  Whenever these three hold, the build does end [ready],
    without error, and the state holds that route, that match and the
    intent composed from the request and the match. *)
Theorem buildIntent_ready_iff request preferences w :
  let run := buildIntent sdk getBestYield request preferences w in
  let final := state run.2 in
  (step final = ready <->
   ∃ r y,
     quotedRoute sdk request = Ret (Some r)
     ∧ bestMatch getBestYield request preferences = Ret (Some y)
     ∧ (JStr (Yield.protocolSlug y) ∉ Ens.blacklistedProtocols preferences))
  ∧ (∀ r y,
       quotedRoute sdk request = Ret (Some r) ->
       bestMatch getBestYield request preferences = Ret (Some y) ->
       JStr (Yield.protocolSlug y) ∉ Ens.blacklistedProtocols preferences ->
       step final = ready
       ∧ route final = Some r
       ∧ targetYield final = Some y
       ∧ composedIntent final = Some (Lifi.composeIntentWithDeposit request y)
       ∧ error final = None).
Proof.
  destruct (buildIntent_final request preferences w) as (_ & Hstate & _).
  cbv zeta in *. rewrite Hstate. clear Hstate.
  destruct (quotedRoute sdk request) as [[r |] | e]; simpl;
    [| split; [split; [discriminate | by intros (? & ? & [=] & _)]
              | by intros ? ? [=]] ..].
  destruct (bestMatch getBestYield request preferences) as [[y |] | e]; simpl;
    [| split; [split; [discriminate | by intros (? & ? & _ & [=] & _)]
              | by intros ? ? _ [=]] ..].
  destruct (includes_str _ _) eqn:Hblack; simpl.
  - apply includes_str_elem in Hblack. split.
    + split; [discriminate |]. by intros (r' & y' & _ & [= <-] & Hnot).
    + by intros r' y' _ [= <-] Hnot.
  - assert (Hnot : JStr (Yield.protocolSlug y)
                     ∉ Ens.blacklistedProtocols preferences).
    { intros Hin%includes_str_elem. congruence. }
    split.
    + split; [| done]. intros _. by exists r, y.
    + by intros r' y' [= <-] [= <-] _.
Qed.

(** X22.  A build for a token the address table does not map on its chain fails
    with the message naming both tokens, reaches neither service, and
    leaves the route, the target and the composed intent as they were. *)
Theorem buildIntent_unmapped_token request preferences w :
  Lifi.table_entry (Lifi.fromChain request) (Lifi.fromToken request) = None
  ∨ Lifi.table_entry (Lifi.toChain request) (Lifi.toToken request) = None ->
  let run := buildIntent sdk getBestYield request preferences w in
  let final := state run.2 in
  step final = failed
  ∧ error final = Some ("Token not supported on one of the chains: "
                        +:+ Lifi.fromToken request +:+ " -> "
                        +:+ Lifi.toToken request)
  ∧ route final = route (state w)
  ∧ targetYield final = targetYield (state w)
  ∧ composedIntent final = composedIntent (state w)
  ∧ routing_of (trace run.2) = routing_of (trace w).
Proof.
  intros Hunmapped.
  assert (Hquote : Lifi.getBestRoute sdk request
                   = (Throw (JsError ("Token not supported on one of the chains: "
                                      +:+ Lifi.fromToken request +:+ " -> "
                                      +:+ Lifi.toToken request)), [])).
  { unfold Lifi.getBestRoute.
    destruct Hunmapped as [H | H]; apply LifiFacts.tokenAddress_unmapped in H;
      rewrite H; [reflexivity |].
    destruct (Lifi.tokenAddress (Lifi.fromChain request) (Lifi.fromToken request));
      reflexivity. }
  destruct (buildIntent_final request preferences w) as (_ & Hstate & Hcalls).
  cbv zeta in *. unfold quotedRoute in Hstate.
  rewrite Hquote in Hstate, Hcalls. simpl in Hstate, Hcalls.
  rewrite Hstate, Hcalls, app_nil_r. repeat split.
Qed.

(** X23.  The failures of a build that are not exceptions: no route quoted gives
    'No route found for this intent' and keeps the old route; no yield
    match gives the message about the destination chain, with the new route
    already stored and the old target and composed intent kept; an
    exception of the yield service gives its message, or 'Failed to build
    intent'. *)
Theorem buildIntent_not_found request preferences w :
  let run := buildIntent sdk getBestYield request preferences w in
  let final := state run.2 in
  (quotedRoute sdk request = Ret None ->
   step final = failed
   ∧ error final = Some "No route found for this intent"
   ∧ route final = route (state w))
  ∧ (∀ r, quotedRoute sdk request = Ret (Some r) ->
          bestMatch getBestYield request preferences = Ret None ->
          step final = failed
          ∧ error final = Some "No yield opportunities found matching your criteria on the destination chain"
          ∧ route final = Some r
          ∧ targetYield final = targetYield (state w)
          ∧ composedIntent final = composedIntent (state w))
  ∧ (∀ r e, quotedRoute sdk request = Ret (Some r) ->
            bestMatch getBestYield request preferences = Throw e ->
            step final = failed
            ∧ error final = Some (message_or "Failed to build intent" e)
            ∧ route final = Some r).
Proof.
  destruct (buildIntent_final request preferences w) as (_ & Hstate & _).
  cbv zeta in *. rewrite Hstate. clear Hstate. split; [| split].
  - intros ->. repeat split.
  - intros r -> ->. repeat split.
  - intros r e -> ->. repeat split.
Qed.

(** X24.  [executeIntent] never throws and ends [completed] or [failed];
    [failed] comes with an error message; [completed] comes with the
    execution record of the captured route and composed intent; the route
    and the composed intent of the state are not touched. *)
Theorem executeIntent_settles {W} (captured : IntentState) (walletClient : W) w :
  let run := executeIntent sdk now rid captured walletClient w in
  let final := state run.2 in
  run.1 = Ret tt
  ∧ (step final = completed ∨ step final = failed)
  ∧ isProcessing final = false
  ∧ (step final = failed -> is_Some (error final))
  ∧ (step final = completed ->
     ∃ r ci, route captured = Some r ∧ composedIntent captured = Some ci
             ∧ execution final = Some (executionRecord now rid ci r))
  ∧ route final = route (state w)
  ∧ composedIntent final = composedIntent (state w).
Proof.
  destruct (executeIntent_final captured walletClient w) as (Hret & Hstate & _).
  cbv zeta in *. split; [exact Hret |]. rewrite Hstate. clear Hret Hstate.
  destruct (route captured) as [r |], (composedIntent captured) as [ci |];
    simpl; try (by repeat split; eauto).
  destruct (Lifi.executeRoute sdk r); simpl; repeat split; eauto; discriminate.
Qed.

(** X25.  A rebuild that fails after the route was quoted leaves the composed
    intent of the previous build in the state beside the new route.  The
    step is [failed] and [canExecute] is false, but [executeIntent] does not
    look at the step: it sends the new route to the routing service and, on
    success, records the old composed intent as executed. *)
Theorem executeIntent_after_failed_rebuild {W} request preferences
    (walletClient : W) w (old : Lifi.ComposedIntent) (r : Lifi.Route) :
  composedIntent (state w) = Some old ->
  quotedRoute sdk request = Ret (Some r) ->
  (∀ y, bestMatch getBestYield request preferences = Ret (Some y) ->
        JStr (Yield.protocolSlug y) ∈ Ens.blacklistedProtocols preferences) ->
  let built := (buildIntent sdk getBestYield request preferences w).2 in
  let run := executeIntent sdk now rid (state built) walletClient built in
  step (state built) = failed
  ∧ canExecute (state built) = false
  ∧ route (state built) = Some r
  ∧ composedIntent (state built) = Some old
  ∧ routing_of (trace run.2)
    = routing_of (trace built) ++ [Lifi.CallExecuteRoute r]
  ∧ (∀ r', Lifi.executeRoute sdk r = Ret r' ->
           step (state run.2) = completed
           ∧ execution (state run.2) = Some (executionRecord now rid old r)).
Proof.
  intros Hold Hquote Hyield built run.
  destruct (buildIntent_final request preferences w) as (_ & Hstate & _).
  cbv zeta in Hstate. fold built in Hstate. rewrite Hquote in Hstate.
  assert (Hbuilt : step (state built) = failed
                   ∧ route (state built) = Some r
                   ∧ composedIntent (state built) = Some old).
  { rewrite Hstate.
    destruct (bestMatch getBestYield request preferences) as [[y |] | e];
      simpl; try (by repeat split).
    specialize (Hyield y eq_refl). apply includes_str_elem in Hyield.
    rewrite Hyield. simpl. by repeat split. }
  destruct Hbuilt as (Hstep & Hroute & Hci).
  destruct (executeIntent_final (state built) walletClient built)
    as (_ & Hfinal & Hcalls).
  cbv zeta in Hfinal, Hcalls. fold run in Hfinal, Hcalls.
  rewrite Hroute, Hci in Hfinal, Hcalls.
  split; [exact Hstep |].
  split; [unfold canExecute; by rewrite Hstep |].
  split; [exact Hroute |]. split; [exact Hci |]. split; [exact Hcalls |].
  intros r' Hexec. rewrite Hexec in Hfinal. rewrite Hfinal. by split.
Qed.

(** X26.  A successful build followed by an execution: the routing service sees
    the quote request and then the execution of the quoted route; on
    success the state is [completed] with the record of the composed intent
    and no error, on failure it is [failed] with the message and the
    earlier execution record is kept. *)
Theorem build_then_execute {W} request preferences (walletClient : W) w r y :
  quotedRoute sdk request = Ret (Some r) ->
  bestMatch getBestYield request preferences = Ret (Some y) ->
  JStr (Yield.protocolSlug y) ∉ Ens.blacklistedProtocols preferences ->
  let built := (buildIntent sdk getBestYield request preferences w).2 in
  let run := executeIntent sdk now rid (state built) walletClient built in
  let composed := Lifi.composeIntentWithDeposit request y in
  canExecute (state built) = true
  ∧ routing_of (trace run.2)
    = routing_of (trace w) ++ (Lifi.getBestRoute sdk request).2
      ++ [Lifi.CallExecuteRoute r]
  ∧ match Lifi.executeRoute sdk r with
    | Ret _ =>
        step (state run.2) = completed
        ∧ execution (state run.2) = Some (executionRecord now rid composed r)
        ∧ error (state run.2) = None
    | Throw e =>
        step (state run.2) = failed
        ∧ error (state run.2) = Some (message_or "Execution failed" e)
        ∧ execution (state run.2) = execution (state w)
    end.
Proof.
  intros Hquote Hbest Hallowed built run composed.
  destruct (buildIntent_final request preferences w) as (_ & Hstate & Hcalls).
  cbv zeta in Hstate, Hcalls. fold built in Hstate, Hcalls.
  rewrite Hquote, Hbest in Hstate.
  assert (Hnot : includes_str (Ens.blacklistedProtocols preferences)
                   (Yield.protocolSlug y) = false).
  { destruct (includes_str _ _) eqn:Hin; [| reflexivity].
    by apply includes_str_elem in Hin. }
  rewrite Hnot in Hstate.
  destruct (executeIntent_final (state built) walletClient built)
    as (_ & Hfinal & Hcalls').
  cbv zeta in Hfinal, Hcalls'. fold run in Hfinal, Hcalls'.
  rewrite Hstate in Hfinal, Hcalls'. simpl in Hfinal, Hcalls'.
  split; [by rewrite Hstate |].
  split; [by rewrite Hcalls', Hcalls, app_assoc |].
  rewrite Hfinal. by destruct (Lifi.executeRoute sdk r).
Qed.

(** ** The quick intent *)

(** X27.  [useQuickIntent().execute] always ends with [isExecuting] false.  When
    it returns, the error is cleared; the routing service quoted a route,
    the yield service returned a best match and the execution of the route
    returned; the last execution is the record for that route and the
    intent composed from the request and that match; and the calls to the
    routing service are the quote followed by the execution of that route.
    When it throws, the error is the message of the thrown value, the last
    execution is kept, and the thrown value is the one of the first stage
    that failed (the quote, no route, the yield service, no match, or the
    execution).  It returns whenever the three stages succeed. *)
Theorem quickExecute_cells {W} (params : QuickIntentParams)
    (preferences : Ens.UserPreferences) (walletClient : W) (s : QuickState) :
  let request := quickRequest params preferences in
  let run := quickExecute sdk getBestYield now rid params preferences
               walletClient s in
  let cells := run.1.2 in
  isExecuting cells = false
  ∧ match run.1.1 with
    | Ret _ =>
        quick_error cells = None
        ∧ ∃ r y r',
            quotedRoute sdk request = Ret (Some r)
            ∧ bestMatch getBestYield request preferences = Ret (Some y)
            ∧ Lifi.executeRoute sdk r = Ret r'
            ∧ lastExecution cells
              = Some (executionRecord now rid
                        (Lifi.composeIntentWithDeposit request y) r)
            ∧ run.2 = (Lifi.getBestRoute sdk request).2
                      ++ [Lifi.CallExecuteRoute r]
    | Throw e =>
        quick_error cells = Some (message_or "Execution failed" e)
        ∧ lastExecution cells = lastExecution s
        ∧ (quotedRoute sdk request = Throw e
           ∨ (quotedRoute sdk request = Ret None
              ∧ e = JsError "No route found")
           ∨ ∃ r, quotedRoute sdk request = Ret (Some r)
                  ∧ (bestMatch getBestYield request preferences = Throw e
                     ∨ (bestMatch getBestYield request preferences = Ret None
                        ∧ e = JsError "No yield opportunities found")
                     ∨ ∃ y, bestMatch getBestYield request preferences
                            = Ret (Some y)
                            ∧ Lifi.executeRoute sdk r = Throw e))
    end
  ∧ (∀ r y r',
       quotedRoute sdk request = Ret (Some r) ->
       bestMatch getBestYield request preferences = Ret (Some y) ->
       Lifi.executeRoute sdk r = Ret r' ->
       run.1.1 = Ret tt).
Proof.
  cbv zeta. unfold quickExecute, quickBody, quotedRoute, bestMatch.
  change (qp_toChain params)
    with (Lifi.toChain (quickRequest params preferences)).
  change (qp_toToken params)
    with (Lifi.toToken (quickRequest params preferences)).
  destruct (Lifi.getBestRoute sdk (quickRequest params preferences))
    as [[[r |] | e] calls]; simpl;
    [| split; [reflexivity |];
       split; [by repeat split; eauto | by intros ? ? ? [=]] ..].
  destruct (getBestYield _ _ _ _) as [[y |] | e]; simpl;
    [| split; [reflexivity |];
       split; [by repeat split; eauto 10 | by intros ? ? ? _ [=]] ..].
  rewrite LifiFacts.executeComposedIntent_outcome.
  destruct (Lifi.executeRoute sdk r) as [r' | e] eqn:Hexec; simpl.
  - split; [reflexivity |]. split; [| done].
    split; [reflexivity |]. exists r, y, r'. repeat split. exact Hexec.
  - split; [reflexivity |]. split.
    + split; [reflexivity |]. split; [reflexivity |].
      right. right. exists r. split; [reflexivity |].
      right. right. by exists y.
    + intros r0 y0 r0' [= <-] _. by rewrite Hexec.
Qed.

(** X28.  The quick intent reads three preferences only: risk tolerance, minimum
    liquidity and maximum slippage.  Preferences that agree on these give
    the same run, whatever their whitelist, blacklist or other fields. *)
Theorem quickExecute_ignores_lists {W} (params : QuickIntentParams)
    (preferences preferences' : Ens.UserPreferences) (walletClient : W)
    (s : QuickState) :
  Ens.riskTolerance preferences' = Ens.riskTolerance preferences ->
  Ens.minLiquidityUsd preferences' = Ens.minLiquidityUsd preferences ->
  Ens.maxSlippageBps preferences' = Ens.maxSlippageBps preferences ->
  quickExecute sdk getBestYield now rid params preferences' walletClient s
  = quickExecute sdk getBestYield now rid params preferences walletClient s.
Proof.
  intros Hrisk Hliq Hslip.
  unfold quickExecute, quickBody, quickRequest.
  by rewrite Hrisk, Hliq, Hslip.
Qed.

(** X29.  When the best match is blacklisted, [buildIntent] fails without
    executing anything, while the quick intent for the same request
    composes that match and executes the route. *)
Theorem quickExecute_blacklisted_best {W} (params : QuickIntentParams)
    (preferences : Ens.UserPreferences) (walletClient : W) (s : QuickState)
    (w : World) (r r' : Lifi.Route) (y : Yield.YieldOpportunity) :
  let request := quickRequest params preferences in
  quotedRoute sdk request = Ret (Some r) ->
  bestMatch getBestYield request preferences = Ret (Some y) ->
  JStr (Yield.protocolSlug y) ∈ Ens.blacklistedProtocols preferences ->
  Lifi.executeRoute sdk r = Ret r' ->
  let quick := quickExecute sdk getBestYield now rid params preferences
                 walletClient s in
  let built := (buildIntent sdk getBestYield request preferences w).2 in
  quick.1.1 = Ret tt
  ∧ lastExecution quick.1.2
    = Some (executionRecord now rid
              (Lifi.composeIntentWithDeposit request y) r)
  ∧ quick.2 = (Lifi.getBestRoute sdk request).2 ++ [Lifi.CallExecuteRoute r]
  ∧ step (state built) = failed
  ∧ canExecute (state built) = false
  ∧ routing_of (trace built)
    = routing_of (trace w) ++ (Lifi.getBestRoute sdk request).2.
Proof.
  intros request Hquote Hbest Hblack Hexec quick built.
  pose proof Hquote as Hquote'. unfold quotedRoute in Hquote'.
  pose proof Hbest as Hbest'. unfold bestMatch in Hbest'.
  pose proof (buildIntent_final request preferences w) as (_ & Hstate & Hcalls).
  cbv zeta in Hstate, Hcalls. fold built in Hstate, Hcalls.
  rewrite Hquote, Hbest in Hstate.
  apply includes_str_elem in Hblack. rewrite Hblack in Hstate.
  subst quick. unfold quickExecute, quickBody. fold request.
  destruct (Lifi.getBestRoute sdk request) as [found calls] eqn:Hroute.
  simpl in Hquote'. subst found.
  change (qp_toChain params) with (Lifi.toChain request).
  change (qp_toToken params) with (Lifi.toToken request).
  rewrite Hbest', LifiFacts.executeComposedIntent_outcome, Hexec. simpl.
  split; [reflexivity |]. split; [reflexivity |]. split; [reflexivity |].
  rewrite Hstate. split; [reflexivity |]. split; [reflexivity |]. exact Hcalls.
Qed.

Lemma zero_slippage (bps : Z) :
  bps = 0 ->
  (Lifi.slippage_or_default (Some (inject_Z bps / 10000)) * 100 == 1)%Q.
Proof. intros ->. reflexivity. Qed.

(** X30.  A quick intent sends one quote request, followed by at most the
    execution of a route.  The request carries the chains of the
    parameters, the addresses the token table gives for the two symbols,
    the amount [parseUnits] returned written in decimal, the user's address
    as sender and as receiver, the order RECOMMENDED and
    [allowSwitchChain].  A maximum slippage of 0 does not ask for zero
    slippage: the default takes over and the slippage option is 1. *)
Theorem quickExecute_quote_request {W} (params : QuickIntentParams)
    (preferences : Ens.UserPreferences) (walletClient : W) (s : QuickState)
    (rq : Lifi.RoutesRequest) :
  let calls := (quickExecute sdk getBestYield now rid params preferences
                  walletClient s).2 in
  Lifi.CallGetRoutes rq ∈ calls ->
  (calls = [Lifi.CallGetRoutes rq]
   ∨ ∃ r, calls = [Lifi.CallGetRoutes rq; Lifi.CallExecuteRoute r])
  ∧ Lifi.fromChainId rq = qp_fromChain params
  ∧ Lifi.toChainId rq = qp_toChain params
  ∧ Lifi.tokenAddress (qp_fromChain params) (qp_fromToken params)
    = Some (Lifi.fromTokenAddress rq)
  ∧ Lifi.tokenAddress (qp_toChain params) (qp_toToken params)
    = Some (Lifi.toTokenAddress rq)
  ∧ (∃ amountInWei,
       Lifi.parseUnits sdk (qp_fromAmount params) 6 = Ret amountInWei
       ∧ Lifi.rq_fromAmount rq = pretty amountInWei)
  ∧ Lifi.fromAddress rq = qp_userAddress params
  ∧ Lifi.toAddress rq = qp_userAddress params
  ∧ Lifi.opt_order rq = "RECOMMENDED"
  ∧ Lifi.opt_allowSwitchChain rq = true
  ∧ (Ens.maxSlippageBps preferences = 0 -> (Lifi.opt_slippage rq == 1)%Q).
Proof.
  cbv zeta. unfold quickExecute, quickBody.
  set (request := quickRequest params preferences).
  assert (Hquote :
    (Lifi.getBestRoute sdk request).2 = []
    ∨ ∃ rq0,
        (Lifi.getBestRoute sdk request).2 = [Lifi.CallGetRoutes rq0]
        ∧ Lifi.fromChainId rq0 = qp_fromChain params
        ∧ Lifi.toChainId rq0 = qp_toChain params
        ∧ Lifi.tokenAddress (qp_fromChain params) (qp_fromToken params)
          = Some (Lifi.fromTokenAddress rq0)
        ∧ Lifi.tokenAddress (qp_toChain params) (qp_toToken params)
          = Some (Lifi.toTokenAddress rq0)
        ∧ (∃ amountInWei,
             Lifi.parseUnits sdk (qp_fromAmount params) 6 = Ret amountInWei
             ∧ Lifi.rq_fromAmount rq0 = pretty amountInWei)
        ∧ Lifi.fromAddress rq0 = qp_userAddress params
        ∧ Lifi.toAddress rq0 = qp_userAddress params
        ∧ Lifi.opt_order rq0 = "RECOMMENDED"
        ∧ Lifi.opt_allowSwitchChain rq0 = true
        ∧ (Ens.maxSlippageBps preferences = 0 ->
           (Lifi.opt_slippage rq0 == 1)%Q)).
  { unfold Lifi.getBestRoute. subst request. cbn [quickRequest Lifi.fromChain
      Lifi.fromToken Lifi.toChain Lifi.toToken Lifi.fromAmount
      Lifi.userAddress Lifi.slippage].
    destruct (Lifi.tokenAddress (qp_fromChain params) (qp_fromToken params))
      as [a |]; [| by left].
    destruct (Lifi.tokenAddress (qp_toChain params) (qp_toToken params))
      as [b |]; [| by left].
    destruct (Lifi.parseUnits sdk (qp_fromAmount params) 6) as [wei | e] eqn:Hwei;
      [| by left].
    right. eexists. split.
    - by destruct (Lifi.getRoutes sdk _).
    - simpl. repeat split; eauto. apply zero_slippage. }
  destruct (Lifi.getBestRoute sdk request) as [[[r |] | e] calls] eqn:Hroute;
    simpl in Hquote |- *.
  - destruct (getBestYield _ _ _ _) as [[y |] | e]; simpl.
    + rewrite LifiFacts.executeComposedIntent_outcome.
      destruct Hquote as [-> | (rq0 & -> & Hshape)].
      * destruct (Lifi.executeRoute sdk r); simpl;
          by intros [=]%list_elem_of_singleton.
      * destruct (Lifi.executeRoute sdk r); simpl;
          (intros [[= ->] | [=]%list_elem_of_singleton]%elem_of_cons;
           split; [right; by eexists | exact Hshape]).
    + destruct Hquote as [-> | (rq0 & -> & Hshape)];
        [by intros ?%elem_of_nil |].
      intros [= ->]%list_elem_of_singleton. split; [by left | exact Hshape].
    + destruct Hquote as [-> | (rq0 & -> & Hshape)];
        [by intros ?%elem_of_nil |].
      intros [= ->]%list_elem_of_singleton. split; [by left | exact Hshape].
  - destruct Hquote as [-> | (rq0 & -> & Hshape)];
      [by intros ?%elem_of_nil |].
    intros [= ->]%list_elem_of_singleton. split; [by left | exact Hshape].
  - destruct Hquote as [-> | (rq0 & -> & Hshape)];
      [by intros ?%elem_of_nil |].
    intros [= ->]%list_elem_of_singleton. split; [by left | exact Hshape].
Qed.

End Runs.
(** ** Worked runs *)

Lemma buildIntent_unmapped_token_witness :
  step (state (buildIntent Sample.sdk_ok Sample.best_is_pendle
                 Sample.request_foo Ens.DEFAULT_PREFERENCES Sample.world0).2)
  = failed
  ∧ error (state (buildIntent Sample.sdk_ok Sample.best_is_pendle
                    Sample.request_foo Ens.DEFAULT_PREFERENCES Sample.world0).2)
    = Some "Token not supported on one of the chains: FOO -> USDC"
  ∧ routing_of (trace (buildIntent Sample.sdk_ok Sample.best_is_pendle
                         Sample.request_foo Ens.DEFAULT_PREFERENCES
                         Sample.world0).2)
    = [].
Proof.
  destruct (buildIntent_unmapped_token Sample.sdk_ok Sample.best_is_pendle
              Sample.request_foo Ens.DEFAULT_PREFERENCES Sample.world0)
    as (Hstep & Herror & _ & _ & _ & Hcalls).
  - left. vm_compute. reflexivity.
  - split; [exact Hstep |]. split; [exact Herror | exact Hcalls].
Defined.

Lemma executeIntent_after_failed_rebuild_witness :
  step (state (buildIntent Sample.sdk_ok Sample.best_is_pendle Sample.request0
                 Sample.prefs_no_pendle Sample.world_ready).2)
  = failed
  ∧ step (state (executeIntent Sample.sdk_ok 1700000000000 "k3x9q"
                   (state (buildIntent Sample.sdk_ok Sample.best_is_pendle
                             Sample.request0 Sample.prefs_no_pendle
                             Sample.world_ready).2)
                   tt
                   (buildIntent Sample.sdk_ok Sample.best_is_pendle
                      Sample.request0 Sample.prefs_no_pendle
                      Sample.world_ready).2).2)
    = completed.
Proof.
  destruct (executeIntent_after_failed_rebuild Sample.sdk_ok
              Sample.best_is_pendle 1700000000000 "k3x9q" Sample.request0
              Sample.prefs_no_pendle tt Sample.world_ready Sample.composed0
              Sample.route0)
    as (Hstep & _ & _ & _ & _ & Hdone).
  - reflexivity.
  - vm_compute. reflexivity.
  - intros y [= <-]. rewrite list_elem_of_In. simpl. by left.
  - split; [exact Hstep |]. by destruct (Hdone Sample.route0 eq_refl).
Defined.

Lemma build_then_execute_witness :
  canExecute (state (buildIntent Sample.sdk_ok Sample.best_is_pendle
                       Sample.request0 Ens.DEFAULT_PREFERENCES
                       Sample.world0).2)
  = true
  ∧ step (state (executeIntent Sample.sdk_ok 1700000000000 "k3x9q"
                   (state (buildIntent Sample.sdk_ok Sample.best_is_pendle
                             Sample.request0 Ens.DEFAULT_PREFERENCES
                             Sample.world0).2)
                   tt
                   (buildIntent Sample.sdk_ok Sample.best_is_pendle
                      Sample.request0 Ens.DEFAULT_PREFERENCES
                      Sample.world0).2).2)
    = completed.
Proof.
  destruct (build_then_execute Sample.sdk_ok Sample.best_is_pendle
              1700000000000 "k3x9q" Sample.request0 Ens.DEFAULT_PREFERENCES tt
              Sample.world0 Sample.route0 Sample.pendle_usdc)
    as (Hcan & _ & Hrun).
  - vm_compute. reflexivity.
  - reflexivity.
  - rewrite list_elem_of_In. simpl. tauto.
  - split; [exact Hcan |]. simpl in Hrun. by destruct Hrun.
Defined.

Lemma quickExecute_ignores_lists_witness :
  quickExecute Sample.sdk_ok Sample.best_is_pendle 1700000000000 "k3x9q"
    Sample.quick0 Sample.prefs_no_pendle tt Sample.quick_cells0
  = quickExecute Sample.sdk_ok Sample.best_is_pendle 1700000000000 "k3x9q"
      Sample.quick0 Ens.DEFAULT_PREFERENCES tt Sample.quick_cells0.
Proof.
  apply (quickExecute_ignores_lists Sample.sdk_ok Sample.best_is_pendle
           1700000000000 "k3x9q" Sample.quick0 Ens.DEFAULT_PREFERENCES
           Sample.prefs_no_pendle tt Sample.quick_cells0); reflexivity.
Defined.

Lemma quickExecute_blacklisted_best_witness :
  (quickExecute Sample.sdk_ok Sample.best_is_pendle 1700000000000 "k3x9q"
     Sample.quick0 Sample.prefs_no_pendle tt Sample.quick_cells0).1.1
  = Ret tt
  ∧ step (state (buildIntent Sample.sdk_ok Sample.best_is_pendle
                   (quickRequest Sample.quick0 Sample.prefs_no_pendle)
                   Sample.prefs_no_pendle Sample.world0).2)
    = failed.
Proof.
  destruct (quickExecute_blacklisted_best Sample.sdk_ok Sample.best_is_pendle
              1700000000000 "k3x9q" Sample.quick0 Sample.prefs_no_pendle tt
              Sample.quick_cells0 Sample.world0 Sample.route0 Sample.route0
              Sample.pendle_usdc)
    as (Hquick & _ & _ & Hbuilt & _).
  - vm_compute. reflexivity.
  - reflexivity.
  - rewrite list_elem_of_In. simpl. by left.
  - reflexivity.
  - by split.
Defined.

Lemma buildIntent_ready_iff_witness :
  step (state (buildIntent Sample.sdk_ok Sample.best_is_pendle Sample.request0
                 Ens.DEFAULT_PREFERENCES Sample.world0).2)
  = ready
  ∧ route (state (buildIntent Sample.sdk_ok Sample.best_is_pendle
                    Sample.request0 Ens.DEFAULT_PREFERENCES Sample.world0).2)
    = Some Sample.route0
  ∧ targetYield (state (buildIntent Sample.sdk_ok Sample.best_is_pendle
                          Sample.request0 Ens.DEFAULT_PREFERENCES
                          Sample.world0).2)
    = Some Sample.pendle_usdc.
Proof.
  destruct (buildIntent_ready_iff Sample.sdk_ok Sample.best_is_pendle
              Sample.request0 Ens.DEFAULT_PREFERENCES Sample.world0)
    as [_ Hready].
  destruct (Hready Sample.route0 Sample.pendle_usdc)
    as (Hstep & Hroute & Htarget & _).
  - vm_compute. reflexivity.
  - reflexivity.
  - rewrite list_elem_of_In. simpl. tauto.
  - split; [exact Hstep |]. split; [exact Hroute | exact Htarget].
Defined.

Lemma quickExecute_cells_witness :
  (quickExecute Sample.sdk_ok Sample.best_is_pendle 1700000000000 "k3x9q"
     Sample.quick0 Ens.DEFAULT_PREFERENCES tt Sample.quick_cells0).1.1
  = Ret tt
  ∧ isExecuting
      (quickExecute Sample.sdk_ok Sample.best_is_pendle 1700000000000 "k3x9q"
         Sample.quick0 Ens.DEFAULT_PREFERENCES tt Sample.quick_cells0).1.2
    = false.
Proof.
  destruct (quickExecute_cells Sample.sdk_ok Sample.best_is_pendle
              1700000000000 "k3x9q" Sample.quick0 Ens.DEFAULT_PREFERENCES tt
              Sample.quick_cells0)
    as (Hflag & _ & Hruns).
  split; [| exact Hflag].
  apply (Hruns Sample.route0 Sample.pendle_usdc Sample.route0);
    [vm_compute; reflexivity | reflexivity | reflexivity].
Defined.

Lemma quickExecute_quote_request_witness :
  (quickExecute Sample.sdk_ok Sample.best_is_pendle 1700000000000 "k3x9q"
     Sample.quick0 Sample.prefs_zero_slippage tt Sample.quick_cells0).2
  = [Lifi.CallGetRoutes Sample.routes_request0;
     Lifi.CallExecuteRoute Sample.route0]
  ∧ (Lifi.opt_slippage Sample.routes_request0 == 1)%Q
  ∧ Lifi.fromAddress Sample.routes_request0
    = "0x00000000000000000000000000000000000000aa".
Proof.
  assert (Hcalls :
    (quickExecute Sample.sdk_ok Sample.best_is_pendle 1700000000000 "k3x9q"
       Sample.quick0 Sample.prefs_zero_slippage tt Sample.quick_cells0).2
    = [Lifi.CallGetRoutes Sample.routes_request0;
       Lifi.CallExecuteRoute Sample.route0]).
  { vm_compute. reflexivity. }
  split; [exact Hcalls |].
  destruct (quickExecute_quote_request Sample.sdk_ok Sample.best_is_pendle
              1700000000000 "k3x9q" Sample.quick0 Sample.prefs_zero_slippage tt
              Sample.quick_cells0 Sample.routes_request0)
    as (_ & _ & _ & _ & _ & _ & Hfrom & _ & _ & _ & Hslippage).
  - rewrite Hcalls. left.
  - split; [by apply Hslippage | exact Hfrom].
Defined.

End RunFacts.
